(** * pytidb: the table binding and its utilities

  A shallow embedding of [pytidb/utils.py] and [pytidb/table.py].

  Python values are modelled by small inductive types, exceptions by an
  error type carried in a sum, attribute bags and payload dictionaries by
  stdpp's [gmap], ordered dictionaries (whose iteration order the code
  relies on) by association lists, and the objects a list of records
  shares by an explicit store from references to records. *)

From Stdlib Require Import ZArith Ascii String List Bool Lia.
From stdpp Require Import base option list strings gmap pretty.

Local Open Scope Z_scope.
Local Open Scope string_scope.
Local Open Scope list_scope.

(** ** Python values, exceptions, results *)

Module Py.

(** The values a record field, a row cell or a dictionary entry holds.
    Vector components are floats in Python; the code never computes with
    them, so they are kept as integers. *)
Inductive value :=
| VNone
| VBool (b : bool)
| VInt (z : Z)
| VStr (s : string)
| VVector (v : list Z).

#[global] Instance value_eq_dec : EqDecision value.
Proof. solve_decision. Defined.

Definition is_none (v : value) : bool :=
  match v with VNone => true | _ => false end.

(** The exceptions the two modules raise or let through. The argument is
    [args[0]] of the exception, with two exceptions: for a missing attribute
    of a record it is the name of the attribute only, the class of a record
    not being modelled, and for a [ValidationError] it is the type of the
    error, the report pydantic prints around it being left out. *)
Inductive exn :=
| TypeError (msg : string)
| ValueError (msg : string)
| KeyError (arg : string)
| AttributeError (msg : string)
| IndexError (msg : string)
| ValidationError (msg : string)
| EngineError (msg : string).

#[global] Instance exn_eq_dec : EqDecision exn.
Proof. solve_decision. Defined.

(** A call either raises or returns. *)
Definition result (A : Type) : Type := exn + A.

Definition ok {A} (a : A) : result A := inr a.
Definition raise {A} (e : exn) : result A := inl e.

Definition rbind {A B} (r : result A) (k : A -> result B) : result B :=
  match r with
  | inl e => inl e
  | inr a => k a
  end.

Definition is_ok {A} (r : result A) : bool :=
  match r with inr _ => true | inl _ => false end.

(** [str.lower()], on ASCII letters. Bytes outside A-Z are kept. *)
Definition ascii_lower (c : ascii) : ascii :=
  let n := nat_of_ascii c in
  if ((65 <=? n)%nat && (n <=? 90)%nat)%bool then ascii_of_nat (n + 32) else c.

Fixpoint lower (s : string) : string :=
  match s with
  | EmptyString => EmptyString
  | String c s' => String (ascii_lower c) (lower s')
  end.

(** [repr] of a string (quotes inside the string are not escaped) and of a
    list of strings, as an f-string formats them. *)
Definition repr_str (s : string) : string := "'" +:+ s +:+ "'".

Fixpoint join (sep : string) (l : list string) : string :=
  match l with
  | [] => ""
  | [x] => x
  | x :: l' => x +:+ sep +:+ join sep l'
  end.

Definition repr_str_list (l : list string) : string :=
  "[" +:+ join ", " (map repr_str l) +:+ "]".

(** [str(v)], as an f-string formats a value. *)
Definition py_str (v : value) : string :=
  match v with
  | VNone => "None"
  | VBool true => "True"
  | VBool false => "False"
  | VInt z => pretty z
  | VStr s => s
  | VVector l => "[" +:+ join ", " (map pretty l) +:+ "]"
  end.

(** A [str] is kept as the bytes of its UTF-8 encoding wherever the code
    only compares it or passes it on. Where the code reads a [str]
    character by character, it is a list of code points. *)
Definition ustr : Type := list N.

(** The code points of a [str] of ASCII characters. *)
Definition codes (s : string) : ustr := map N_of_ascii (list_ascii_of_string s).

(** Substring test, to say that a message names something. *)
Fixpoint is_prefix (p s : string) : bool :=
  match p, s with
  | EmptyString, _ => true
  | String a p', String b s' => if Ascii.eqb a b then is_prefix p' s' else false
  | String _ _, EmptyString => false
  end.

Fixpoint contains (s sub : string) : bool :=
  is_prefix sub s ||
  match s with
  | EmptyString => false
  | String _ s' => contains s' sub
  end.

End Py.

Export Py.

Notation "x <- r ;;; k" := (rbind r (fun x => k))
  (at level 100, r at next level, right associativity).

(** ** [pytidb/utils.py] *)

Module Utils.

(** *** The serverless host pattern

    [TIDB_SERVERLESS_HOST_PATTERN] is a compiled regular expression over
    [str]; [Pattern.match] succeeds when some prefix of the string belongs
    to the language of the expression. The matcher below decides that with
    derivatives. Characters are code points: [.] is any character but a
    line feed and [\d] any decimal digit of the Unicode database. *)

Inductive regex :=
| ReNone
| ReEps
| ReCls (p : N -> bool)
| ReSeq (r1 r2 : regex)
| ReAlt (r1 r2 : regex)
| ReStar (r : regex).

Fixpoint nullable (r : regex) : bool :=
  match r with
  | ReNone => false
  | ReEps => true
  | ReCls _ => false
  | ReSeq r1 r2 => nullable r1 && nullable r2
  | ReAlt r1 r2 => nullable r1 || nullable r2
  | ReStar _ => true
  end.

Definition re_seq (r1 r2 : regex) : regex :=
  match r1, r2 with
  | ReNone, _ => ReNone
  | _, ReNone => ReNone
  | ReEps, _ => r2
  | _, _ => ReSeq r1 r2
  end.

Definition re_alt (r1 r2 : regex) : regex :=
  match r1, r2 with
  | ReNone, _ => r2
  | _, ReNone => r1
  | _, _ => ReAlt r1 r2
  end.

Fixpoint deriv (c : N) (r : regex) : regex :=
  match r with
  | ReNone => ReNone
  | ReEps => ReNone
  | ReCls p => if p c then ReEps else ReNone
  | ReSeq r1 r2 =>
      if nullable r1
      then re_alt (re_seq (deriv c r1) r2) (deriv c r2)
      else re_seq (deriv c r1) r2
  | ReAlt r1 r2 => re_alt (deriv c r1) (deriv c r2)
  | ReStar r1 => re_seq (deriv c r1) (ReStar r1)
  end.

(** [re.match]: a prefix of [s] is in the language of [r]. *)
Fixpoint re_match (r : regex) (s : ustr) : bool :=
  nullable r ||
  match s with
  | [] => false
  | c :: s' => re_match (deriv c r) s'
  end.

Definition re_char (c : ascii) : regex := ReCls (N.eqb (N_of_ascii c)).

Fixpoint re_lit (s : string) : regex :=
  match s with
  | EmptyString => ReEps
  | String c s' => ReSeq (re_char c) (re_lit s')
  end.

Definition re_any : regex := ReCls (fun c => negb (c =? 10)%N).

Definition re_plus (r : regex) : regex := ReSeq r (ReStar r).
Definition re_opt (r : regex) : regex := ReAlt r ReEps.

Fixpoint re_seqs (l : list regex) : regex :=
  match l with
  | [] => ReEps
  | r :: l' => ReSeq r (re_seqs l')
  end.

Section HostPattern.

(** [str.isdecimal] of one character: the decimal digits of the Unicode
    database of the interpreter (category Nd). Which code points they are
    depends on the version of the database. *)
Variable unicode_decimal : N -> bool.

Definition re_digit : regex := ReCls unicode_decimal.

(** gateway\d{2}\.(.+)\.(prod|dev|staging)\.(shared\.)?(aws|alicloud)\.tidbcloud\.com *)
Definition TIDB_SERVERLESS_HOST_PATTERN : regex :=
  re_seqs
    [ re_lit "gateway"; re_digit; re_digit; re_char ".";
      re_plus re_any; re_char ".";
      ReAlt (re_lit "prod") (ReAlt (re_lit "dev") (re_lit "staging")); re_char ".";
      re_opt (re_lit "shared.");
      ReAlt (re_lit "aws") (re_lit "alicloud");
      re_lit ".tidbcloud.com" ].

End HostPattern.

(** The decimal digits of Unicode 14.0, the database of CPython 3.11: 66
    runs of ten code points, each given by its digit zero. *)
Definition unicode_14_digit_zeros : list N :=
  [ 48; 1632; 1776; 1984; 2406; 2534; 2662; 2790; 2918; 3046; 3174; 3302; 3430; 3558;
    3664; 3792; 3872; 4160; 4240; 6112; 6160; 6470; 6608; 6784; 6800; 6992; 7088; 7232;
    7248; 42528; 43216; 43264; 43472; 43504; 43600; 44016; 65296; 66720; 68912; 69734;
    69872; 69942; 70096; 70384; 70736; 70864; 71248; 71360; 71472; 71904; 72016; 72784;
    73040; 73120; 92768; 92864; 93008; 120782; 120792; 120802; 120812; 120822; 123200;
    123632; 125264; 130032 ]%N.

Definition unicode_14_decimal (c : N) : bool :=
  existsb (fun zero => (zero <=? c)%N && (c <? zero + 10)%N) unicode_14_digit_zeros.

(** *** [urllib.parse.quote] with its default [safe='/'] *)

Definition quote_safe (c : ascii) : bool :=
  let n := nat_of_ascii c in
  (((65 <=? n) && (n <=? 90)) || ((97 <=? n) && (n <=? 122)) || ((48 <=? n) && (n <=? 57))
   || (n =? 95) || (n =? 46) || (n =? 45) || (n =? 126) || (n =? 47))%nat%bool.

Definition hex_digit (n : nat) : ascii :=
  if (n <? 10)%nat then ascii_of_nat (48 + n) else ascii_of_nat (55 + n).

Fixpoint quote (s : string) : string :=
  match s with
  | EmptyString => EmptyString
  | String c s' =>
      if quote_safe c then String c (quote s')
      else
        let n := nat_of_ascii c in
        String "%" (String (hex_digit (n / 16)) (String (hex_digit (n mod 16)) (quote s')))
  end.

(** *** [TiDBDsn] and [build_tidb_dsn] *)

Record UrlConstraints := {
  allowed_schemes : list string;
  default_port : Z;
  host_required : bool
}.

Definition TiDBDsn_constraints : UrlConstraints :=
  {| allowed_schemes :=
       [ "mysql"; "mysql+mysqlconnector"; "mysql+aiomysql"; "mysql+asyncmy";
         "mysql+mysqldb"; "mysql+pymysql"; "mysql+cymysql"; "mysql+pyodbc" ];
     default_port := 4000;
     host_required := true |}.

(** The keyword arguments of [build] of a URL class. *)
Record UrlParts := {
  part_scheme : string;
  part_username : option string;
  part_password : option string;
  part_host : ustr;
  part_port : option Z;
  part_path : option string;
  part_query : option string
}.

(** A URL as parsed: what its accessors give. *)
Record Url := {
  url_scheme : string;
  url_username : option string;
  url_password : option string;
  url_host : option string;
  url_port : option Z;
  url_path : option string;
  url_query : option string
}.

Definition ssl_query : string := "ssl_verify_cert=true&ssl_verify_identity=true".

(** The keyword arguments of [build_tidb_dsn]; [None] is an argument the
    caller left out (for [enable_ssl], also an explicit [None]). *)
Record DsnArgs := {
  arg_schema : option string;
  arg_host : option ustr;
  arg_port : option Z;
  arg_username : option string;
  arg_password : option string;
  arg_database : option string;
  arg_enable_ssl : option bool
}.

Definition truthy_str (s : string) : bool := negb (bool_decide (s = "")).
Definition truthy_ustr (s : ustr) : bool := negb (bool_decide (s = [])).

Section Dsn.

Variable unicode_decimal : N -> bool.

(** [pydantic_core.Url.build]: the parts are put together into one string,
    which is parsed as a URL; a string that is no URL raises. The parser is
    not part of this repository: what it refuses (a port out of range, a
    password that breaks the authority) and how it normalises what it
    accepts (the case of the scheme, the encoding of the host) is its own. *)
Variable Url_parse_parts : UrlParts -> result Url.

(** The validation of a parsed URL against the constraints of a URL class:
    the scheme must be one of [allowed_schemes], a required host must be
    there, and a URL without port gets [default_port]. *)
Definition Url_validate (c : UrlConstraints) (url : Url) : result Url :=
  if negb (bool_decide (url_scheme url ∈ allowed_schemes c)) then
    raise (ValidationError "url_scheme")
  else if host_required c && bool_decide (default "" (url_host url) = "") then
    raise (ValidationError "url_parsing")
  else
    ok {| url_scheme := url_scheme url;
          url_username := url_username url;
          url_password := url_password url;
          url_host := url_host url;
          url_port := Some (default (default_port c) (url_port url));
          url_path := url_path url;
          url_query := url_query url |}.

(** [cls.build(...)] of the URL class whose constraints are [c]: the URL
    built from the parts, validated as an instance of the class. *)
Definition Url_build (c : UrlConstraints) (parts : UrlParts) : result Url :=
  url <- Url_parse_parts parts ;;;
  Url_validate c url.

Definition build_tidb_dsn (a : DsnArgs) : result Url :=
  let schema := default "mysql+pymysql" (arg_schema a) in
  let host := default (codes "localhost") (arg_host a) in
  let port := default 4000 (arg_port a) in
  let username := default "root" (arg_username a) in
  let password := default "" (arg_password a) in
  let database := default "test" (arg_database a) in
  let enable_ssl :=
    match arg_enable_ssl a with
    | None =>
        if truthy_ustr host && re_match (TIDB_SERVERLESS_HOST_PATTERN unicode_decimal) host
        then Some true else None
    | Some b => Some b
    end in
  Url_build TiDBDsn_constraints
    {| part_scheme := schema;
       part_username := Some username;
       part_password := if truthy_str password then Some (quote password) else None;
       part_host := host;
       part_port := Some port;
       part_path := Some database;
       part_query := if default false enable_ssl then Some ssl_query else None |}.

End Dsn.

(** *** Columns and their types *)

(** The SQL type classes the code tests for, and some it does not.
    [Text] and [VARCHAR] are subclasses of [String]; [AutoString] is a type
    decorator and [VectorType] a user-defined type, neither a [String]. *)
Inductive sa_class :=
| VectorType | String_ | Text | VARCHAR | AutoString
| Integer | BigInteger | Float | Boolean | DateTime | JSON.

#[global] Instance sa_class_eq_dec : EqDecision sa_class.
Proof. solve_decision. Defined.

Definition subclass (c d : sa_class) : bool :=
  bool_decide (c = d) ||
  match c, d with
  | Text, String_ | VARCHAR, String_ => true
  | _, _ => false
  end.

(** A type object: [Column.type] always holds an instance (a class given to
    [Column] is instantiated). [ty_id] is the identity of the object. *)
Record sa_type := { ty_id : nat; ty_class : sa_class; ty_dim : option nat }.

(** Python objects that [check_vector_column] compares: a type instance or a
    class. Neither [TypeEngine] nor [VectorType] defines [__eq__], so [==]
    and [!=] fall back on identity. *)
Inductive pyobj :=
| ObjInstance (t : sa_type)
| ObjClass (c : sa_class).

Definition py_is (a b : pyobj) : bool :=
  match a, b with
  | ObjInstance t1, ObjInstance t2 => (ty_id t1 =? ty_id t2)%nat
  | ObjClass c, ObjClass d => bool_decide (c = d)
  | _, _ => false
  end.

Definition py_ne (a b : pyobj) : bool := negb (py_is a b).

Definition isinstance (t : sa_type) (c : sa_class) : bool := subclass (ty_class t) c.

Record Column := {
  col_name : string;
  col_type : sa_type;
  col_table : option string;
  col_primary_key : bool
}.

(** [str(column)]: the column name, qualified by its table when bound. *)
Definition Column_str (c : Column) : string :=
  match col_table c with
  | Some t => t +:+ "." +:+ col_name c
  | None => col_name c
  end.

(** [name in columns] and [columns[name]] on a column collection. *)
Fixpoint columns_get (columns : list Column) (name : string) : option Column :=
  match columns with
  | [] => None
  | c :: cs => if bool_decide (col_name c = name) then Some c else columns_get cs name
  end.

Definition columns_contains (columns : list Column) (name : string) : bool :=
  bool_decide (is_Some (columns_get columns name)).

Definition columns_getitem (columns : list Column) (name : string) : result Column :=
  match columns_get columns name with
  | Some c => ok c
  | None => raise (KeyError name)
  end.

Definition filter_vector_columns (columns : list Column) : list Column :=
  List.filter (fun column => isinstance (col_type column) VectorType) columns.

Definition check_vector_column (columns : list Column) (column_name : string) : result Column :=
  if negb (columns_contains columns column_name) then
    raise (ValueError ("Non-exists vector column: " +:+ column_name))
  else
    vector_column <- columns_getitem columns column_name ;;;
    if py_ne (ObjInstance (col_type vector_column)) (ObjClass VectorType) then
      raise (ValueError ("Invalid vector column: " +:+ Column_str vector_column))
    else ok vector_column.

Definition filter_text_columns (columns : list Column) : list Column :=
  List.filter
    (fun column => isinstance (col_type column) AutoString || isinstance (col_type column) String_)
    columns.

Definition check_text_column (columns : list Column) (column_name : string) : result Column :=
  if negb (columns_contains columns column_name) then
    raise (ValueError ("Non-exists text column: " +:+ column_name))
  else
    text_column <- columns_getitem columns column_name ;;;
    if negb (isinstance (col_type text_column) String_)
       && negb (isinstance (col_type text_column) AutoString) then
      raise (ValueError ("Invalid text column: " +:+ Column_str text_column))
    else ok text_column.

(** *** Indexes and tables *)

(** An element of [Index.expressions]: a column, or a [text()] clause, the
    only one with a [.text] attribute. *)
Inductive sa_expr :=
| ExprColumn (name : string)
| ExprText (text : string).

#[global] Instance sa_expr_eq_dec : EqDecision sa_expr.
Proof. solve_decision. Defined.

(** [dialect_kwargs] holds the dialect options the index was built with. *)
Record Index := {
  idx_name : string;
  idx_expressions : list sa_expr;
  idx_columns : list string;
  dialect_kwargs : gmap string string
}.

(** [index.dialect_kwargs.get("mysql_prefix", "").lower()]. The collection
    [dialect_kwargs] is a view of the options given over the defaults of
    their dialect: for [mysql_prefix], an option of the MySQL dialect, the
    lookup of [get] always succeeds and gives the default of the dialect,
    [None], when the index was built without the option. The fallback [""]
    of the call is never used, and [.lower()] on [None] raises. *)
Definition get_index_type (index : Index) : result string :=
  match dialect_kwargs index !! "mysql_prefix" with
  | Some prefix => ok (lower prefix)
  | None => raise (AttributeError "'NoneType' object has no attribute 'lower'")
  end.

(** A [sqlalchemy.Table]: its columns, its indexes and the columns of its
    primary-key constraint. *)
Record SaTable := {
  tbl_name : string;
  tbl_columns : list Column;
  tbl_indexes : list Index;
  tbl_primary_key : list Column
}.

(** *** Row identity *)

(** [row._mapping]: the cells of a row under their column names, in column
    order. *)
Definition Row : Type := list (string * value).

Fixpoint mapping_get (m : Row) (k : string) : option value :=
  match m with
  | [] => None
  | (k', v) :: m' => if bool_decide (k' = k) then Some v else mapping_get m' k
  end.

(** The argument of the error a row raises for a column it does not have.
    The error is SQLAlchemy's [NoSuchColumnError], a [KeyError]; its
    argument is a sentence, not the bare key. *)
Definition no_such_column (k : string) : string :=
  "Could not locate column in row for column '" +:+ k +:+ "'".

Definition mapping_getitem (m : Row) (k : string) : result value :=
  match mapping_get m k with
  | Some v => ok v
  | None => raise (KeyError (no_such_column k))
  end.

(** [tuple(row._mapping[name] for name in names)]: the lookups run in order
    and the first missing name raises. *)
Fixpoint mapping_getitems (m : Row) (names : list string) : result (list value) :=
  match names with
  | [] => ok []
  | n :: ns =>
      v <- mapping_getitem m n ;;;
      vs <- mapping_getitems m ns ;;;
      ok (v :: vs)
  end.

(** What [get_row_id_from_row] returns: one value or a tuple of values. *)
Inductive row_key :=
| KeyScalar (v : value)
| KeyTuple (vs : list value).

#[global] Instance row_key_eq_dec : EqDecision row_key.
Proof. solve_decision. Defined.

(** Whether [hash] accepts a value: a vector is a list, which it refuses. *)
Definition hashable (v : value) : bool :=
  match v with
  | VVector _ => false
  | _ => true
  end.

Section RowIdentity.

(** [hash] of a tuple of hashable values. *)
Variable tuple_hash : list value -> Z.

(** [Row.__hash__]: the hash of the tuple of the cells of the row, which
    raises when a cell is not hashable. *)
Definition row_hash (row : Row) : result Z :=
  let cells := map snd row in
  if forallb hashable cells then ok (tuple_hash cells)
  else raise (TypeError "unhashable type: 'list'").

(** The truth value of a primary-key column collection
    ([pk_constraint.columns] in a boolean context). It is SQLAlchemy's to
    define and not part of this repository. *)
Variable columns_bool : list Column -> bool.

Definition get_row_id_from_row (row : Row) (table : SaTable) : result row_key :=
  let pk_columns := tbl_primary_key table in
  if negb (columns_bool pk_columns) then
    match mapping_getitem row "_tidb_rowid" with
    | inr v => ok (KeyScalar v)
    | inl (KeyError _) => h <- row_hash row ;;; ok (KeyScalar (VInt h))
    | inl e => raise e
    end
  else
    let pk_column_names := map col_name pk_columns in
    let attempt :=
      match pk_column_names with
      | [name] => v <- mapping_getitem row name ;;; ok (KeyScalar v)
      | _ => vs <- mapping_getitems row pk_column_names ;;; ok (KeyTuple vs)
      end in
    match attempt with
    | inl (KeyError arg) =>
        raise (KeyError ("Primary key column '" +:+ arg +:+ "' not found in Row. "
                         +:+ "Available: " +:+ repr_str_list (map fst row)))
    | r => r
    end.

End RowIdentity.

(** A collection that is false exactly when it is empty. *)
Definition bool_of_len (cs : list Column) : bool :=
  negb (bool_decide (cs = [])).

End Utils.

Export Utils.

(** * Properties of [pytidb/utils.py] *)

Module UtilsFacts.

(** ** The matcher and the language of an expression *)

(** The strings an expression denotes. *)
Inductive in_lang : regex -> ustr -> Prop :=
| in_eps : in_lang ReEps []
| in_cls p c : p c = true -> in_lang (ReCls p) [c]
| in_seq r1 r2 s1 s2 :
    in_lang r1 s1 -> in_lang r2 s2 -> in_lang (ReSeq r1 r2) (s1 ++ s2)
| in_alt_l r1 r2 s : in_lang r1 s -> in_lang (ReAlt r1 r2) s
| in_alt_r r1 r2 s : in_lang r2 s -> in_lang (ReAlt r1 r2) s
| in_star_nil r : in_lang (ReStar r) []
| in_star_more r s1 s2 :
    in_lang r s1 -> in_lang (ReStar r) s2 -> in_lang (ReStar r) (s1 ++ s2).

Lemma in_lang_none s : ~ in_lang ReNone s.
Proof. intros H. inversion H. Qed.

Lemma nullable_spec r : nullable r = true <-> in_lang r [].
Proof.
  split.
  - induction r as [| | p | r1 IH1 r2 IH2 | r1 IH1 r2 IH2 | r IH]; simpl; intros H.
    + discriminate.
    + constructor.
    + discriminate.
    + apply andb_true_iff in H as [H1 H2].
      apply (in_seq r1 r2 [] []); auto.
    + apply orb_true_iff in H as [H | H]; [apply in_alt_l | apply in_alt_r]; auto.
    + constructor.
  - intros H. remember (@nil N) as s eqn:Hs.
    induction H as [| p c Hp | r1 r2 s1 s2 _ IH1 _ IH2 | r1 r2 s _ IH | r1 r2 s _ IH
                   | r | r s1 s2 _ _ _ _]; simpl; try reflexivity.
    + discriminate.
    + apply app_eq_nil in Hs as [-> ->].
      rewrite IH1, IH2; reflexivity.
    + rewrite IH; [reflexivity | exact Hs].
    + rewrite IH; [apply orb_true_r | exact Hs].
Qed.

Lemma in_eps_inv s : in_lang ReEps s -> s = [].
Proof. intros H. by inversion H. Qed.

Lemma in_cls_inv p s : in_lang (ReCls p) s -> exists c, s = [c] /\ p c = true.
Proof. intros H. inversion H; subst. eauto. Qed.

Lemma in_seq_inv r1 r2 s :
  in_lang (ReSeq r1 r2) s -> exists s1 s2, s = s1 ++ s2 /\ in_lang r1 s1 /\ in_lang r2 s2.
Proof. intros H. inversion H; subst. eauto. Qed.

Lemma in_alt_inv r1 r2 s : in_lang (ReAlt r1 r2) s -> in_lang r1 s \/ in_lang r2 s.
Proof. intros H. inversion H; subst; auto. Qed.

Lemma re_seq_lang r1 r2 s : in_lang (re_seq r1 r2) s <-> in_lang (ReSeq r1 r2) s.
Proof.
  assert (Hnone_l : forall r, in_lang (ReSeq ReNone r) s -> False).
  { intros r (s1 & s2 & _ & H & _)%in_seq_inv. by eapply in_lang_none. }
  assert (Hnone_r : forall r, in_lang (ReSeq r ReNone) s -> False).
  { intros r (s1 & s2 & _ & _ & H)%in_seq_inv. by eapply in_lang_none. }
  assert (Heps : forall r, in_lang r s <-> in_lang (ReSeq ReEps r) s).
  { intros r. split.
    - intros H. apply (in_seq ReEps r [] s); [constructor | exact H].
    - intros (s1 & s2 & -> & H1 & H2)%in_seq_inv. apply in_eps_inv in H1 as ->. exact H2. }
  destruct r1, r2; simpl; try reflexivity;
    try (split; [intros H; by apply in_lang_none in H | intros H; exfalso; eauto]);
    try apply Heps.
Qed.

Lemma re_alt_lang r1 r2 s : in_lang (re_alt r1 r2) s <-> in_lang (ReAlt r1 r2) s.
Proof.
  assert (Hl : forall r, in_lang r s <-> in_lang (ReAlt ReNone r) s).
  { intros r. split; [apply in_alt_r |].
    intros [H | H]%in_alt_inv; [by apply in_lang_none in H | assumption]. }
  assert (Hr : forall r, in_lang r s <-> in_lang (ReAlt r ReNone) s).
  { intros r. split; [apply in_alt_l |].
    intros [H | H]%in_alt_inv; [assumption | by apply in_lang_none in H]. }
  destruct r1, r2; simpl; try reflexivity; try apply Hl; try apply Hr.
Qed.

(** A non-empty string of a starred expression starts with a non-empty
    string of the expression. *)
Lemma in_star_cons_inv r c s :
  in_lang (ReStar r) (c :: s) ->
  exists s1 s2, s = s1 ++ s2 /\ in_lang r (c :: s1) /\ in_lang (ReStar r) s2.
Proof.
  intros H. remember (ReStar r) as r' eqn:Hr. remember (c :: s) as cs eqn:Hcs.
  revert s Hcs.
  induction H as [| | | | | | r0 s1 s2 H1 _ H2 IH2]; intros s' Hcs; try discriminate.
  injection Hr as ->.
  destruct s1 as [| c1 s1]; simpl in Hcs.
  - apply IH2; [reflexivity | exact Hcs].
  - injection Hcs as -> <-. exists s1, s2. auto.
Qed.

Lemma deriv_spec c r : forall s, in_lang (deriv c r) s <-> in_lang r (c :: s).
Proof.
  induction r as [| | p | r1 IH1 r2 IH2 | r1 IH1 r2 IH2 | r IH]; intros s; simpl.
  - split; intros H; by apply in_lang_none in H.
  - split; intros H; [by apply in_lang_none in H | by apply in_eps_inv in H].
  - destruct (p c) eqn:Hp; split; intros H.
    + apply in_eps_inv in H as ->. by constructor.
    + apply in_cls_inv in H as (c' & [= <- ->] & _). constructor.
    + by apply in_lang_none in H.
    + apply in_cls_inv in H as (c' & [= <- ->] & Hc). congruence.
  - assert (Hfirst : in_lang (ReSeq (deriv c r1) r2) s ->
                     in_lang (ReSeq r1 r2) (c :: s)).
    { intros (s1 & s2 & -> & H1 & H2)%in_seq_inv.
      apply (in_seq r1 r2 (c :: s1) s2); [by apply IH1 | exact H2]. }
    assert (Hsplit : in_lang (ReSeq r1 r2) (c :: s) ->
                     in_lang (ReSeq (deriv c r1) r2) s \/
                     (in_lang r1 [] /\ in_lang r2 (c :: s))).
    { intros (s1 & s2 & Hs & H1 & H2)%in_seq_inv.
      destruct s1 as [| c1 s1]; simpl in Hs.
      - subst s2. right. auto.
      - injection Hs as <- ->. left. constructor; [by apply IH1 | exact H2]. }
    destruct (nullable r1) eqn:Hn.
    + rewrite re_alt_lang. split.
      * intros [H | H]%in_alt_inv.
        -- apply Hfirst. by apply re_seq_lang.
        -- apply (in_seq r1 r2 [] (c :: s)); [by apply nullable_spec | by apply IH2].
      * intros [H | [_ H]]%Hsplit.
        -- apply in_alt_l. by apply re_seq_lang.
        -- apply in_alt_r. by apply IH2.
    + rewrite re_seq_lang. split; [exact Hfirst |].
      intros [H | [H _]]%Hsplit; [exact H |].
      apply nullable_spec in H. congruence.
  - rewrite re_alt_lang. split.
    + intros [H | H]%in_alt_inv; [apply in_alt_l; by apply IH1 | apply in_alt_r; by apply IH2].
    + intros [H | H]%in_alt_inv; [apply in_alt_l; by apply IH1 | apply in_alt_r; by apply IH2].
  - rewrite re_seq_lang. split.
    + intros (s1 & s2 & -> & H1 & H2)%in_seq_inv.
      apply (in_star_more r (c :: s1) s2); [by apply IH | exact H2].
    + intros (s1 & s2 & -> & H1 & H2)%in_star_cons_inv.
      constructor; [by apply IH | exact H2].
Qed.

(** [re_match] decides whether a prefix of the string is in the language
    of the expression. *)
Lemma re_match_spec r : forall s,
  re_match r s = true <-> exists p q, s = p ++ q /\ in_lang r p.
Proof.
  intros s. revert r. induction s as [| c s IH]; intros r; simpl.
  - rewrite orb_false_r, nullable_spec. split.
    + intros H. exists [], []. auto.
    + intros (p & q & Hs & H). symmetry in Hs. apply app_eq_nil in Hs as [-> _].
      exact H.
  - rewrite orb_true_iff, nullable_spec, IH. split.
    + intros [H | (p & q & -> & H)].
      * exists [], (c :: s). auto.
      * exists (c :: p), q. split; [reflexivity | by apply deriv_spec].
    + intros (p & q & Hs & H). destruct p as [| c' p]; simpl in Hs.
      * left. exact H.
      * injection Hs as <- ->. right. exists p, q. split; [reflexivity | by apply deriv_spec].
Qed.


(** ** The host pattern on sample hosts, with the digits of Unicode 14.0 *)

Example serverless_host_matches :
  re_match (TIDB_SERVERLESS_HOST_PATTERN unicode_14_decimal)
    (codes "gateway01.us-west-2.prod.aws.tidbcloud.com") = true.
Proof. vm_compute. reflexivity. Qed.

Example shared_host_matches :
  re_match (TIDB_SERVERLESS_HOST_PATTERN unicode_14_decimal)
    (codes "gateway12.eu-central-1.dev.shared.alicloud.tidbcloud.com") = true.
Proof. vm_compute. reflexivity. Qed.

Example localhost_does_not_match :
  re_match (TIDB_SERVERLESS_HOST_PATTERN unicode_14_decimal) (codes "localhost") = false.
Proof. vm_compute. reflexivity. Qed.

Example one_digit_gateway_does_not_match :
  re_match (TIDB_SERVERLESS_HOST_PATTERN unicode_14_decimal)
    (codes "gateway1.us-west-2.prod.aws.tidbcloud.com") = false.
Proof. vm_compute. reflexivity. Qed.

(** The two digits may be any decimal digits: here ARABIC-INDIC DIGIT ZERO
    and ONE, U+0660 and U+0661. *)
Example arabic_indic_gateway_matches :
  re_match (TIDB_SERVERLESS_HOST_PATTERN unicode_14_decimal)
    (codes "gateway" ++ [1632; 1633]%N ++ codes ".us-west-2.prod.aws.tidbcloud.com") = true.
Proof. vm_compute. reflexivity. Qed.

Example quote_example : quote "p@ss w/d" = "p%40ss%20w/d".
Proof. vm_compute. reflexivity. Qed.

(** ** DSN construction *)

Section DsnFacts.

Variable unicode_decimal : N -> bool.
Variable Url_parse_parts : UrlParts -> result Url.

Lemma empty_host_does_not_match :
  re_match (TIDB_SERVERLESS_HOST_PATTERN unicode_decimal) [] = false.
Proof. reflexivity. Qed.

(** The TLS switch of [build_tidb_dsn], once resolved. *)
Lemma truthy_host_match (host : ustr) :
  truthy_ustr host && re_match (TIDB_SERVERLESS_HOST_PATTERN unicode_decimal) host
  = re_match (TIDB_SERVERLESS_HOST_PATTERN unicode_decimal) host.
Proof.
  unfold truthy_ustr. case_bool_decide as He; [| reflexivity].
  rewrite He. reflexivity.
Qed.



(** With every argument left out, the builder gets the parts of the local
    DSN, without password and without TLS. *)
Example build_tidb_dsn_defaults :
  build_tidb_dsn unicode_decimal Url_parse_parts
    {| arg_schema := None; arg_host := None; arg_port := None;
       arg_username := None; arg_password := None; arg_database := None;
       arg_enable_ssl := None |}
  = Url_build Url_parse_parts TiDBDsn_constraints
      {| part_scheme := "mysql+pymysql"; part_username := Some "root";
         part_password := None; part_host := codes "localhost"; part_port := Some 4000;
         part_path := Some "test"; part_query := None |}.
Proof. reflexivity. Qed.

(** ** What reaches the URL builder *)

Lemma hex_digit_safe n : (n < 16)%nat -> quote_safe (hex_digit n) = true.
Proof.
  intros Hn. do 16 (destruct n as [| n]; [reflexivity |]). lia.
Qed.

Lemma quote_chars (s : string) :
  Forall (fun c => quote_safe c = true \/ c = "%"%char) (list_ascii_of_string (quote s)).
Proof.
  induction s as [| c s IH]; [constructor |].
  pose proof (Ascii.nat_ascii_bounded c) as Hb.
  assert (Hd : quote_safe (hex_digit (nat_of_ascii c / 16)) = true)
    by (apply hex_digit_safe; apply Nat.Div0.div_lt_upper_bound; lia).
  assert (Hm : quote_safe (hex_digit (nat_of_ascii c mod 16)) = true)
    by (apply hex_digit_safe; apply Nat.mod_upper_bound; lia).
  cbn [quote]. destruct (quote_safe c) eqn:Hc; cbn [list_ascii_of_string].
  - constructor; [by left | exact IH].
  - constructor; [by right |].
    constructor; [left; exact Hd |].
    constructor; [left; exact Hm | exact IH].
Qed.

Lemma quote_safe_string (s : string) :
  Forall (fun c => quote_safe c = true) (list_ascii_of_string s) -> quote s = s.
Proof.
  induction s as [| c s IH]; simpl; [reflexivity |].
  intros [Hc Hs]%Forall_cons. rewrite Hc. by rewrite IH.
Qed.

(** The user, password and database [build_tidb_dsn] hands to the URL
    builder: the user and the database are the ones given (or [root] and
    [test]); an empty or absent password gives no password at all; any
    other password is percent-encoded, so that it holds only letters,
    digits, [_ . - ~ /] and [%], and it is handed over as it is when it
    holds only the former: a [/] in a password is not encoded. *)
Theorem build_tidb_dsn_credentials (a : DsnArgs) :
  exists parts,
    build_tidb_dsn unicode_decimal Url_parse_parts a
    = Url_build Url_parse_parts TiDBDsn_constraints parts /\
    part_username parts = Some (default "root" (arg_username a)) /\
    part_path parts = Some (default "test" (arg_database a)) /\
    (default "" (arg_password a) = "" -> part_password parts = None) /\
    (forall p, arg_password a = Some p -> p <> "" ->
       part_password parts = Some (quote p) /\
       Forall (fun c => quote_safe c = true \/ c = "%"%char) (list_ascii_of_string (quote p)) /\
       (Forall (fun c => quote_safe c = true) (list_ascii_of_string p) -> quote p = p)).
Proof.
  unfold build_tidb_dsn. eexists. split; [reflexivity |].
  cbn [part_username part_path part_password].
  split; [reflexivity |]. split; [reflexivity |]. split.
  - intros ->. reflexivity.
  - intros p -> Hp. simpl. unfold truthy_str.
    rewrite bool_decide_eq_false_2 by exact Hp. simpl.
    split; [reflexivity |]. split; [apply quote_chars | apply quote_safe_string].
Qed.

(** ** Matching is by prefix *)

Lemma re_match_extends r : forall s t,
  re_match r s = true -> re_match r (s ++ t) = true.
Proof.
  intros s. revert r. induction s as [| c s IH]; intros r t; simpl.
  - rewrite orb_false_r. intros Hn. destruct t; simpl; by rewrite Hn.
  - intros [Hn | Hm]%orb_true_iff.
    + by rewrite Hn.
    + rewrite (IH _ t Hm). apply orb_true_r.
Qed.

(** The host pattern is matched at the start of the host only: a host
    that matches still matches with anything appended to it, so the TLS
    parameters are handed over for it as well. *)
Theorem serverless_pattern_matches_extensions (host suffix : ustr) :
  re_match (TIDB_SERVERLESS_HOST_PATTERN unicode_decimal) host = true ->
  re_match (TIDB_SERVERLESS_HOST_PATTERN unicode_decimal) (host ++ suffix) = true /\
  forall a, arg_host a = Some (host ++ suffix) -> arg_enable_ssl a = None ->
    exists parts,
      build_tidb_dsn unicode_decimal Url_parse_parts a
      = Url_build Url_parse_parts TiDBDsn_constraints parts /\
      part_host parts = host ++ suffix /\
      part_query parts = Some ssl_query.
Proof.
  intros Hm. pose proof (re_match_extends _ host suffix Hm) as Hext.
  split; [exact Hext |].
  intros a Hh Hs. unfold build_tidb_dsn. rewrite Hh, Hs.
  change (default (codes "localhost") (Some (host ++ suffix))) with (host ++ suffix).
  rewrite truthy_host_match, Hext.
  eexists. split; [reflexivity |]. split; reflexivity.
Qed.

End DsnFacts.

(** A serverless host switches TLS on, and the override switches it off
    again. *)
Example build_tidb_dsn_serverless (parse : UrlParts -> result Url) :
  build_tidb_dsn unicode_14_decimal parse
    {| arg_schema := None;
       arg_host := Some (codes "gateway01.us-west-2.prod.aws.tidbcloud.com");
       arg_port := None; arg_username := Some "u"; arg_password := Some "p w";
       arg_database := None; arg_enable_ssl := None |}
  = Url_build parse TiDBDsn_constraints
      {| part_scheme := "mysql+pymysql"; part_username := Some "u";
         part_password := Some "p%20w";
         part_host := codes "gateway01.us-west-2.prod.aws.tidbcloud.com";
         part_port := Some 4000; part_path := Some "test";
         part_query := Some "ssl_verify_cert=true&ssl_verify_identity=true" |}.
Proof. vm_compute. reflexivity. Qed.

Example build_tidb_dsn_override_off (parse : UrlParts -> result Url) :
  build_tidb_dsn unicode_14_decimal parse
    {| arg_schema := None;
       arg_host := Some (codes "gateway01.us-west-2.prod.aws.tidbcloud.com");
       arg_port := Some 4001; arg_username := None; arg_password := None;
       arg_database := None; arg_enable_ssl := Some false |}
  = Url_build parse TiDBDsn_constraints
      {| part_scheme := "mysql+pymysql"; part_username := Some "root";
         part_password := None;
         part_host := codes "gateway01.us-west-2.prod.aws.tidbcloud.com";
         part_port := Some 4001; part_path := Some "test";
         part_query := None |}.
Proof. vm_compute. reflexivity. Qed.

(** Validation refuses a parsed URL of another scheme, and gives one parsed
    without port the port 4000. *)
Example Url_validate_samples :
  let parsed scheme port :=
    {| url_scheme := scheme; url_username := Some "root"; url_password := None;
       url_host := Some "localhost"; url_port := port; url_path := Some "/test";
       url_query := None |} in
  Url_validate TiDBDsn_constraints (parsed "postgresql" (Some 5432))
  = raise (ValidationError "url_scheme") /\
  Url_validate TiDBDsn_constraints (parsed "mysql" None) = ok (parsed "mysql" (Some 4000)).
Proof. split; vm_compute; reflexivity. Qed.


Lemma serverless_pattern_matches_extensions_witness :
  re_match (TIDB_SERVERLESS_HOST_PATTERN unicode_14_decimal)
    (codes "gateway01.us-west-2.prod.aws.tidbcloud.com") = true /\
  re_match (TIDB_SERVERLESS_HOST_PATTERN unicode_14_decimal)
    (codes "gateway01.us-west-2.prod.aws.tidbcloud.com" ++ codes ".example.org") = true.
Proof.
  assert (Hm : re_match (TIDB_SERVERLESS_HOST_PATTERN unicode_14_decimal)
                 (codes "gateway01.us-west-2.prod.aws.tidbcloud.com") = true)
    by (vm_compute; reflexivity).
  split; [exact Hm |].
  exact (proj1 (serverless_pattern_matches_extensions unicode_14_decimal
                  (fun _ => raise (ValidationError "url_parsing"))
                  _ (codes ".example.org") Hm)).
Defined.


(** ** Column checks *)

Lemma columns_get_name columns name c :
  columns_get columns name = Some c -> col_name c = name /\ c ∈ columns.
Proof.
  induction columns as [| c' cs IH]; simpl; [discriminate |].
  case_bool_decide as Hn.
  - intros [= <-]. split; [exact Hn | left].
  - intros H. destruct (IH H) as [? ?]. split; [assumption | by right].
Qed.

Lemma columns_contains_get columns name :
  columns_contains columns name = true <-> is_Some (columns_get columns name).
Proof. unfold columns_contains. by rewrite bool_decide_eq_true. Qed.

Lemma columns_contains_false columns name :
  columns_contains columns name = false <-> columns_get columns name = None.
Proof.
  unfold columns_contains. rewrite bool_decide_eq_false.
  rewrite <- eq_None_not_Some. reflexivity.
Qed.

(** A type instance is never the class object itself. *)
Lemma instance_ne_class (t : sa_type) (c : sa_class) :
  py_ne (ObjInstance t) (ObjClass c) = true.
Proof. reflexivity. Qed.

(** [check_vector_column] returns for no column; the construction lemmas
    below rest on it. *)
Lemma check_vector_column_raises columns name :
  exists msg, check_vector_column columns name = raise (ValueError msg).
Proof.
  unfold check_vector_column.
  destruct (columns_contains columns name) eqn:Hc; simpl; [| eauto].
  unfold columns_getitem.
  apply columns_contains_get in Hc as [c ->]. simpl. eauto.
Qed.

(** Whatever the columns and the name, [check_vector_column] raises. *)
Lemma check_vector_column_always_raises columns name :
  exists msg, check_vector_column columns name = raise (ValueError msg).
Proof.
  unfold check_vector_column.
  destruct (columns_contains columns name) eqn:Hc; simpl; [| eauto].
  unfold columns_getitem.
  apply columns_contains_get in Hc as [c ->]. simpl. eauto.
Qed.

(** [check_text_column] returns the named column when it is there and
    string-typed, and raises a [ValueError] otherwise. *)
Lemma check_text_column_spec columns name :
  match columns_get columns name with
  | Some c =>
      if isinstance (col_type c) String_ || isinstance (col_type c) AutoString
      then check_text_column columns name = ok c
      else check_text_column columns name
           = raise (ValueError ("Invalid text column: " +:+ Column_str c))
  | None =>
      check_text_column columns name
      = raise (ValueError ("Non-exists text column: " +:+ name))
  end.
Proof.
  unfold check_text_column, columns_getitem.
  destruct (columns_get columns name) as [c |] eqn:Hg.
  - assert (Hc : columns_contains columns name = true)
      by (apply columns_contains_get; rewrite Hg; eauto).
    rewrite Hc. simpl.
    destruct (isinstance (col_type c) String_), (isinstance (col_type c) AutoString);
      reflexivity.
  - apply columns_contains_false in Hg as ->. reflexivity.
Qed.

(** C3. On a column set whose column [embedding] is vector-typed, the
    classifier keeps the column as a vector column, yet
    [check_vector_column] raises "Invalid vector column" for it instead of
    returning it. *)
Theorem check_vector_column_rejects_vector_typed :
  let embedding :=
    {| col_name := "embedding";
       col_type := {| ty_id := 1; ty_class := VectorType; ty_dim := Some 3%nat |};
       col_table := Some "chunks";
       col_primary_key := false |} in
  filter_vector_columns [embedding] = [embedding] /\
  check_vector_column [embedding] "embedding"
  = raise (ValueError "Invalid vector column: chunks.embedding").
Proof. split; vm_compute; reflexivity. Qed.

Lemma check_text_column_ok_inv columns name c :
  check_text_column columns name = ok c ->
  columns_get columns name = Some c /\
  isinstance (col_type c) AutoString || isinstance (col_type c) String_ = true.
Proof.
  unfold check_text_column, columns_getitem.
  destruct (columns_contains columns name); simpl; [| discriminate].
  destruct (columns_get columns name) as [c' |]; simpl; [| discriminate].
  destruct (isinstance (col_type c') String_) eqn:H1,
           (isinstance (col_type c') AutoString) eqn:H2; simpl;
    try discriminate; intros [= <-]; rewrite H1, H2; by split.
Qed.

(** ** The classifier and the checks together *)

Lemma elem_of_filter {A} (f : A -> bool) (l : list A) (x : A) :
  x ∈ List.filter f l <-> x ∈ l /\ f x = true.
Proof. rewrite !list_elem_of_In. apply filter_In. Qed.

(** The two column filters: each keeps columns of the given set only; the
    vector filter keeps exactly the columns whose type is a [VectorType],
    the text filter exactly those whose type is a [String] (or one of its
    subclasses) or an [AutoString]; no column is kept by both. *)
Theorem column_classification (columns : list Column) (c : Column) :
  (c ∈ filter_vector_columns columns <->
   c ∈ columns /\ ty_class (col_type c) = VectorType) /\
  (c ∈ filter_text_columns columns <->
   c ∈ columns /\ ty_class (col_type c) ∈ [String_; Text; VARCHAR; AutoString]) /\
  ~ (c ∈ filter_vector_columns columns /\ c ∈ filter_text_columns columns).
Proof.
  unfold filter_vector_columns, filter_text_columns. rewrite !elem_of_filter.
  unfold isinstance, subclass.
  assert (Hv : (bool_decide (ty_class (col_type c) = VectorType)
                || match ty_class (col_type c), VectorType with
                   | Text, String_ | VARCHAR, String_ => true
                   | _, _ => false
                   end) = true
               <-> ty_class (col_type c) = VectorType).
  { destruct (ty_class (col_type c)); simpl; split; (reflexivity || discriminate). }
  assert (Ht : (bool_decide (ty_class (col_type c) = AutoString)
                || match ty_class (col_type c), AutoString with
                   | Text, String_ | VARCHAR, String_ => true
                   | _, _ => false
                   end)
               || (bool_decide (ty_class (col_type c) = String_)
                   || match ty_class (col_type c), String_ with
                      | Text, String_ | VARCHAR, String_ => true
                      | _, _ => false
                      end) = true
               <-> ty_class (col_type c) ∈ [String_; Text; VARCHAR; AutoString]).
  { destruct (ty_class (col_type c)); simpl; split; try reflexivity; try discriminate;
      intros H; try (repeat constructor; fail);
      repeat (apply elem_of_cons in H as [H | H]; [discriminate |]);
      by apply elem_of_nil in H. }
  split; [by rewrite Hv |]. split; [by rewrite Ht |].
  intros [[_ H1] [_ H2]]. apply Hv in H1. apply Ht in H2. rewrite H1 in H2.
  repeat (apply elem_of_cons in H2 as [H2 | H2]; [discriminate |]).
  by apply elem_of_nil in H2.
Qed.

(** [check_text_column] accepts what the text filter keeps: it returns a
    column exactly when that column is the one the name selects and the
    text filter keeps it. *)
Theorem check_text_column_agrees_with_filter (columns : list Column) (name : string)
    (c : Column) :
  check_text_column columns name = ok c <->
  columns_get columns name = Some c /\ c ∈ filter_text_columns columns.
Proof.
  unfold filter_text_columns. rewrite elem_of_filter.
  unfold check_text_column, columns_getitem.
  destruct (columns_get columns name) as [c' |] eqn:Hg.
  - rewrite (proj2 (columns_contains_get columns name)) by (rewrite Hg; eauto).
    simpl. destruct (columns_get_name _ _ _ Hg) as [_ Hin].
    destruct (isinstance (col_type c') String_) eqn:H1,
             (isinstance (col_type c') AutoString) eqn:H2; simpl; split.
    all: try (intros [= <-]; rewrite ?H1, ?H2; by auto).
    all: try (intros [[= <-] _]; reflexivity).
    all: try discriminate.
    intros [[= <-] [_ H]]. rewrite H1, H2 in H. discriminate.
  - rewrite (proj2 (columns_contains_false columns name)) by exact Hg. simpl.
    split; [discriminate | intros [[=] _]].
Qed.


(** ** Row identity *)

Section RowIdentityFacts.

Variable tuple_hash : list value -> Z.

Lemma mapping_getitems_all row names vs :
  Forall2 (fun n v => mapping_get row n = Some v) names vs ->
  mapping_getitems row names = ok vs.
Proof.
  induction 1 as [| n v ns vs Hn _ IH]; simpl; [reflexivity |].
  unfold mapping_getitem. rewrite Hn. simpl. rewrite IH. reflexivity.
Qed.

Lemma mapping_getitems_first_missing row before name after :
  Forall (fun n => is_Some (mapping_get row n)) before ->
  mapping_get row name = None ->
  mapping_getitems row (before ++ name :: after) = raise (KeyError (no_such_column name)).
Proof.
  intros Hb Hn. induction Hb as [| n ns [v Hv] _ IH]; simpl.
  - unfold mapping_getitem. rewrite Hn. reflexivity.
  - unfold mapping_getitem at 1. rewrite Hv. simpl. rewrite IH. reflexivity.
Qed.

(** C6, as the code has it. Row identity, for a primary-key collection
    that is false exactly when it is empty: one primary-key column gives
    its value, several give the tuple of their values in order, and the
    first declared column missing from the row gives a [KeyError] whose
    message quotes the lookup error of the row for that column, which names
    it, and lists the columns of the row. Without a primary key the result
    is the [_tidb_rowid] cell when the row has one; otherwise it is the
    hash of the cells of the row when all of them are hashable, and a
    [TypeError] when one of them is not. *)
Theorem get_row_id_from_row_spec (row : Row) (table : SaTable) :
  let pk := map col_name (tbl_primary_key table) in
  let id := get_row_id_from_row tuple_hash bool_of_len row table in
  (forall name v,
     pk = [name] -> mapping_get row name = Some v -> id = ok (KeyScalar v)) /\
  (forall vs,
     (1 < length pk)%nat ->
     Forall2 (fun n v => mapping_get row n = Some v) pk vs ->
     id = ok (KeyTuple vs)) /\
  (forall before name after,
     pk = before ++ name :: after ->
     Forall (fun n => is_Some (mapping_get row n)) before ->
     mapping_get row name = None ->
     id = raise (KeyError ("Primary key column '" +:+ no_such_column name
                           +:+ "' not found in Row. "
                           +:+ "Available: " +:+ repr_str_list (map fst row)))) /\
  (pk = [] ->
     (forall v, mapping_get row "_tidb_rowid" = Some v -> id = ok (KeyScalar v)) /\
     (mapping_get row "_tidb_rowid" = None ->
      forallb hashable (map snd row) = true ->
      id = ok (KeyScalar (VInt (tuple_hash (map snd row))))) /\
     (mapping_get row "_tidb_rowid" = None ->
      forallb hashable (map snd row) = false ->
      id = raise (TypeError "unhashable type: 'list'"))).
Proof.
  intros pk id. subst id. unfold get_row_id_from_row, bool_of_len.
  split; [| split; [| split]].
  - intros name v Hpk Hv.
    assert (Hne : tbl_primary_key table <> []) by (intros E; subst pk; rewrite E in Hpk; discriminate).
    rewrite bool_decide_eq_false_2 by exact Hne. simpl.
    fold pk. rewrite Hpk. unfold mapping_getitem. rewrite Hv. reflexivity.
  - intros vs Hlen Hall.
    assert (Hne : tbl_primary_key table <> []) by (intros E; subst pk; rewrite E in Hlen; simpl in Hlen; lia).
    rewrite bool_decide_eq_false_2 by exact Hne. simpl.
    fold pk. rewrite (mapping_getitems_all _ _ _ Hall).
    destruct pk as [| n1 [| n2 ns]]; simpl in Hlen; try lia. reflexivity.
  - intros before name after Hpk Hb Hn.
    assert (Hne : tbl_primary_key table <> [])
      by (intros E; subst pk; rewrite E in Hpk; by destruct before).
    rewrite bool_decide_eq_false_2 by exact Hne. simpl.
    fold pk.
    pose proof (mapping_getitems_first_missing row before name after Hb Hn) as Hm.
    rewrite <- Hpk in Hm.
    destruct pk as [| n1 [| n2 ns]].
    + by destruct before.
    + destruct before as [| b bs]; [| by destruct bs].
      injection Hpk as -> _. unfold mapping_getitem. rewrite Hn. reflexivity.
    + rewrite Hm. reflexivity.
  - intros Hpk.
    assert (He : tbl_primary_key table = []) by (subst pk; by destruct (tbl_primary_key table)).
    rewrite bool_decide_eq_true_2 by exact He. simpl.
    unfold mapping_getitem, row_hash.
    split; [| split].
    + intros v ->. reflexivity.
    + intros -> ->. reflexivity.
    + intros -> ->. reflexivity.
Qed.

(** Were the collection true whatever its length, a table without a
    primary key would get the empty tuple, and neither [_tidb_rowid] nor
    the hash would be consulted. *)
Lemma get_row_id_always_true_collection (row : Row) (table : SaTable) :
  tbl_primary_key table = [] ->
  get_row_id_from_row tuple_hash (fun _ => true) row table = ok (KeyTuple []).
Proof. intros H. unfold get_row_id_from_row. rewrite H. reflexivity. Qed.

Lemma mapping_getitems_inv row names vs :
  mapping_getitems row names = ok vs ->
  map (mapping_get row) names = map Some vs.
Proof.
  revert vs. induction names as [| n ns IH]; intros vs; simpl.
  - by intros [= <-].
  - unfold mapping_getitem. destruct (mapping_get row n) as [v |]; simpl; [| discriminate].
    destruct (mapping_getitems row ns) as [e | vs']; simpl; [discriminate |].
    intros [= <-]. simpl. by rewrite (IH vs').
Qed.

(** The identity of a row of a table with a primary key, read back: the
    primary-key cells of the row, in order. *)
Lemma get_row_id_primary_key row table k :
  tbl_primary_key table <> [] ->
  get_row_id_from_row tuple_hash bool_of_len row table = ok k ->
  exists vs,
    map (mapping_get row) (map col_name (tbl_primary_key table)) = map Some vs /\
    k = match vs with [v] => KeyScalar v | _ => KeyTuple vs end.
Proof.
  intros Hne. unfold get_row_id_from_row, bool_of_len.
  rewrite bool_decide_eq_false_2 by exact Hne. simpl.
  destruct (map col_name (tbl_primary_key table)) as [| n [| n2 ns]] eqn:Hnames.
  - by destruct (tbl_primary_key table).
  - unfold mapping_getitem. simpl. destruct (mapping_get row n) as [v |]; simpl.
    + intros [= <-]. by exists [v].
    + discriminate.
  - destruct (mapping_getitems row (n :: n2 :: ns)) as [[] | vs] eqn:Hg; simpl;
      try discriminate.
    intros [= <-]. exists vs. split; [exact (mapping_getitems_inv _ _ _ Hg) |].
    apply mapping_getitems_inv in Hg. destruct vs as [| v1 [| v2 vs]]; try discriminate.
    reflexivity.
Qed.

Lemma maps_agree {A B} (f g : A -> option B) (l : list A) (vs : list B) :
  map f l = map Some vs -> map g l = map Some vs -> forall x, x ∈ l -> f x = g x.
Proof.
  revert vs. induction l as [| x0 l IH]; intros vs Hf Hg x Hx.
  - by apply elem_of_nil in Hx.
  - destruct vs as [| v vs]; [discriminate |]. simpl in Hf, Hg.
    injection Hf as Hf0 Hf. injection Hg as Hg0 Hg.
    apply elem_of_cons in Hx as [-> | Hx]; [congruence | by apply (IH vs)].
Qed.

Lemma map_Some_inj {B} (vs1 vs2 : list B) : map Some vs1 = map Some vs2 -> vs1 = vs2.
Proof.
  revert vs2. induction vs1 as [| v vs1 IH]; intros [| v2 vs2] H; simpl in H;
    try discriminate; [reflexivity |].
  injection H as -> H. by rewrite (IH vs2).
Qed.

(** Two rows of a table with a primary key get the same identity exactly
    when they agree on every primary-key column. *)
Theorem row_id_agrees_with_primary_key (row1 row2 : Row) (table : SaTable) (k1 k2 : row_key) :
  tbl_primary_key table <> [] ->
  get_row_id_from_row tuple_hash bool_of_len row1 table = ok k1 ->
  get_row_id_from_row tuple_hash bool_of_len row2 table = ok k2 ->
  (k1 = k2 <->
   forall c, c ∈ tbl_primary_key table ->
             mapping_get row1 (col_name c) = mapping_get row2 (col_name c)).
Proof.
  intros Hne H1 H2.
  destruct (get_row_id_primary_key _ _ _ Hne H1) as (vs1 & Hm1 & ->).
  destruct (get_row_id_primary_key _ _ _ Hne H2) as (vs2 & Hm2 & ->).
  clear H1 H2. rewrite map_map in Hm1, Hm2.
  assert (Hlen : length vs1 = length vs2).
  { apply (f_equal (@length _)) in Hm1, Hm2. rewrite !length_map in Hm1, Hm2. congruence. }
  assert (Hkey : (match vs1 with [v] => KeyScalar v | _ => KeyTuple vs1 end
                  = match vs2 with [v] => KeyScalar v | _ => KeyTuple vs2 end)
                 <-> vs1 = vs2).
  { destruct vs1 as [| a [| a' vs1]], vs2 as [| b [| b' vs2]]; simpl in Hlen;
      try discriminate; split; congruence. }
  rewrite Hkey. split.
  - intros <-.
    exact (maps_agree (fun c => mapping_get row1 (col_name c))
             (fun c => mapping_get row2 (col_name c)) _ vs1 Hm1 Hm2).
  - intros Hall. apply map_Some_inj. rewrite <- Hm1, <- Hm2.
    apply map_ext_in. intros c Hc. apply Hall. by apply list_elem_of_In.
Qed.

End RowIdentityFacts.

(** A table with the composite primary key (a, b), and two rows that
    differ outside the key only. *)
Definition keyed_table : SaTable :=
  {| tbl_name := "t"; tbl_columns := []; tbl_indexes := [];
     tbl_primary_key :=
       [ {| col_name := "a"; col_type := {| ty_id := 1; ty_class := Integer; ty_dim := None |};
            col_table := Some "t"; col_primary_key := true |};
         {| col_name := "b"; col_type := {| ty_id := 2; ty_class := String_; ty_dim := None |};
            col_table := Some "t"; col_primary_key := true |} ] |}.

Definition keyed_row_1 : Row := [("a", VInt 1); ("b", VStr "x"); ("c", VNone)].
Definition keyed_row_2 : Row := [("c", VInt 7); ("b", VStr "x"); ("a", VInt 1)].

(** A table without primary key. *)
Definition keyless_table : SaTable :=
  {| tbl_name := "t"; tbl_columns := []; tbl_indexes := []; tbl_primary_key := [] |}.

(** The hash of a tuple in the examples: the number of its cells. *)
Definition count_cells (cells : list value) : Z := Z.of_nat (length cells).

Example composite_key_row_id :
  get_row_id_from_row count_cells bool_of_len keyed_row_1 keyed_table
  = ok (KeyTuple [VInt 1; VStr "x"]).
Proof. vm_compute. reflexivity. Qed.

Example missing_key_row_id :
  get_row_id_from_row count_cells bool_of_len [("a", VInt 1); ("c", VNone)] keyed_table
  = raise (KeyError ("Primary key column 'Could not locate column in row for column 'b''"
                     +:+ " not found in Row. Available: ['a', 'c']")).
Proof. vm_compute. reflexivity. Qed.

Example implicit_row_id :
  get_row_id_from_row count_cells bool_of_len
    [("title", VStr "a"); ("_tidb_rowid", VInt 42)] keyless_table
  = ok (KeyScalar (VInt 42)).
Proof. vm_compute. reflexivity. Qed.

Example hashed_row_id :
  get_row_id_from_row count_cells bool_of_len
    [("title", VStr "a"); ("pages", VInt 3)] keyless_table
  = ok (KeyScalar (VInt 2)).
Proof. vm_compute. reflexivity. Qed.

(** C6, a counterexample to the sentence of the specification: the table
    declares no primary key and the row has no [_tidb_rowid]; it has a
    vector cell, so the hash of the row raises and the resolver with it. *)
Lemma row_identity_unhashable_counterexample :
  let row : Row := [("title", VStr "a"); ("embedding", VVector [1; 2; 3])] in
  let id := get_row_id_from_row count_cells bool_of_len row keyless_table in
  tbl_primary_key keyless_table = [] /\
  mapping_get row "_tidb_rowid" = None /\
  id = raise (TypeError "unhashable type: 'list'") /\
  is_ok id = false.
Proof. cbv zeta. split_and!; vm_compute; reflexivity. Qed.

Lemma row_id_agrees_with_primary_key_witness :
  tbl_primary_key keyed_table <> [] /\
  get_row_id_from_row count_cells bool_of_len keyed_row_1 keyed_table
  = ok (KeyTuple [VInt 1; VStr "x"]) /\
  get_row_id_from_row count_cells bool_of_len keyed_row_2 keyed_table
  = ok (KeyTuple [VInt 1; VStr "x"]) /\
  forall c, c ∈ tbl_primary_key keyed_table ->
            mapping_get keyed_row_1 (col_name c) = mapping_get keyed_row_2 (col_name c).
Proof.
  assert (Hne : tbl_primary_key keyed_table <> []) by discriminate.
  assert (H1 : get_row_id_from_row count_cells bool_of_len keyed_row_1 keyed_table
               = ok (KeyTuple [VInt 1; VStr "x"])) by (vm_compute; reflexivity).
  assert (H2 : get_row_id_from_row count_cells bool_of_len keyed_row_2 keyed_table
               = ok (KeyTuple [VInt 1; VStr "x"])) by (vm_compute; reflexivity).
  split; [exact Hne |]. split; [exact H1 |]. split; [exact H2 |].
  apply (proj1 (row_id_agrees_with_primary_key count_cells keyed_row_1 keyed_row_2
                  keyed_table _ _ Hne H1 H2)).
  reflexivity.
Defined.


End UtilsFacts.

Export UtilsFacts.

(** ** [pytidb/table.py] *)

Module TableBinding.

(** *** Objects, collaborators and the world a call runs in *)

(** A record (an instance of the table model) is an object: its attributes
    by name. The caller and the table share it by reference. *)
Abbreviation record := (gmap string value).
Abbreviation loc := nat.

(** An embedding function object, with its single and batch forms. *)
Record EmbedFn := {
  get_source_embedding : value -> value;
  get_source_embeddings : list value -> list value
}.

(** An ORDER BY element: a column, a column descending, or an expression
    the caller built. *)
Inductive order_expr :=
| ByColumn (c : Column)
| ByColumnDesc (c : Column)
| ByExpr (e : string).

Section Collaborators.

(** [pytidb.filters]: a filter specification and the clauses it compiles
    to against the columns of the table; compilation may raise. *)
Context {Filters Clause : Type}.
Variable build_filter_clauses : option Filters -> list Column -> result (list Clause).

(** [pytidb.orm.indexes.format_distance_expression]. *)
Variable format_distance_expression : string -> string -> string.

Record SelectStmt := {
  sel_table : string;
  sel_filter : list Clause;
  sel_order_by : list order_expr;
  sel_limit : option Z;
  sel_offset : option Z
}.

Record UpdateStmt := {
  upd_table : string;
  upd_filter : list Clause;
  upd_values : record
}.

(** What the call sites hand to the collaborators, in order. *)
Inductive event :=
| EvEmbed (field : string) (source : value)
| EvEmbedBatch (field : string) (sources : list value)
| EvCreateAll (t : SaTable) (checkfirst : bool)
| EvAdd (rows : list record)
| EvFlush
| EvRefresh (item : loc)
| EvSelect (stmt : SelectStmt)
| EvUpdate (stmt : UpdateStmt).

(** The database engine, as the answers it gives after a history of
    events: whether a table exists, a record as refreshed from its row, the
    rows of a select, the outcome of an update. *)
Record Engine := {
  eng_has_table : list event -> string -> bool;
  eng_refresh : list event -> record -> record;
  eng_select : list event -> SelectStmt -> list record;
  eng_update : list event -> UpdateStmt -> Z
}.

Variable engine : Engine.

(** The store of record objects and the history of events. *)
Record World := {
  heap : gmap loc record;
  trace : list event
}.

(** A method body: it reads and writes the world and returns or raises;
    what it wrote before raising stays written. *)
Definition M (A : Type) : Type := World -> result A * World.

Definition ret {A} (a : A) : M A := fun w => (inr a, w).
Definition throw {A} (e : exn) : M A := fun w => (inl e, w).

Definition bind {A B} (m : M A) (k : A -> M B) : M B :=
  fun w =>
    match m w with
    | (inl e, w') => (inl e, w')
    | (inr a, w') => k a w'
    end.

Definition lift {A} (r : result A) : M A := fun w => (r, w).

Definition emit (e : event) : M unit :=
  fun w => (inr tt, {| heap := heap w; trace := trace w ++ [e] |}).

Definition history : M (list event) := fun w => (inr (trace w), w).

Notation "x <-- m ;; k" := (bind m (fun x => k))
  (at level 100, m at next level, right associativity).
Notation "m ;;; k" := (bind m (fun _ => k))
  (at level 100, right associativity).

(** [for x in l: body(x)]. *)
Fixpoint for_each {A} (l : list A) (body : A -> M unit) : M unit :=
  match l with
  | [] => ret tt
  | x :: l' => body x ;;; for_each l' body
  end.

(** A loop that updates a local variable. *)
Fixpoint for_fold {A S} (l : list A) (s : S) (body : A -> S -> M S) : M S :=
  match l with
  | [] => ret s
  | x :: l' => s' <-- body x s ;; for_fold l' s' body
  end.

(** The object at a reference; a reference nothing was stored at reads as
    an object without attributes. *)
Definition obj (h : gmap loc record) (l : loc) : record := default ∅ (h !! l).

Definition getattr (item : loc) (name : string) : M value :=
  fun w =>
    match obj (heap w) item !! name with
    | Some v => (inr v, w)
    | None => (inl (AttributeError name), w)
    end.

Definition hasattr (item : loc) (name : string) : M bool :=
  fun w => (inr (bool_decide (is_Some (obj (heap w) item !! name))), w).

Definition store_attr (h : gmap loc record) (item : loc) (name : string) (v : value)
  : gmap loc record :=
  <[item := <[name := v]> (obj h item)]> h.

Definition setattr (item : loc) (name : string) (v : value) : M unit :=
  fun w => (inr tt, {| heap := store_attr (heap w) item name v; trace := trace w |}).

(** *** Schemas, fields and the table object *)

(** The attributes a field declaration sets ([FieldInfo._attributes_set]);
    [None] is a key the bag does not hold. *)
Record FieldInfo := {
  field_type : option string;
  embed_fn : option EmbedFn;
  source_field : option string;
  skip_index : option bool;
  distance_metric : option string;
  algorithm : option string;
  fts_parser : option string
}.

(** [type(schema)]: one of the three schema metaclasses, or any other type. *)
Inductive pytype :=
| TableModelMeta
| SQLModelMetaclass
| DeclarativeMeta
| OtherType (name : string).

Definition repr_type (t : pytype) : string :=
  match t with
  | TableModelMeta => "<class 'pytidb.schema.TableModelMeta'>"
  | SQLModelMetaclass => "<class 'sqlmodel.main.SQLModelMetaclass'>"
  | DeclarativeMeta => "<class 'sqlalchemy.orm.decl_api.DeclarativeMeta'>"
  | OtherType name => "<class '" +:+ name +:+ "'>"
  end.

(** A schema value: its type, its [__table__] and [__tablename__], and its
    [__pydantic_fields__] when it has the attribute. *)
Record Schema := {
  schema_type : pytype;
  schema_table : SaTable;
  schema_tablename : string;
  pydantic_fields : option (list (string * FieldInfo))
}.

(** An entry of [_auto_embedding_configs]. *)
Record EmbeddingConfig := {
  cfg_embed_fn : option EmbedFn;
  cfg_vector_field : FieldInfo;
  cfg_vector_field_name : string;
  cfg_source_field_name : string
}.

Record Table := {
  _table_model : Schema;
  _sa_table : SaTable;
  _columns : list Column;
  _vector_columns : list Column;
  _text_columns : list Column;
  _auto_embedding_configs : option (list (string * EmbeddingConfig));
  _vector_column : option Column;
  _text_column : option Column
}.

(** [d[k] = v] on a dictionary kept in insertion order: an existing key
    keeps its place, a new one goes last. *)
Fixpoint dict_set {V} (d : list (string * V)) (k : string) (v : V) : list (string * V) :=
  match d with
  | [] => [(k, v)]
  | (k', v') :: d' =>
      if bool_decide (k' = k) then (k, v) :: d' else (k', v') :: dict_set d' k v
  end.

Definition dict_keys {V} (d : list (string * V)) : list string := map fst d.

(** *** [_setup_auto_embedding] *)

Definition setup_step (configs : list (string * EmbeddingConfig))
    (entry : string * FieldInfo) : list (string * EmbeddingConfig) :=
  let '(vector_field_name, field) := entry in
  match embed_fn field with
  | None => configs
  | Some fn =>
      match source_field field with
      | None => configs
      | Some source_field_name =>
          dict_set configs vector_field_name
            {| cfg_embed_fn := Some fn;
               cfg_vector_field := field;
               cfg_vector_field_name := vector_field_name;
               cfg_source_field_name := source_field_name |}
      end
  end.

Definition _setup_auto_embedding (vector_fields : list (string * FieldInfo))
  : list (string * EmbeddingConfig) :=
  fold_left setup_step vector_fields [].

(** *** Index synchronisation *)

(** Modelled from the spec: [pytidb.orm.indexes.VectorIndex], which is not
    among the sources. A vector-kind index on the canonical distance
    expression of (column, metric), built with the given algorithm. *)
Definition VectorIndex (name column_name distance_metric algorithm : string) : Index :=
  {| idx_name := name;
     idx_expressions := [ExprText (format_distance_expression column_name distance_metric)];
     idx_columns := [];
     dialect_kwargs := {[ "mysql_prefix" := "VECTOR"; "mysql_using" := algorithm ]} |}.

(** Modelled from the spec: [pytidb.orm.indexes.FullTextIndex], which is not
    among the sources. A fulltext-kind index on one column, with its
    parser. *)
Definition FullTextIndex (name column_name fts_parser : string) : Index :=
  {| idx_name := name;
     idx_expressions := [ExprColumn column_name];
     idx_columns := [column_name];
     dialect_kwargs := {[ "mysql_prefix" := "FULLTEXT"; "mysql_with_parser" := fts_parser ]} |}.

(** [sa_table.append_constraint(index)] *)
Definition append_constraint (t : SaTable) (index : Index) : SaTable :=
  {| tbl_name := tbl_name t;
     tbl_columns := tbl_columns t;
     tbl_indexes := tbl_indexes t ++ [index];
     tbl_primary_key := tbl_primary_key t |}.

(** [index.expressions[0].text] *)
Definition first_expression_text (index : Index) : result string :=
  match idx_expressions index with
  | [] => raise (IndexError "list index out of range")
  | ExprText text :: _ => ok text
  | ExprColumn _ :: _ =>
      raise (AttributeError
               "Neither 'Column' object nor 'Comparator' object has an attribute 'text'")
  end.

(** [index.columns[0].name]; a column collection raises [IndexError] with
    the position as its argument. *)
Definition first_column_name (index : Index) : result string :=
  match idx_columns index with
  | [] => raise (IndexError "0")
  | name :: _ => ok name
  end.

(** [[f(index) for index in indexes if get_index_type(index) == kind]]:
    for each index in turn, the test and then the element. *)
Fixpoint comprehend (kind : string) (f : Index -> result string) (indexes : list Index)
  : result (list string) :=
  match indexes with
  | [] => ok []
  | index :: rest =>
      index_type <- get_index_type index ;;;
      if bool_decide (index_type = kind) then
        x <- f index ;;;
        xs <- comprehend kind f rest ;;;
        ok (x :: xs)
      else comprehend kind f rest
  end.

Definition vector_index_step (t : SaTable) (entry : string * FieldInfo) : result SaTable :=
  let '(field_name, field) := entry in
  let column_name := field_name in
  if default false (skip_index field) then ok t
  else
    let distance_metric := default "COSINE" (distance_metric field) in
    let algorithm := default "HNSW" (algorithm field) in
    let distance_expression := format_distance_expression column_name distance_metric in
    indexed_expressions <- comprehend "vector" first_expression_text (tbl_indexes t) ;;;
    if bool_decide (distance_expression ∈ indexed_expressions) then ok t
    else
      ok (append_constraint t
            (VectorIndex ("vec_idx_" +:+ column_name +:+ "_" +:+ lower distance_metric)
               column_name distance_metric algorithm)).

Fixpoint for_result {A S} (l : list A) (s : S) (body : S -> A -> result S) : result S :=
  match l with
  | [] => ok s
  | x :: l' => s' <- body s x ;;; for_result l' s' body
  end.

Definition _auto_create_vector_index (vector_fields : list (string * FieldInfo))
    (t : SaTable) : result SaTable :=
  for_result vector_fields t vector_index_step.

Definition fulltext_index_step (t : SaTable) (entry : string * FieldInfo) : result SaTable :=
  let '(text_field_name, field) := entry in
  if default false (skip_index field) then ok t
  else
    let column_name := text_field_name in
    indexed_columns <- comprehend "fulltext" first_column_name (tbl_indexes t) ;;;
    if bool_decide (column_name ∈ indexed_columns) then ok t
    else
      let fts_parser := default "MULTILINGUAL" (fts_parser field) in
      ok (append_constraint t (FullTextIndex ("fts_idx_" +:+ column_name) column_name fts_parser)).

Definition _auto_create_fulltext_index (text_fields : list (string * FieldInfo))
    (t : SaTable) : result SaTable :=
  for_result text_fields t fulltext_index_step.

(** *** [Table.__init__] *)

Definition recognized (t : pytype) : bool :=
  match t with
  | TableModelMeta | SQLModelMetaclass | DeclarativeMeta => true
  | OtherType _ => false
  end.

(** The two dictionaries [__init__] fills from [__pydantic_fields__]. *)
Definition classify_step (acc : list (string * FieldInfo) * list (string * FieldInfo))
    (entry : string * FieldInfo) : list (string * FieldInfo) * list (string * FieldInfo) :=
  let '(vector_fields, text_fields) := acc in
  let '(field_name, field_info) := entry in
  if bool_decide (field_type field_info = Some "vector") then
    (dict_set vector_fields field_name field_info, text_fields)
  else if bool_decide (field_type field_info = Some "text") then
    (vector_fields, dict_set text_fields field_name field_info)
  else (vector_fields, text_fields).

Definition classify_fields (fields : list (string * FieldInfo))
  : list (string * FieldInfo) * list (string * FieldInfo) :=
  fold_left classify_step fields ([], []).

(** [Base.metadata.create_all(engine, tables=[t], checkfirst=...)]: the
    engine refuses to create a table that exists unless it was told to
    check first. *)
Definition create_all (t : SaTable) (checkfirst : bool) : M unit :=
  h <-- history ;;
  emit (EvCreateAll t checkfirst) ;;;
  if negb checkfirst && eng_has_table engine h (tbl_name t) then
    throw (EngineError ("Table '" +:+ tbl_name t +:+ "' already exists"))
  else ret tt.

Definition only_one (l : list Column) : option Column :=
  match l with
  | [c] => Some c
  | _ => None
  end.

Definition Table_init (schema : Schema) (vector_column text_column : option string)
    (exist_ok : bool) : M Table :=
  if negb (recognized (schema_type schema)) then
    throw (TypeError ("Invalid schema type: " +:+ repr_type (schema_type schema)))
  else
    let sa_table := schema_table schema in
    let columns := tbl_columns sa_table in
    let vector_columns := filter_vector_columns columns in
    let text_columns := filter_text_columns columns in
    setup <-- match pydantic_fields schema with
              | Some fields =>
                  let '(vector_fields, text_fields) := classify_fields fields in
                  let configs := _setup_auto_embedding vector_fields in
                  t1 <-- lift (_auto_create_vector_index vector_fields sa_table) ;;
                  t2 <-- lift (_auto_create_fulltext_index text_fields t1) ;;
                  ret (Some configs, t2)
              | None => ret (None, sa_table)
              end ;;
    let '(configs, sa_table) := setup in
    create_all sa_table exist_ok ;;;
    vc <-- match vector_column with
           | Some name => c <-- lift (check_vector_column columns name) ;; ret (Some c)
           | None => ret (only_one vector_columns)
           end ;;
    tc <-- match text_column with
           | Some name => c <-- lift (check_text_column columns name) ;; ret (Some c)
           | None => ret (only_one text_columns)
           end ;;
    ret {| _table_model := schema;
           _sa_table := sa_table;
           _columns := columns;
           _vector_columns := vector_columns;
           _text_columns := text_columns;
           _auto_embedding_configs := configs;
           _vector_column := vc;
           _text_column := tc |}.


(** *** The session *)

(** [db_session.add_all(items)]: the session is handed the objects of the
    list, as the list has them. *)
Definition session_add_all (items : list loc) : M unit :=
  fun w => (inr tt, {| heap := heap w;
                       trace := trace w ++ [EvAdd (map (obj (heap w)) items)] |}).

Definition session_flush : M unit := emit EvFlush.

(** [db_session.refresh(item)]: the object is reloaded from its row. *)
Definition session_refresh (item : loc) : M unit :=
  fun w => (inr tt, {| heap := <[item := eng_refresh engine (trace w) (obj (heap w) item)]> (heap w);
                       trace := trace w ++ [EvRefresh item] |}).

(** [db_session.execute(stmt)] for an update statement; it returns the
    outcome of the execution. *)
Definition session_execute (stmt : UpdateStmt) : M Z :=
  h <-- history ;;
  emit (EvUpdate stmt) ;;;
  ret (eng_update engine h stmt).

(** [db_session.exec(stmt).all()] *)
Definition session_exec_all (stmt : SelectStmt) : M (list record) :=
  h <-- history ;;
  emit (EvSelect stmt) ;;;
  ret (eng_select engine h stmt).

(** *** The embedding pipeline *)

(** [self._auto_embedding_configs]: the attribute is set only when the
    schema has [__pydantic_fields__]. *)
Definition table_configs (t : Table) : M (list (string * EmbeddingConfig)) :=
  match _auto_embedding_configs t with
  | Some configs => ret configs
  | None =>
      throw (AttributeError "'Table' object has no attribute '_auto_embedding_configs'")
  end.

(** [config["embed_fn"].get_source_embedding(source)] *)
Definition call_get_source_embedding (field_name : string) (config : EmbeddingConfig)
    (source : value) : M value :=
  match cfg_embed_fn config with
  | None =>
      throw (AttributeError "'NoneType' object has no attribute 'get_source_embedding'")
  | Some fn =>
      emit (EvEmbed field_name source) ;;;
      ret (get_source_embedding fn source)
  end.

Definition insert_embed_step (data : loc) (entry : string * EmbeddingConfig) : M unit :=
  let '(field_name, config) := entry in
  v <-- getattr data field_name ;;
  if negb (is_none v) then ret tt
  else
    has_source <-- hasattr data (cfg_source_field_name config) ;;
    if negb has_source then ret tt
    else
      embedding_source <-- getattr data (cfg_source_field_name config) ;;
      vector_embedding <-- call_get_source_embedding field_name config embedding_source ;;
      setattr data field_name vector_embedding.

Definition insert_auto_embedding (configs : list (string * EmbeddingConfig)) (data : loc)
  : M unit :=
  for_each configs (insert_embed_step data).

Definition insert_persist (data : loc) : M loc :=
  session_add_all [data] ;;;
  session_flush ;;;
  session_refresh data ;;;
  ret data.

Definition Table_insert (t : Table) (data : loc) : M loc :=
  configs <-- table_configs t ;;
  insert_auto_embedding configs data ;;;
  insert_persist data.

(** The inner loop of [bulk_insert]: the items that need an embedding for
    the field and their sources, appended in the order of [data]. *)
Definition collect_step (field_name : string) (config : EmbeddingConfig) (item : loc)
    (acc : list loc * list value) : M (list loc * list value) :=
  let '(items_need_embedding, sources_to_embedding) := acc in
  v <-- getattr item field_name ;;
  if negb (is_none v) then ret acc
  else
    has_source <-- hasattr item (cfg_source_field_name config) ;;
    if negb has_source then ret acc
    else
      embedding_source <-- getattr item (cfg_source_field_name config) ;;
      ret (items_need_embedding ++ [item], sources_to_embedding ++ [embedding_source]).

(** [for item, embedding in zip(items, embeddings): setattr(...)] *)
Definition assign_embeddings (field_name : string) (items : list loc) (embeddings : list value)
  : M unit :=
  for_each (zip items embeddings) (fun p => setattr p.1 field_name p.2).

Definition bulk_embed_step (data : list loc) (entry : string * EmbeddingConfig) : M unit :=
  let '(field_name, config) := entry in
  match cfg_embed_fn config with
  | None => ret tt
  | Some fn =>
      acc <-- for_fold data ([], []) (collect_step field_name config) ;;
      let '(items_need_embedding, sources_to_embedding) := acc in
      emit (EvEmbedBatch field_name sources_to_embedding) ;;;
      let vector_embeddings := get_source_embeddings fn sources_to_embedding in
      assign_embeddings field_name items_need_embedding vector_embeddings
  end.

Definition bulk_auto_embedding (configs : list (string * EmbeddingConfig)) (data : list loc)
  : M unit :=
  for_each configs (bulk_embed_step data).

Definition bulk_persist (data : list loc) : M (list loc) :=
  session_add_all data ;;;
  session_flush ;;;
  for_each data session_refresh ;;;
  ret data.

Definition Table_bulk_insert (t : Table) (data : list loc) : M (list loc) :=
  configs <-- table_configs t ;;
  bulk_auto_embedding configs data ;;;
  bulk_persist data.

(** *** [update] *)

(** What a method hands back: nothing ([None]), or the outcome of an
    executed statement. *)
Inductive returned :=
| ReturnsNone
| ReturnsOutcome (rowcount : Z).

Definition update_embed_step (entry : string * EmbeddingConfig) (values : record) : M record :=
  let '(field_name, config) := entry in
  if bool_decide (is_Some (values !! field_name)) then ret values
  else
    match values !! cfg_source_field_name config with
    | None => ret values
    | Some embedding_source =>
        vector_embedding <-- call_get_source_embedding field_name config embedding_source ;;
        ret (<[field_name := vector_embedding]> values)
    end.

Definition update_auto_embedding (configs : list (string * EmbeddingConfig)) (values : record)
  : M record :=
  for_fold configs values update_embed_step.

Definition Table_update (t : Table) (values : record) (filters : option Filters) : M returned :=
  configs <-- table_configs t ;;
  values <-- update_auto_embedding configs values ;;
  filter_clauses <-- lift (build_filter_clauses filters (_columns t)) ;;
  let stmt := {| upd_table := schema_tablename (_table_model t);
                 upd_filter := filter_clauses;
                 upd_values := values |} in
  _ <-- session_execute stmt ;;
  ret ReturnsNone.

(** *** [query] *)

(** The [order_by] argument: absent, a list of expressions, a column name,
    or a dictionary from column names to directions, in insertion order. *)
Inductive order_by_arg :=
| OrderByNone
| OrderByList (l : list order_expr)
| OrderByStr (name : string)
| OrderByDict (d : list (string * value)).

Definition select (t : Table) : SelectStmt :=
  {| sel_table := schema_tablename (_table_model t);
     sel_filter := [];
     sel_order_by := [];
     sel_limit := None;
     sel_offset := None |}.

Definition stmt_filter (stmt : SelectStmt) (clauses : list Clause) : SelectStmt :=
  {| sel_table := sel_table stmt;
     sel_filter := sel_filter stmt ++ clauses;
     sel_order_by := sel_order_by stmt;
     sel_limit := sel_limit stmt;
     sel_offset := sel_offset stmt |}.

Definition stmt_order_by (stmt : SelectStmt) (es : list order_expr) : SelectStmt :=
  {| sel_table := sel_table stmt;
     sel_filter := sel_filter stmt;
     sel_order_by := sel_order_by stmt ++ es;
     sel_limit := sel_limit stmt;
     sel_offset := sel_offset stmt |}.

Definition stmt_limit (stmt : SelectStmt) (n : Z) : SelectStmt :=
  {| sel_table := sel_table stmt;
     sel_filter := sel_filter stmt;
     sel_order_by := sel_order_by stmt;
     sel_limit := Some n;
     sel_offset := sel_offset stmt |}.

Definition stmt_offset (stmt : SelectStmt) (n : Z) : SelectStmt :=
  {| sel_table := sel_table stmt;
     sel_filter := sel_filter stmt;
     sel_order_by := sel_order_by stmt;
     sel_limit := sel_limit stmt;
     sel_offset := Some n |}.

Definition order_by_entry (columns : list Column) (stmt : SelectStmt) (entry : string * value)
  : result SelectStmt :=
  let '(key, value) := entry in
  if negb (columns_contains columns key) then
    raise (KeyError ("Unknown order by column: " +:+ key))
  else if bool_decide (value = VStr "desc") then
    c <- columns_getitem columns key ;;;
    ok (stmt_order_by stmt [ByColumnDesc c])
  else if bool_decide (value = VStr "asc") then
    c <- columns_getitem columns key ;;;
    ok (stmt_order_by stmt [ByColumn c])
  else
    raise (ValueError ("Invalid order direction value (allowed: 'desc', 'asc'): "
                       +:+ py_str value)).

Definition apply_order_by (columns : list Column) (stmt : SelectStmt) (order_by : order_by_arg)
  : result SelectStmt :=
  match order_by with
  | OrderByList l => ok (stmt_order_by stmt l)
  | OrderByStr name =>
      if negb (columns_contains columns name) then
        raise (KeyError ("Unknown order by column: " +:+ name))
      else
        c <- columns_getitem columns name ;;;
        ok (stmt_order_by stmt [ByColumn c])
  | OrderByDict d => for_result d stmt (order_by_entry columns)
  | OrderByNone => ok stmt
  end.

Definition Table_query (t : Table) (filters : option Filters) (order_by : order_by_arg)
    (limit offset : option Z) : M (list record) :=
  let stmt := select t in
  stmt <-- match filters with
           | Some f =>
               filter_clauses <-- lift (build_filter_clauses (Some f) (_columns t)) ;;
               ret (stmt_filter stmt filter_clauses)
           | None => ret stmt
           end ;;
  stmt <-- lift (apply_order_by (_columns t) stmt order_by) ;;
  let stmt := match limit with Some n => stmt_limit stmt n | None => stmt end in
  let stmt := match offset with Some n => stmt_offset stmt n | None => stmt end in
  session_exec_all stmt.


(** * Properties of [pytidb/table.py] *)

(** ** Index synchronisation *)

(** The table with more indexes appended. *)
Definition add_indexes (t : SaTable) (added : list Index) : SaTable :=
  {| tbl_name := tbl_name t;
     tbl_columns := tbl_columns t;
     tbl_indexes := tbl_indexes t ++ added;
     tbl_primary_key := tbl_primary_key t |}.

(** An index of kind [kind] whose key, read by [f], is [key]. *)
Definition covered (kind : string) (f : Index -> result string) (indexes : list Index)
    (key : string) : Prop :=
  Exists (fun i => get_index_type i = ok kind /\ f i = ok key) indexes.

(** Every index has a type, and every index of kind [kind] a key that [f]
    can read. *)
Definition readable (kind : string) (f : Index -> result string) (indexes : list Index) : Prop :=
  Forall (fun i => is_ok (get_index_type i) = true /\
                   (get_index_type i = ok kind -> is_ok (f i) = true)) indexes.

(** One pass of either synchroniser: append [index] unless an index of the
    kind already has the key. *)
Definition ensure_index (kind : string) (f : Index -> result string) (key : string)
    (index : Index) (t : SaTable) : result SaTable :=
  keys <- comprehend kind f (tbl_indexes t) ;;;
  if bool_decide (key ∈ keys) then ok t else ok (append_constraint t index).

Definition vector_key (entry : string * FieldInfo) : string :=
  format_distance_expression entry.1 (default "COSINE" (distance_metric entry.2)).

Definition vector_index_of (entry : string * FieldInfo) : Index :=
  let metric := default "COSINE" (distance_metric entry.2) in
  VectorIndex ("vec_idx_" +:+ entry.1 +:+ "_" +:+ lower metric) entry.1 metric
    (default "HNSW" (algorithm entry.2)).

Definition fulltext_index_of (entry : string * FieldInfo) : Index :=
  FullTextIndex ("fts_idx_" +:+ entry.1) entry.1 (default "MULTILINGUAL" (fts_parser entry.2)).

Definition skipped (entry : string * FieldInfo) : bool := default false (skip_index entry.2).

Lemma add_indexes_nil t : add_indexes t [] = t.
Proof. destruct t. unfold add_indexes. simpl. by rewrite app_nil_r. Qed.

Lemma add_indexes_app t a b : add_indexes (add_indexes t a) b = add_indexes t (a ++ b).
Proof. unfold add_indexes. simpl. by rewrite app_assoc. Qed.

Lemma append_constraint_add t i : append_constraint t i = add_indexes t [i].
Proof. reflexivity. Qed.

Lemma covered_app_l kind f l1 l2 key : covered kind f l1 key -> covered kind f (l1 ++ l2) key.
Proof. unfold covered. rewrite Exists_app. auto. Qed.

Lemma covered_app_r kind f l1 l2 key : covered kind f l2 key -> covered kind f (l1 ++ l2) key.
Proof. unfold covered. rewrite Exists_app. auto. Qed.

Lemma comprehend_keys kind f indexes :
  readable kind f indexes ->
  exists keys, comprehend kind f indexes = ok keys /\
               forall key, key ∈ keys <-> covered kind f indexes key.
Proof.
  unfold readable, covered.
  induction 1 as [| i rest [Hty Hi] _ IH]; simpl.
  - exists []. split; [reflexivity |]. intros key. rewrite Exists_nil. set_solver.
  - destruct IH as (keys & Hk & Hmem).
    destruct (get_index_type i) as [e | ty] eqn:Hti; [discriminate |]. cbn [rbind].
    case_bool_decide as Hkind.
    + subst ty. specialize (Hi eq_refl). destruct (f i) as [e | k] eqn:Hf; [discriminate |].
      simpl. rewrite Hk. simpl. exists (k :: keys). split; [reflexivity |].
      intros key. rewrite elem_of_cons, Exists_cons, Hmem.
      split.
      * intros [-> | ?]; [left; split; [exact Hti | exact Hf] | by right].
      * intros [[_ Hfi] | ?]; [left | by right].
        rewrite Hf in Hfi. by injection Hfi.
    + exists keys. split; [exact Hk |].
      intros key. rewrite Exists_cons, Hmem. split; [by right |].
      intros [[Hty' _] | ?]; [| assumption].
      rewrite Hti in Hty'. by injection Hty'.
Qed.

Lemma ensure_index_spec kind f key index t :
  readable kind f (tbl_indexes t) ->
  (covered kind f (tbl_indexes t) key /\ ensure_index kind f key index t = ok t) \/
  (~ covered kind f (tbl_indexes t) key /\
   ensure_index kind f key index t = ok (add_indexes t [index])).
Proof.
  intros Hr. unfold ensure_index.
  destruct (comprehend_keys kind f _ Hr) as (keys & -> & Hmem). simpl.
  case_bool_decide as Hin.
  - left. split; [by apply Hmem | reflexivity].
  - right. split; [by rewrite <- Hmem | reflexivity].
Qed.

Section Synchroniser.

(** A synchroniser: its kind, how it reads the key of an index, the key and
    the index of a field, and its loop body. *)
Variable kind : string.
Variable f : Index -> result string.
Variable key : string * FieldInfo -> string.
Variable mk : string * FieldInfo -> Index.
Variable step : SaTable -> string * FieldInfo -> result SaTable.

Hypothesis step_eq : forall t e,
  step t e = if skipped e then ok t else ensure_index kind f (key e) (mk e) t.
Hypothesis mk_kind : forall e, get_index_type (mk e) = ok kind.
Hypothesis mk_key : forall e, f (mk e) = ok (key e).

Lemma readable_snoc indexes e :
  readable kind f indexes -> readable kind f (indexes ++ [mk e]).
Proof.
  unfold readable. intros H. apply Forall_app. split; [exact H |].
  constructor; [| constructor]. rewrite mk_kind, mk_key. by split.
Qed.

Lemma covered_mk indexes e : covered kind f (indexes ++ [mk e]) (key e).
Proof. apply covered_app_r. constructor. split; [apply mk_kind | apply mk_key]. Qed.

(** The loop appends, for the fields not skipped and not yet covered, one
    index each, and leaves every field that is not skipped covered. *)
Lemma sync_loop fields : forall t,
  readable kind f (tbl_indexes t) ->
  exists added,
    for_result fields t step = ok (add_indexes t added) /\
    readable kind f (tbl_indexes t ++ added) /\
    Forall (fun i => exists e, e ∈ fields /\ skipped e = false /\ i = mk e /\
                               ~ covered kind f (tbl_indexes t) (key e)) added /\
    NoDup (map f added) /\
    (forall e, e ∈ fields -> skipped e = false ->
               covered kind f (tbl_indexes t ++ added) (key e)).
Proof.
  induction fields as [| e fields IH]; intros t Hr; simpl.
  - exists []. rewrite add_indexes_nil, app_nil_r.
    split_and!; [reflexivity | exact Hr | constructor | constructor | set_solver].
  - rewrite step_eq. destruct (skipped e) eqn:Hskip.
    + simpl. destruct (IH t Hr) as (added & Hrun & Hr' & Hadd & Hnd & Hcov).
      exists added. split_and!; try assumption.
      * eapply Forall_impl; [exact Hadd |]. intros i (e' & ? & ? & ? & ?).
        exists e'. split_and!; try assumption. by right.
      * intros e' [-> | Hin]%elem_of_cons Hs; [congruence | by apply Hcov].
    + destruct (ensure_index_spec kind f (key e) (mk e) t Hr) as [[Hc ->] | [Hc ->]]; simpl.
      * destruct (IH t Hr) as (added & Hrun & Hr' & Hadd & Hnd & Hcov).
        exists added. split_and!; try assumption.
        -- eapply Forall_impl; [exact Hadd |]. intros i (e' & ? & ? & ? & ?).
           exists e'. split_and!; try assumption. by right.
        -- intros e' [-> | Hin]%elem_of_cons Hs; [by apply covered_app_l | by apply Hcov].
      * assert (Hr1 : readable kind f (tbl_indexes (add_indexes t [mk e])))
          by (simpl; by apply readable_snoc).
        destruct (IH _ Hr1) as (added & Hrun & Hr' & Hadd & Hnd & Hcov).
        simpl in Hr', Hadd, Hcov. rewrite <- app_assoc in Hr', Hcov. simpl in Hr', Hcov.
        exists (mk e :: added). rewrite Hrun, add_indexes_app. simpl.
        split_and!; [reflexivity | exact Hr' | | | ].
        -- constructor.
           ++ exists e. split_and!; [left | assumption | reflexivity | assumption].
           ++ eapply Forall_impl; [exact Hadd |]. intros i (e' & ? & ? & ? & Hn).
              exists e'. split_and!; [by right | assumption | assumption |].
              intros Hc'. apply Hn. by apply covered_app_l.
        -- constructor; [| exact Hnd].
           rewrite list_elem_of_fmap. intros (i & Hfi & Hi).
           rewrite Forall_forall in Hadd. destruct (Hadd i Hi) as (e' & _ & _ & -> & Hn).
           apply Hn. rewrite mk_key in Hfi. rewrite mk_key in Hfi.
           injection Hfi as <-. apply covered_mk.
        -- intros e' [-> | Hin]%elem_of_cons Hs; [| by apply Hcov].
           change (tbl_indexes t ++ mk e :: added) with (tbl_indexes t ++ [mk e] ++ added).
           rewrite app_assoc. apply covered_app_l, covered_mk.
Qed.

(** On a table where every field that is not skipped is covered, the loop
    changes nothing. *)
Lemma sync_loop_covered fields t :
  readable kind f (tbl_indexes t) ->
  (forall e, e ∈ fields -> skipped e = false -> covered kind f (tbl_indexes t) (key e)) ->
  for_result fields t step = ok t.
Proof.
  intros Hr. induction fields as [| e fields IH]; intros Hcov; simpl; [reflexivity |].
  rewrite step_eq. destruct (skipped e) eqn:Hskip; simpl.
  - apply IH. intros e' Hin. apply Hcov. by right.
  - destruct (ensure_index_spec kind f (key e) (mk e) t Hr) as [[_ ->] | [Hn _]]; simpl.
    + apply IH. intros e' Hin. apply Hcov. by right.
    + exfalso. apply Hn, Hcov; [left | assumption].
Qed.

End Synchroniser.


Lemma vector_step_eq t e :
  vector_index_step t e
  = if skipped e then ok t
    else ensure_index "vector" first_expression_text (vector_key e) (vector_index_of e) t.
Proof. destruct e as [column field]. reflexivity. Qed.

Lemma vector_index_kind name column metric alg :
  get_index_type (VectorIndex name column metric alg) = ok "vector".
Proof. unfold get_index_type, VectorIndex. simpl. by rewrite lookup_insert_eq. Qed.

Lemma fulltext_step_eq t e :
  fulltext_index_step t e
  = if skipped e then ok t
    else ensure_index "fulltext" first_column_name e.1 (fulltext_index_of e) t.
Proof. destruct e as [column field]. reflexivity. Qed.

Lemma fulltext_index_kind name column parser :
  get_index_type (FullTextIndex name column parser) = ok "fulltext".
Proof. unfold get_index_type, FullTextIndex. simpl. by rewrite lookup_insert_eq. Qed.

Lemma readable_other_kind kind kind' f indexes :
  Forall (fun i => get_index_type i = ok kind') indexes -> kind' <> kind ->
  readable kind f indexes.
Proof.
  unfold readable. intros H Hne. eapply Forall_impl; [exact H |].
  intros i Hi. rewrite Hi. split; [reflexivity |].
  intros [= Hk]. contradiction.
Qed.

(** C5. Index synchronisation on a table whose indexes all have a type
    (each was built with a [mysql_prefix]), whose vector-kind indexes start
    with a text expression and whose fulltext-kind indexes have a column:
    both passes return; every index they append belongs to a field without
    a skip-index flag, has the name and the kind of that field, and was
    not covered before (no vector-kind index had the distance expression of
    the column and metric, no fulltext-kind index had the column); no two
    appended indexes share a key; and run again on the table they produced,
    both passes append nothing. *)
Theorem index_synchronisation_idempotent
    (vector_fields text_fields : list (string * FieldInfo)) (t : SaTable) :
  readable "vector" first_expression_text (tbl_indexes t) ->
  readable "fulltext" first_column_name (tbl_indexes t) ->
  exists added_v added_f,
    let t1 := add_indexes t added_v in
    let t2 := add_indexes t1 added_f in
    _auto_create_vector_index vector_fields t = ok t1 /\
    _auto_create_fulltext_index text_fields t1 = ok t2 /\
    Forall (fun i => exists column field,
              (column, field) ∈ vector_fields /\
              default false (skip_index field) = false /\
              let metric := default "COSINE" (distance_metric field) in
              i = VectorIndex ("vec_idx_" +:+ column +:+ "_" +:+ lower metric) column metric
                    (default "HNSW" (algorithm field)) /\
              ~ covered "vector" first_expression_text (tbl_indexes t)
                  (format_distance_expression column metric)) added_v /\
    Forall (fun i => exists column field,
              (column, field) ∈ text_fields /\
              default false (skip_index field) = false /\
              i = FullTextIndex ("fts_idx_" +:+ column) column
                    (default "MULTILINGUAL" (fts_parser field)) /\
              ~ covered "fulltext" first_column_name (tbl_indexes t) column) added_f /\
    NoDup (map first_expression_text added_v) /\
    NoDup (map first_column_name added_f) /\
    _auto_create_vector_index vector_fields t2 = ok t2 /\
    _auto_create_fulltext_index text_fields t2 = ok t2.
Proof.
  intros Hrv Hrf.
  destruct (sync_loop "vector" first_expression_text vector_key vector_index_of
              vector_index_step vector_step_eq
              (fun e => vector_index_kind _ _ _ _) (fun e => eq_refl)
              vector_fields t Hrv)
    as (added_v & Hrun_v & Hrv' & Hadd_v & Hnd_v & Hcov_v).
  assert (Hkind_v : Forall (fun i => get_index_type i = ok "vector") added_v).
  { eapply Forall_impl; [exact Hadd_v |]. intros i (e & _ & _ & -> & _).
    apply vector_index_kind. }
  assert (Hrf1 : readable "fulltext" first_column_name (tbl_indexes (add_indexes t added_v))).
  { simpl. apply Forall_app. split; [exact Hrf |].
    by apply (readable_other_kind _ "vector"). }
  destruct (sync_loop "fulltext" first_column_name fst fulltext_index_of
              fulltext_index_step fulltext_step_eq
              (fun e => fulltext_index_kind _ _ _) (fun e => eq_refl)
              text_fields _ Hrf1)
    as (added_f & Hrun_f & Hrf' & Hadd_f & Hnd_f & Hcov_f).
  assert (Hkind_f : Forall (fun i => get_index_type i = ok "fulltext") added_f).
  { eapply Forall_impl; [exact Hadd_f |]. intros i (e & _ & _ & -> & _).
    apply fulltext_index_kind. }
  exists added_v, added_f. simpl.
  split_and!; try assumption.
  - eapply Forall_impl; [exact Hadd_v |].
    intros i ([column field] & Hin & Hs & -> & Hn). exists column, field.
    split_and!; [assumption | assumption | reflexivity | assumption].
  - eapply Forall_impl; [exact Hadd_f |].
    intros i ([column field] & Hin & Hs & -> & Hn). exists column, field.
    split_and!; [assumption | assumption | reflexivity |].
    intros Hc. apply Hn. simpl. by apply covered_app_l.
  - apply (sync_loop_covered "vector" first_expression_text vector_key vector_index_of
             vector_index_step vector_step_eq).
    + simpl. apply Forall_app. split; [exact Hrv' |].
      by apply (readable_other_kind _ "fulltext").
    + intros e Hin Hs. simpl. apply covered_app_l. by apply Hcov_v.
  - apply (sync_loop_covered "fulltext" first_column_name fst fulltext_index_of
             fulltext_index_step fulltext_step_eq).
    + exact Hrf'.
    + intros e Hin Hs. by apply Hcov_f.
Qed.


(** ** Construction *)

Definition no_type_error {A} (r : result A) : Prop :=
  forall msg, r <> raise (TypeError msg).

Lemma ok_no_type_error {A} (a : A) : no_type_error (ok a).
Proof. intros msg. discriminate. Qed.

Lemma rbind_no_type_error {A B} (r : result A) (k : A -> result B) :
  no_type_error r -> (forall a, no_type_error (k a)) -> no_type_error (rbind r k).
Proof.
  intros Hr Hk msg. destruct r as [e | a]; simpl.
  - intros [= ->]. by apply (Hr msg).
  - apply Hk.
Qed.

Lemma comprehend_no_type_error kind f indexes :
  (forall i, no_type_error (f i)) -> no_type_error (comprehend kind f indexes).
Proof.
  intros Hf. induction indexes as [| i rest IH]; simpl.
  - apply ok_no_type_error.
  - apply rbind_no_type_error.
    { intros msg. unfold get_index_type. destruct (dialect_kwargs i !! _); discriminate. }
    intros index_type. case_bool_decide; [| exact IH].
    apply rbind_no_type_error; [apply Hf |]. intros x.
    apply rbind_no_type_error; [exact IH |]. intros xs. apply ok_no_type_error.
Qed.

Lemma for_result_no_type_error {A S} (body : S -> A -> result S) l : forall s,
  (forall s x, no_type_error (body s x)) -> no_type_error (for_result l s body).
Proof.
  induction l as [| x l IH]; intros s Hb; simpl.
  - apply ok_no_type_error.
  - apply rbind_no_type_error; [apply Hb |]. intros s'. by apply IH.
Qed.

Lemma ensure_index_no_type_error kind f key index t :
  (forall i, no_type_error (f i)) -> no_type_error (ensure_index kind f key index t).
Proof.
  intros Hf. unfold ensure_index.
  apply rbind_no_type_error; [by apply comprehend_no_type_error |].
  intros keys. case_bool_decide; apply ok_no_type_error.
Qed.

Lemma first_expression_text_no_type_error i : no_type_error (first_expression_text i).
Proof.
  unfold first_expression_text. intros msg.
  destruct (idx_expressions i) as [| [name | text] rest]; discriminate.
Qed.

Lemma first_column_name_no_type_error i : no_type_error (first_column_name i).
Proof.
  unfold first_column_name. intros msg. destruct (idx_columns i); discriminate.
Qed.

Lemma auto_create_vector_index_no_type_error fields t :
  no_type_error (_auto_create_vector_index fields t).
Proof.
  apply for_result_no_type_error. intros s e. rewrite vector_step_eq.
  destruct (skipped e); [apply ok_no_type_error |].
  apply ensure_index_no_type_error, first_expression_text_no_type_error.
Qed.

Lemma auto_create_fulltext_index_no_type_error fields t :
  no_type_error (_auto_create_fulltext_index fields t).
Proof.
  apply for_result_no_type_error. intros s e. rewrite fulltext_step_eq.
  destruct (skipped e); [apply ok_no_type_error |].
  apply ensure_index_no_type_error, first_column_name_no_type_error.
Qed.

Lemma check_vector_column_no_type_error columns name :
  no_type_error (check_vector_column columns name).
Proof.
  intros msg. unfold check_vector_column, columns_getitem.
  destruct (columns_contains columns name); simpl; [| discriminate].
  destruct (columns_get columns name); simpl; discriminate.
Qed.

Lemma check_text_column_no_type_error columns name :
  no_type_error (check_text_column columns name).
Proof.
  intros msg. unfold check_text_column, columns_getitem.
  destruct (columns_contains columns name); simpl; [| discriminate].
  destruct (columns_get columns name); simpl; [| discriminate].
  destruct (negb _ && negb _); discriminate.
Qed.

(** A method body that raises no type error, whatever the world. *)
Definition raises_no_type_error {A} (m : M A) : Prop :=
  forall w, no_type_error (m w).1.

Lemma bind_raises_no_type_error {A B} (m : M A) (k : A -> M B) :
  raises_no_type_error m -> (forall a, raises_no_type_error (k a)) ->
  raises_no_type_error (bind m k).
Proof.
  intros Hm Hk w msg. unfold bind. specialize (Hm w).
  destruct (m w) as [[e | a] w']; simpl in *.
  - intros [= ->]. by apply (Hm msg).
  - apply Hk.
Qed.

Lemma ret_raises_no_type_error {A} (a : A) : raises_no_type_error (ret a).
Proof. intros w msg. discriminate. Qed.

Lemma lift_raises_no_type_error {A} (r : result A) :
  no_type_error r -> raises_no_type_error (lift r).
Proof. intros Hr w. exact Hr. Qed.

Lemma create_all_raises_no_type_error t checkfirst :
  raises_no_type_error (create_all t checkfirst).
Proof.
  intros w msg. unfold create_all, bind, history, emit, throw, ret. simpl.
  destruct (negb checkfirst && _); discriminate.
Qed.

(** C2. Construction on a schema whose type is none of the three schema
    metaclasses raises the schema type error and leaves the world as it
    was: no event reached the database. On a schema of one of the three,
    construction raises no type error, whatever else happens. *)
Theorem Table_init_schema_type (schema : Schema) (vector_column text_column : option string)
    (exist_ok : bool) (w : World) :
  (schema_type schema ∉ [TableModelMeta; SQLModelMetaclass; DeclarativeMeta] ->
   Table_init schema vector_column text_column exist_ok w
   = (raise (TypeError ("Invalid schema type: " +:+ repr_type (schema_type schema))), w)) /\
  (schema_type schema ∈ [TableModelMeta; SQLModelMetaclass; DeclarativeMeta] ->
   no_type_error (Table_init schema vector_column text_column exist_ok w).1).
Proof.
  split.
  - intros Hnot. unfold Table_init.
    destruct (schema_type schema); try reflexivity;
      exfalso; apply Hnot; repeat constructor.
  - intros Hin. unfold Table_init.
    assert (Hrec : recognized (schema_type schema) = true).
    { destruct (schema_type schema); try reflexivity.
      repeat (apply elem_of_cons in Hin as [Hin | Hin]; [discriminate |]).
      by apply elem_of_nil in Hin. }
    rewrite Hrec. cbn [negb]. clear Hin Hrec. revert w.
    apply (bind_raises_no_type_error _ _).
    { destruct (pydantic_fields schema) as [fields |]; [| apply ret_raises_no_type_error].
      destruct (classify_fields fields) as [vector_fields text_fields].
      apply bind_raises_no_type_error;
        [apply lift_raises_no_type_error, auto_create_vector_index_no_type_error |].
      intros t1. apply bind_raises_no_type_error;
        [apply lift_raises_no_type_error, auto_create_fulltext_index_no_type_error |].
      intros t2. apply ret_raises_no_type_error. }
    intros [configs sa_table].
    apply bind_raises_no_type_error; [apply create_all_raises_no_type_error |].
    intros _. apply bind_raises_no_type_error.
    { destruct vector_column as [name |]; [| apply ret_raises_no_type_error].
      apply bind_raises_no_type_error;
        [apply lift_raises_no_type_error, check_vector_column_no_type_error |].
      intros c. apply ret_raises_no_type_error. }
    intros vc. apply bind_raises_no_type_error.
    { destruct text_column as [name |]; [| apply ret_raises_no_type_error].
      apply bind_raises_no_type_error;
        [apply lift_raises_no_type_error, check_text_column_no_type_error |].
      intros c. apply ret_raises_no_type_error. }
    intros tc. apply ret_raises_no_type_error.
Qed.


(** ** Running method bodies *)

Lemma for_each_app {A} (l1 l2 : list A) (body : A -> M unit) w :
  for_each (l1 ++ l2) body w = (for_each l1 body ;;; for_each l2 body) w.
Proof.
  revert w. induction l1 as [| x l1 IH]; intros w; simpl.
  - reflexivity.
  - unfold bind in *. destruct (body x w) as [[e | []] w']; [reflexivity |].
    apply IH.
Qed.

Lemma for_fold_app {A S} (l1 l2 : list A) (body : A -> S -> M S) : forall s w,
  for_fold (l1 ++ l2) s body w = (s' <-- for_fold l1 s body ;; for_fold l2 s' body) w.
Proof.
  induction l1 as [| x l1 IH]; intros s w; simpl.
  - reflexivity.
  - unfold bind in *. destruct (body x s w) as [[e | s1] w']; [reflexivity |].
    apply IH.
Qed.

Lemma bind_run {A B} (m : M A) (k : A -> M B) w a w' :
  m w = (inr a, w') -> bind m k w = k a w'.
Proof. intros H. unfold bind. by rewrite H. Qed.

Lemma obj_store_attr_eq h item name v :
  obj (store_attr h item name v) item = <[name := v]> (obj h item).
Proof. unfold obj at 1, store_attr. by rewrite lookup_insert_eq. Qed.

Lemma obj_store_attr_ne h item item' name v :
  item <> item' -> obj (store_attr h item name v) item' = obj h item'.
Proof. intros Hne. unfold obj, store_attr. by rewrite lookup_insert_ne. Qed.

Lemma notin_keys_cons {V} (name k : string) (c : V) (d : list (string * V)) :
  name ∉ dict_keys ((k, c) :: d) <-> name <> k /\ name ∉ dict_keys d.
Proof. unfold dict_keys. simpl. apply not_elem_of_cons. Qed.

(** ** [insert] *)

(** One round of the loop of [insert], by cases on the record. *)
Lemma insert_embed_step_run data V cfg w :
  insert_embed_step data (V, cfg) w =
  match obj (heap w) data !! V with
  | None => (raise (AttributeError V), w)
  | Some v =>
      if negb (is_none v) then (ok tt, w)
      else
        match obj (heap w) data !! cfg_source_field_name cfg with
        | None => (ok tt, w)
        | Some s =>
            match cfg_embed_fn cfg with
            | None => (raise (AttributeError "'NoneType' object has no attribute 'get_source_embedding'"), w)
            | Some fn =>
                (ok tt, {| heap := store_attr (heap w) data V (get_source_embedding fn s);
                           trace := trace w ++ [EvEmbed V s] |})
            end
        end
  end.
Proof.
  unfold insert_embed_step, bind, getattr, hasattr, call_get_source_embedding, setattr,
    emit, ret, throw.
  destruct (obj (heap w) data !! V) as [v |]; [| reflexivity].
  destruct (negb (is_none v)); [reflexivity |].
  destruct (obj (heap w) data !! cfg_source_field_name cfg) as [s |] eqn:Hs; simpl.
  - rewrite Hs. destruct (cfg_embed_fn cfg); reflexivity.
  - reflexivity.
Qed.

(** The records the loop can run on: every configuration has an embedding
    function and its vector field is an attribute of the record. *)
Definition embeddable (configs : list (string * EmbeddingConfig)) (r : record) : Prop :=
  Forall (fun e => is_Some (cfg_embed_fn e.2) /\ is_Some (r !! e.1)) configs.

(** The loop of [insert] returns; it keeps the attributes of the record,
    every value that is not null, and every field no configuration is for;
    it touches no other object; it only adds embedding calls to the trace. *)
Lemma insert_auto_embedding_frame configs data : forall w,
  embeddable configs (obj (heap w) data) ->
  exists w',
    insert_auto_embedding configs data w = (ok tt, w') /\
    (forall name, is_Some (obj (heap w') data !! name) <-> is_Some (obj (heap w) data !! name)) /\
    (forall name v, obj (heap w) data !! name = Some v -> v <> VNone ->
                    obj (heap w') data !! name = Some v) /\
    (forall name, name ∉ dict_keys configs ->
                  obj (heap w') data !! name = obj (heap w) data !! name) /\
    (forall item, item <> data -> obj (heap w') item = obj (heap w) item).
Proof.
  unfold insert_auto_embedding.
  induction configs as [| [V cfg] configs IH]; intros w Hwf; cbn [for_each].
  - exists w. split_and!; [reflexivity | reflexivity | auto | auto | auto].
  - apply Forall_cons in Hwf as [[[fn Hfn] [v Hv]] Hwf]. simpl in Hfn, Hv.
    unfold bind. rewrite insert_embed_step_run, Hv, Hfn.
    destruct (negb (is_none v)) eqn:Hnull.
    { destruct (IH w Hwf) as (w' & -> & Hdom & Hkeep & Hframe & Hother).
      exists w'. split_and!; try done.
      intros name Hn. apply Hframe. by apply notin_keys_cons in Hn as [_ ?]. }
    destruct v; try discriminate. clear Hnull.
    destruct (obj (heap w) data !! cfg_source_field_name cfg) as [s |] eqn:Hs.
    2:{ destruct (IH w Hwf) as (w' & -> & Hdom & Hkeep & Hframe & Hother).
        exists w'. split_and!; try done.
        intros name Hn. apply Hframe. by apply notin_keys_cons in Hn as [_ ?]. }
    set (w1 := {| heap := store_attr (heap w) data V (get_source_embedding fn s);
                  trace := trace w ++ [EvEmbed V s] |}).
    assert (Hobj1 : obj (heap w1) data = <[V := get_source_embedding fn s]> (obj (heap w) data))
      by apply obj_store_attr_eq.
    assert (Hwf1 : embeddable configs (obj (heap w1) data)).
    { rewrite Hobj1. eapply Forall_impl; [exact Hwf |]. intros e [He1 He2].
      split; [exact He1 |]. rewrite lookup_insert_is_Some. destruct (decide (V = e.1)); auto. }
    destruct (IH w1 Hwf1) as (w' & -> & Hdom & Hkeep & Hframe & Hother).
    exists w'. split_and!; [reflexivity | | | | ].
    + intros name. rewrite Hdom, Hobj1, lookup_insert_is_Some.
      split; [intros [<- | [_ ?]]; eauto | intros ?; destruct (decide (V = name)); auto].
    + intros name v' Hv' Hnn. apply Hkeep; [| exact Hnn].
      rewrite Hobj1. rewrite lookup_insert_ne; [exact Hv' |]. intros <-. congruence.
    + intros name Hn. apply notin_keys_cons in Hn as [Hne Hn].
      rewrite Hframe by exact Hn. rewrite Hobj1. by apply lookup_insert_ne.
    + intros item Hne. rewrite Hother by exact Hne. by apply obj_store_attr_ne.
Qed.


Lemma insert_persist_run data w :
  insert_persist data w =
  (ok data,
   {| heap := <[data := eng_refresh engine (trace w ++ [EvAdd [obj (heap w) data]; EvFlush])
                          (obj (heap w) data)]> (heap w);
      trace := trace w ++ [EvAdd [obj (heap w) data]; EvFlush; EvRefresh data] |}).
Proof.
  unfold insert_persist, bind, session_add_all, session_flush, session_refresh, emit, ret.
  simpl. rewrite <- !app_assoc. reflexivity.
Qed.

Lemma embeddable_app configs1 configs2 r :
  embeddable (configs1 ++ configs2) r <-> embeddable configs1 r /\ embeddable configs2 r.
Proof. apply Forall_app. Qed.

Lemma embeddable_dom configs (r r' : record) :
  (forall name, is_Some (r' !! name) <-> is_Some (r !! name)) ->
  embeddable configs r -> embeddable configs r'.
Proof.
  intros Hdom H. eapply Forall_impl; [exact H |].
  intros e [? ?]. split; [assumption | by apply Hdom].
Qed.

(** C1. [insert] on a record that has the vector fields of the
    configurations as attributes, for the configuration of field [V] with
    source [S]: the call returns the record after adding it to the session
    as the embedding loop left it; a [V] that is not null is left as it
    was, whatever [S]; a null [V] with [S] present becomes
    [get_source_embedding] of the value [S] holds when the configuration is
    reached, which is the value the caller gave unless [S] is itself the
    vector field of an earlier configuration; a null [V] without [S] stays
    null. *)
Theorem insert_fills_missing_vector (t : Table) (configs pre post : list (string * EmbeddingConfig))
    (V : string) (cfg : EmbeddingConfig) (fn : EmbedFn) (data : loc) (w : World) :
  _auto_embedding_configs t = Some configs ->
  configs = pre ++ (V, cfg) :: post ->
  NoDup (dict_keys configs) ->
  cfg_embed_fn cfg = Some fn ->
  embeddable configs (obj (heap w) data) ->
  exists w1 w2 w3,
    insert_auto_embedding pre data w = (ok tt, w1) /\
    insert_auto_embedding configs data w = (ok tt, w2) /\
    Table_insert t data w = (ok data, w3) /\
    trace w3 = trace w2 ++ [EvAdd [obj (heap w2) data]; EvFlush; EvRefresh data] /\
    let S := cfg_source_field_name cfg in
    let r := obj (heap w) data in
    let r1 := obj (heap w1) data in
    let r2 := obj (heap w2) data in
    (forall v, r !! V = Some v -> v <> VNone -> r2 !! V = Some v) /\
    (r !! V = Some VNone -> is_Some (r !! S) ->
     exists s, r1 !! S = Some s /\
               (S ∉ dict_keys pre -> r !! S = Some s) /\
               r2 !! V = Some (get_source_embedding fn s)) /\
    (r !! V = Some VNone -> r !! S = None -> r2 !! V = Some VNone).
Proof.
  intros Hcfgs -> Hnd Hfn Hwf.
  apply embeddable_app in Hwf as [Hwf_pre Hwf_rest].
  apply Forall_cons in Hwf_rest as [[_ HVattr] Hwf_post]. simpl in HVattr.
  unfold dict_keys in Hnd. rewrite map_app in Hnd. simpl in Hnd.
  apply NoDup_app in Hnd as (_ & Hpre_rest & Hnd).
  apply NoDup_cons in Hnd as [HV_post _].
  assert (HV_pre : V ∉ dict_keys pre) by (intros Hin; apply (Hpre_rest V Hin); left).
  destruct (insert_auto_embedding_frame pre data w Hwf_pre)
    as (w1 & Hrun1 & Hdom1 & Hkeep1 & Hframe1 & _).
  (* the round for V *)
  assert (Hstep : exists wV,
    insert_embed_step data (V, cfg) w1 = (ok tt, wV) /\
    (forall name, is_Some (obj (heap wV) data !! name) <-> is_Some (obj (heap w1) data !! name)) /\
    (forall v, obj (heap w1) data !! V = Some v -> v <> VNone -> obj (heap wV) data !! V = Some v) /\
    (obj (heap w1) data !! V = Some VNone ->
     forall s, obj (heap w1) data !! cfg_source_field_name cfg = Some s ->
               obj (heap wV) data !! V = Some (get_source_embedding fn s)) /\
    (obj (heap w1) data !! V = Some VNone ->
     obj (heap w1) data !! cfg_source_field_name cfg = None ->
     obj (heap wV) data !! V = Some VNone) /\
    (is_Some (obj (heap w1) data !! V) -> is_Some (obj (heap wV) data !! V))).
  { rewrite insert_embed_step_run, Hfn.
    destruct (obj (heap w1) data !! V) as [v |] eqn:Hv.
    2:{ exfalso. specialize (Hframe1 V HV_pre). rewrite Hv in Hframe1.
        destruct HVattr as [? Hs]. congruence. }
    destruct (negb (is_none v)) eqn:Hnull.
    { exists w1. split_and!.
      - reflexivity.
      - reflexivity.
      - intros v0 [= <-] _. exact Hv.
      - intros [= ->]. discriminate Hnull.
      - intros [= ->]. discriminate Hnull.
      - intros _. rewrite Hv. eauto. }
    destruct v; try discriminate.
    destruct (obj (heap w1) data !! cfg_source_field_name cfg) as [s |] eqn:Hs.
    2:{ exists w1. split_and!.
        - reflexivity.
        - reflexivity.
        - intros v0 [= <-] Hn. congruence.
        - intros _ s' [=].
        - intros _ _. exact Hv.
        - intros _. rewrite Hv. eauto. }
    eexists. split; [reflexivity |]. cbn [heap]. rewrite obj_store_attr_eq.
    split_and!.
    - intros name. rewrite lookup_insert_is_Some.
      split.
      + intros [<- | [_ ?]]; [rewrite Hv; eauto | assumption].
      + intros ?. destruct (decide (V = name)); auto.
    - intros v [= <-] Hn. congruence.
    - intros _ s' [= <-]. apply lookup_insert_eq.
    - intros _ [=].
    - intros _. rewrite lookup_insert_eq. eauto. }
  destruct Hstep as (wV & HrunV & HdomV & HkeepV & HsetV & HnoneV & _).
  assert (Hwf_postV : embeddable post (obj (heap wV) data)).
  { eapply embeddable_dom; [| exact Hwf_post]. intros name. by rewrite HdomV, Hdom1. }
  destruct (insert_auto_embedding_frame post data wV Hwf_postV)
    as (w2 & Hrun2 & Hdom2 & Hkeep2 & Hframe2 & _).
  assert (Hrun : insert_auto_embedding (pre ++ (V, cfg) :: post) data w = (ok tt, w2)).
  { unfold insert_auto_embedding in *. rewrite for_each_app.
    rewrite (bind_run _ _ _ _ _ Hrun1). cbn [for_each].
    rewrite (bind_run _ _ _ _ _ HrunV). exact Hrun2. }
  eexists w1, w2, _. split; [exact Hrun1 |]. split; [exact Hrun |].
  split.
  { unfold Table_insert, table_configs. rewrite Hcfgs. unfold bind at 1. unfold ret at 1.
    rewrite (bind_run _ _ _ _ _ Hrun). apply insert_persist_run. }
  split; [reflexivity |].
  cbn zeta. rewrite (Hframe2 V HV_post).
  split_and!.
  - intros v Hv Hn. apply HkeepV; [| exact Hn]. by rewrite (Hframe1 V HV_pre).
  - intros Hv [s0 Hs0].
    assert (Hs1 : is_Some (obj (heap w1) data !! cfg_source_field_name cfg))
      by (apply Hdom1; eauto).
    destruct Hs1 as [s Hs]. exists s. split; [exact Hs |]. split.
    + intros Hn. by rewrite <- (Hframe1 _ Hn).
    + apply HsetV; [| exact Hs]. by rewrite (Hframe1 V HV_pre).
  - intros Hv Hs. apply HnoneV.
    + by rewrite (Hframe1 V HV_pre).
    + apply eq_None_not_Some. intros Hsome. apply Hdom1 in Hsome.
      rewrite Hs in Hsome. by destruct Hsome.
Qed.


(** ** [bulk_insert] *)

(** The condition under which the inner loop takes an item for field [V]:
    its [V] is null and its source field is an attribute. *)
Definition needs_embedding (h : gmap loc record) (V : string) (cfg : EmbeddingConfig)
    (item : loc) : bool :=
  bool_decide (obj h item !! V = Some VNone)
  && bool_decide (is_Some (obj h item !! cfg_source_field_name cfg)).

Definition source_of (h : gmap loc record) (cfg : EmbeddingConfig) (item : loc) : value :=
  default VNone (obj h item !! cfg_source_field_name cfg).

(** The store after the assignments of a zipped list, first to last. *)
Definition assign (V : string) (h : gmap loc record) (ps : list (loc * value))
  : gmap loc record :=
  foldl (fun h p => store_attr h p.1 V p.2) h ps.

(** The arguments of the batch calls made for field [V], in order. *)
Fixpoint batch_calls (V : string) (tr : list event) : list (list value) :=
  match tr with
  | [] => []
  | EvEmbedBatch field sources :: tr' =>
      if bool_decide (field = V) then sources :: batch_calls V tr' else batch_calls V tr'
  | _ :: tr' => batch_calls V tr'
  end.

Lemma batch_calls_app V tr1 tr2 :
  batch_calls V (tr1 ++ tr2) = batch_calls V tr1 ++ batch_calls V tr2.
Proof.
  induction tr1 as [| e tr1 IH]; simpl; [reflexivity |].
  destruct e; try exact IH. case_bool_decide; simpl; by rewrite IH.
Qed.

(** The sources of the single embedding calls made for field [V], in order. *)
Fixpoint embed_calls (V : string) (tr : list event) : list value :=
  match tr with
  | [] => []
  | EvEmbed field source :: tr' =>
      if bool_decide (field = V) then source :: embed_calls V tr' else embed_calls V tr'
  | _ :: tr' => embed_calls V tr'
  end.

Lemma embed_calls_app V tr1 tr2 :
  embed_calls V (tr1 ++ tr2) = embed_calls V tr1 ++ embed_calls V tr2.
Proof.
  induction tr1 as [| e tr1 IH]; simpl; [reflexivity |].
  destruct e; try exact IH. case_bool_decide; simpl; by rewrite IH.
Qed.

Lemma world_eta w : {| heap := heap w; trace := trace w |} = w.
Proof. by destruct w. Qed.

Lemma collect_run V cfg data : forall acc w,
  Forall (fun item => is_Some (obj (heap w) item !! V)) data ->
  for_fold data acc (collect_step V cfg) w
  = (ok (acc.1 ++ List.filter (needs_embedding (heap w) V cfg) data,
         acc.2 ++ map (source_of (heap w) cfg)
                    (List.filter (needs_embedding (heap w) V cfg) data)), w).
Proof.
  induction data as [| item data IH]; intros [items sources] w Hattr; cbn [for_fold].
  - simpl. by rewrite !app_nil_r.
  - apply Forall_cons in Hattr as [[v Hv] Hattr].
    assert (Hneed : needs_embedding (heap w) V cfg item
                    = is_none v
                      && bool_decide (is_Some (obj (heap w) item !! cfg_source_field_name cfg))).
    { unfold needs_embedding. rewrite Hv.
      destruct v; cbn [is_none];
        [by rewrite bool_decide_eq_true_2 | by rewrite bool_decide_eq_false_2 ..]. }
    cbn [List.filter]. rewrite Hneed. clear Hneed.
    unfold bind at 1. unfold collect_step at 1.
    unfold bind, getattr, hasattr, ret. rewrite Hv.
    destruct (is_none v); cbn [negb andb]; [| by rewrite IH].
    destruct (obj (heap w) item !! cfg_source_field_name cfg) as [s |] eqn:Hs.
    + rewrite bool_decide_eq_true_2 by eauto. cbn [negb]. rewrite ?Hs.
      rewrite IH by exact Hattr. cbn [fst snd map].
      unfold source_of at 2. rewrite Hs. cbn [default].
      by rewrite <- !app_assoc.
    + rewrite bool_decide_eq_false_2 by (intros [? ?]; discriminate). cbn [negb].
      by rewrite IH.
Qed.

Lemma assign_embeddings_run V items embeddings w :
  assign_embeddings V items embeddings w
  = (ok tt, {| heap := assign V (heap w) (zip items embeddings); trace := trace w |}).
Proof.
  unfold assign_embeddings, assign.
  generalize (zip items embeddings) as ps. intros ps. revert w.
  induction ps as [| p ps IH]; intros w; cbn [for_each foldl].
  - unfold ret. by rewrite world_eta.
  - unfold bind, setattr. rewrite IH. reflexivity.
Qed.

(** One round of the outer loop of [bulk_insert]. *)
Lemma bulk_embed_step_run data V cfg w :
  Forall (fun item => is_Some (obj (heap w) item !! V)) data ->
  bulk_embed_step data (V, cfg) w =
  match cfg_embed_fn cfg with
  | None => (ok tt, w)
  | Some fn =>
      let items := List.filter (needs_embedding (heap w) V cfg) data in
      let sources := map (source_of (heap w) cfg) items in
      (ok tt, {| heap := assign V (heap w) (zip items (get_source_embeddings fn sources));
                 trace := trace w ++ [EvEmbedBatch V sources] |})
  end.
Proof.
  intros Hattr. unfold bulk_embed_step.
  destruct (cfg_embed_fn cfg) as [fn |]; [| reflexivity].
  unfold bind at 1. rewrite (collect_run V cfg data ([], []) w Hattr). cbn [fst snd app].
  unfold bind, emit, ok. cbv beta iota zeta. rewrite assign_embeddings_run. reflexivity.
Qed.


Lemma obj_store_attr_lookup h item V v item' name :
  obj (store_attr h item V v) item' !! name
  = if bool_decide (item = item' /\ V = name) then Some v else obj h item' !! name.
Proof.
  destruct (decide (item = item')) as [<- | Hne].
  - rewrite obj_store_attr_eq. destruct (decide (V = name)) as [<- | Hn].
    + rewrite bool_decide_eq_true_2 by done. apply lookup_insert_eq.
    + rewrite bool_decide_eq_false_2 by (intros [_ ?]; done). by apply lookup_insert_ne.
  - rewrite obj_store_attr_ne by done.
    by rewrite bool_decide_eq_false_2 by (intros [? _]; done).
Qed.

Lemma obj_assign_other V ps : forall h item,
  item ∉ ps.*1 -> obj (assign V h ps) item = obj h item.
Proof.
  unfold assign. induction ps as [| [l e] ps IH]; intros h item Hn; cbn [foldl]; [done |].
  cbn [fmap list_fmap fst] in Hn. apply not_elem_of_cons in Hn as [Hne Hn].
  rewrite IH by exact Hn. cbn [fst snd]. by apply obj_store_attr_ne.
Qed.

Lemma obj_assign_name V ps : forall h item name,
  name <> V -> obj (assign V h ps) item !! name = obj h item !! name.
Proof.
  unfold assign. induction ps as [| [l e] ps IH]; intros h item name Hn; cbn [foldl]; [done |].
  rewrite IH by exact Hn. cbn [fst snd]. rewrite obj_store_attr_lookup.
  by rewrite bool_decide_eq_false_2 by (intros [_ ?]; done).
Qed.

Lemma assign_attributes V ps : forall h,
  Forall (fun p => is_Some (obj h p.1 !! V)) ps ->
  forall item name, is_Some (obj (assign V h ps) item !! name) <-> is_Some (obj h item !! name).
Proof.
  unfold assign. induction ps as [| [l e] ps IH]; intros h Hattr item name; cbn [foldl]; [done |].
  apply Forall_cons in Hattr as [Hl Hattr]. cbn [fst snd] in *.
  assert (Hstep : forall item' name',
    is_Some (obj (store_attr h l V e) item' !! name') <-> is_Some (obj h item' !! name')).
  { intros item' name'. rewrite obj_store_attr_lookup. case_bool_decide as Hc; [| done].
    destruct Hc as [<- <-]. split; [done | eauto]. }
  rewrite IH.
  - apply Hstep.
  - eapply Forall_impl; [exact Hattr |]. intros p Hp. by apply Hstep.
Qed.

Lemma assign_lookup V ps : forall h i item e,
  NoDup ps.*1 -> ps !! i = Some (item, e) -> obj (assign V h ps) item !! V = Some e.
Proof.
  unfold assign. induction ps as [| [l e0] ps IH]; intros h i item e Hnd Hi; [done |].
  cbn [fmap list_fmap fst] in Hnd. apply NoDup_cons in Hnd as [Hl Hnd].
  cbn [foldl fst snd]. destruct i as [| i]; simpl in Hi.
  - injection Hi as -> ->.
    change (foldl _ ?h0 ps) with (assign V h0 ps).
    rewrite obj_assign_other by exact Hl. rewrite obj_store_attr_eq. apply lookup_insert_eq.
  - by apply (IH _ i).
Qed.

Lemma Forall_zip_fst {A B} (P : A -> Prop) (l : list A) (k : list B) :
  Forall P l -> Forall (fun p => P p.1) (zip l k).
Proof.
  intros H. revert k. induction H as [| x l Hx _ IH]; intros [| y k]; simpl; constructor; auto.
Qed.

Lemma filter_needs_attr h V cfg data :
  Forall (fun item => is_Some (obj h item !! V)) (List.filter (needs_embedding h V cfg) data).
Proof.
  apply List.Forall_forall. intros item [_ Hneed]%filter_In.
  unfold needs_embedding in Hneed. apply andb_true_iff in Hneed as [Hv _].
  apply bool_decide_eq_true in Hv. rewrite Hv. eauto.
Qed.

(** The lists of records the outer loop can run on: the vector field of
    every configuration is an attribute of every record. *)
Definition bulk_embeddable (configs : list (string * EmbeddingConfig))
    (h : gmap loc record) (data : list loc) : Prop :=
  Forall (fun e => Forall (fun item => is_Some (obj h item !! e.1)) data) configs.

Lemma bulk_embeddable_attributes configs h h' data :
  (forall item name, is_Some (obj h' item !! name) <-> is_Some (obj h item !! name)) ->
  bulk_embeddable configs h data -> bulk_embeddable configs h' data.
Proof.
  intros Hdom H. eapply Forall_impl; [exact H |]. intros e He.
  eapply Forall_impl; [exact He |]. intros item Hi. by apply Hdom.
Qed.

(** The outer loop returns; it keeps the attributes of every record and
    the fields no configuration is for, and makes no batch call for a field
    no configuration is for. *)
Lemma bulk_auto_embedding_frame configs data : forall w,
  bulk_embeddable configs (heap w) data ->
  exists w',
    bulk_auto_embedding configs data w = (ok tt, w') /\
    (forall item name,
       is_Some (obj (heap w') item !! name) <-> is_Some (obj (heap w) item !! name)) /\
    (forall item name, name ∉ dict_keys configs ->
       obj (heap w') item !! name = obj (heap w) item !! name) /\
    (forall V, V ∉ dict_keys configs -> batch_calls V (trace w') = batch_calls V (trace w)) /\
    (forall V, embed_calls V (trace w') = embed_calls V (trace w)).
Proof.
  unfold bulk_auto_embedding.
  induction configs as [| [V cfg] configs IH]; intros w Hwf; cbn [for_each].
  - exists w. split_and!; [reflexivity | reflexivity | auto | auto | auto].
  - apply Forall_cons in Hwf as [HV Hwf]. cbn [fst] in HV.
    unfold bind. rewrite (bulk_embed_step_run data V cfg w HV).
    destruct (cfg_embed_fn cfg) as [fn |].
    + cbv zeta.
      set (items := List.filter (needs_embedding (heap w) V cfg) data).
      set (sources := map (source_of (heap w) cfg) items).
      set (w1 := {| heap := assign V (heap w) (zip items (get_source_embeddings fn sources));
                    trace := trace w ++ [EvEmbedBatch V sources] |}).
      assert (Hdom1 : forall item name,
        is_Some (obj (heap w1) item !! name) <-> is_Some (obj (heap w) item !! name)).
      { apply assign_attributes. apply (Forall_zip_fst (fun l => is_Some (obj (heap w) l !! V))).
        apply filter_needs_attr. }
      destruct (IH w1 (bulk_embeddable_attributes _ _ _ _ Hdom1 Hwf))
        as (w' & -> & Hdom & Hframe & Hcalls & Hsingle).
      exists w'. split_and!; [reflexivity | | | | ].
      * intros item name. by rewrite Hdom, Hdom1.
      * intros item name [Hne Hn]%notin_keys_cons.
        rewrite Hframe by exact Hn. by apply obj_assign_name.
      * intros V' [Hne Hn]%notin_keys_cons. rewrite Hcalls by exact Hn.
        cbn [trace w1]. rewrite batch_calls_app. cbn [batch_calls].
        rewrite bool_decide_eq_false_2 by congruence. by rewrite app_nil_r.
      * intros V'. rewrite Hsingle. cbn [trace w1]. rewrite embed_calls_app.
        cbn [embed_calls]. by rewrite app_nil_r.
    + destruct (IH w Hwf) as (w' & -> & Hdom & Hframe & Hcalls & Hsingle).
      exists w'. split_and!; [reflexivity | exact Hdom | | | exact Hsingle].
      * intros item name [_ Hn]%notin_keys_cons. by apply Hframe.
      * intros V' [_ Hn]%notin_keys_cons. by apply Hcalls.
Qed.

Lemma batch_calls_refresh V data : batch_calls V (map EvRefresh data) = [].
Proof. induction data as [| item data IH]; simpl; [reflexivity | exact IH]. Qed.

Lemma embed_calls_refresh V data : embed_calls V (map EvRefresh data) = [].
Proof. induction data as [| item data IH]; simpl; [reflexivity | exact IH]. Qed.

Lemma for_each_refresh_run data : forall w,
  exists w', for_each data session_refresh w = (ok tt, w') /\
             trace w' = trace w ++ map EvRefresh data.
Proof.
  induction data as [| item data IH]; intros w; cbn [for_each].
  - exists w. split; [reflexivity | by rewrite app_nil_r].
  - unfold bind, session_refresh at 1.
    edestruct IH as (w' & -> & Htr). exists w'. split; [reflexivity |].
    rewrite Htr. cbn [trace map]. by rewrite <- app_assoc.
Qed.

Lemma bulk_persist_run data w :
  exists w', bulk_persist data w = (ok data, w') /\
             trace w' = trace w ++ EvAdd (map (obj (heap w)) data)
                                 :: EvFlush :: map EvRefresh data.
Proof.
  unfold bulk_persist, bind, session_add_all, session_flush, emit.
  edestruct for_each_refresh_run as (w' & -> & Htr). exists w'.
  split; [reflexivity |]. rewrite Htr. cbn [trace]. by rewrite <- !app_assoc.
Qed.


Lemma NoDup_zip_fst {A B} (l : list A) (k : list B) : NoDup l -> NoDup (zip l k).*1.
Proof.
  intros H. revert k. induction H as [| x l Hx _ IH]; intros [| y k]; simpl;
    try constructor; [| apply IH].
  intros Hin. apply Hx. apply list_elem_of_fmap in Hin as ([x' y'] & -> & Hin).
  by apply elem_of_zip_l in Hin.
Qed.

(** C4. [bulk_insert] on records that have the vector fields of the
    configurations as attributes, for the configuration of field [V]: the
    call returns the list it was given; during the call exactly one batch
    call is made for [V], and no single-record call for any field; the
    argument of the batch call is the list of sources of the
    records whose [V] is null and whose source field is present when the
    configuration is reached, in the order of the input list; the
    embeddings it returns are assigned to those records pairwise, first to
    last; so when the collected records are distinct objects, the i-th of
    them holds the i-th embedding when the records are added to the
    session. *)
Theorem bulk_insert_batches_once (t : Table) (configs pre post : list (string * EmbeddingConfig))
    (V : string) (cfg : EmbeddingConfig) (fn : EmbedFn) (data : list loc) (w : World) :
  _auto_embedding_configs t = Some configs ->
  configs = pre ++ (V, cfg) :: post ->
  NoDup (dict_keys configs) ->
  cfg_embed_fn cfg = Some fn ->
  bulk_embeddable configs (heap w) data ->
  exists w1 w2 w3 w4,
    bulk_auto_embedding pre data w = (ok tt, w1) /\
    bulk_embed_step data (V, cfg) w1 = (ok tt, w2) /\
    bulk_auto_embedding configs data w = (ok tt, w3) /\
    Table_bulk_insert t data w = (ok data, w4) /\
    let items := List.filter (needs_embedding (heap w1) V cfg) data in
    let sources := map (source_of (heap w1) cfg) items in
    let embeddings := get_source_embeddings fn sources in
    trace w2 = trace w1 ++ [EvEmbedBatch V sources] /\
    heap w2 = assign V (heap w1) (zip items embeddings) /\
    batch_calls V (trace w4) = batch_calls V (trace w) ++ [sources] /\
    (forall field, embed_calls field (trace w4) = embed_calls field (trace w)) /\
    trace w4 = trace w3 ++ EvAdd (map (obj (heap w3)) data)
                        :: EvFlush :: map EvRefresh data /\
    (NoDup items ->
     forall i item e, items !! i = Some item -> embeddings !! i = Some e ->
                      obj (heap w3) item !! V = Some e).
Proof.
  intros Hcfgs -> Hnd Hfn Hwf.
  apply Forall_app in Hwf as [Hwf_pre Hwf_rest].
  apply Forall_cons in Hwf_rest as [HV Hwf_post]. cbn [fst] in HV.
  unfold dict_keys in Hnd. rewrite map_app in Hnd. simpl in Hnd.
  apply NoDup_app in Hnd as (_ & Hpre_rest & Hnd).
  apply NoDup_cons in Hnd as [HV_post _].
  assert (HV_pre : V ∉ dict_keys pre) by (intros Hin; apply (Hpre_rest V Hin); left).
  destruct (bulk_auto_embedding_frame pre data w Hwf_pre)
    as (w1 & Hrun1 & Hdom1 & _ & Hcalls1 & Hsingle1).
  assert (HV1 : Forall (fun item => is_Some (obj (heap w1) item !! V)) data).
  { eapply Forall_impl; [exact HV |]. intros item Hi. by apply Hdom1. }
  pose proof (bulk_embed_step_run data V cfg w1 HV1) as HrunV. rewrite Hfn in HrunV.
  cbv zeta in HrunV.
  set (items := List.filter (needs_embedding (heap w1) V cfg) data) in *.
  set (sources := map (source_of (heap w1) cfg) items) in *.
  set (embeddings := get_source_embeddings fn sources) in *.
  set (w2 := {| heap := assign V (heap w1) (zip items embeddings);
                trace := trace w1 ++ [EvEmbedBatch V sources] |}) in *.
  assert (Hdom2 : forall item name,
    is_Some (obj (heap w2) item !! name) <-> is_Some (obj (heap w1) item !! name)).
  { apply assign_attributes. apply (Forall_zip_fst (fun l => is_Some (obj (heap w1) l !! V))).
    apply filter_needs_attr. }
  assert (Hwf_post2 : bulk_embeddable post (heap w2) data).
  { eapply bulk_embeddable_attributes; [| exact Hwf_post].
    intros item name. by rewrite Hdom2, Hdom1. }
  destruct (bulk_auto_embedding_frame post data w2 Hwf_post2)
    as (w3 & Hrun3 & _ & Hframe3 & Hcalls3 & Hsingle3).
  assert (Hrun : bulk_auto_embedding (pre ++ (V, cfg) :: post) data w = (ok tt, w3)).
  { unfold bulk_auto_embedding in *. rewrite for_each_app.
    rewrite (bind_run _ _ _ _ _ Hrun1). cbn [for_each].
    rewrite (bind_run _ _ _ _ _ HrunV). exact Hrun3. }
  destruct (bulk_persist_run data w3) as (w4 & Hrun4 & Htr4).
  exists w1, w2, w3, w4.
  split; [exact Hrun1 |]. split; [exact HrunV |]. split; [exact Hrun |].
  split.
  { unfold Table_bulk_insert, table_configs. rewrite Hcfgs. unfold bind at 1. unfold ret at 1.
    rewrite (bind_run _ _ _ _ _ Hrun). exact Hrun4. }
  cbv zeta. fold items. fold sources. fold embeddings.
  split; [reflexivity |]. split; [reflexivity |].
  split.
  { rewrite Htr4, batch_calls_app. cbn [batch_calls]. rewrite batch_calls_refresh, app_nil_r.
    rewrite (Hcalls3 V HV_post). cbn [trace w2]. rewrite batch_calls_app.
    rewrite (Hcalls1 V HV_pre). cbn [batch_calls].
    by rewrite bool_decide_eq_true_2 by reflexivity. }
  split.
  { intros field. rewrite Htr4, embed_calls_app. cbn [embed_calls].
    rewrite embed_calls_refresh, app_nil_r, Hsingle3. cbn [trace w2].
    rewrite embed_calls_app. cbn [embed_calls]. by rewrite app_nil_r, Hsingle1. }
  split; [exact Htr4 |].
  intros Hnd i item e Hi He.
  rewrite (Hframe3 item V HV_post). cbn [heap w2].
  apply (assign_lookup V _ _ i).
  - by apply NoDup_zip_fst.
  - rewrite lookup_zip_with, Hi. simpl. rewrite He. reflexivity.
Qed.


(** ** [update] *)

(** One round of the loop of [update], by cases on the payload. *)
Lemma update_embed_step_run V cfg (values : record) w :
  update_embed_step (V, cfg) values w =
  match values !! V with
  | Some _ => (ok values, w)
  | None =>
      match values !! cfg_source_field_name cfg with
      | None => (ok values, w)
      | Some s =>
          match cfg_embed_fn cfg with
          | None => (raise (AttributeError "'NoneType' object has no attribute 'get_source_embedding'"), w)
          | Some fn =>
              (ok (<[V := get_source_embedding fn s]> values),
               {| heap := heap w; trace := trace w ++ [EvEmbed V s] |})
          end
      end
  end.
Proof.
  unfold update_embed_step.
  destruct (values !! V) as [v |] eqn:Hv.
  - rewrite bool_decide_eq_true_2 by eauto. reflexivity.
  - rewrite bool_decide_eq_false_2 by (intros [? ?]; discriminate).
    destruct (values !! cfg_source_field_name cfg) as [s |]; [| reflexivity].
    unfold bind, call_get_source_embedding. destruct (cfg_embed_fn cfg); reflexivity.
Qed.

(** The loop of [update] returns when every configuration has an embedding
    function; it keeps every entry of the payload, adds entries only for
    vector fields of the configurations, and makes no call for a field no
    configuration is for. *)
Lemma update_auto_embedding_frame configs : forall (values : record) w,
  Forall (fun e => is_Some (cfg_embed_fn e.2)) configs ->
  exists values' w',
    update_auto_embedding configs values w = (ok values', w') /\
    (forall k v, values !! k = Some v -> values' !! k = Some v) /\
    (forall k, k ∉ dict_keys configs -> values' !! k = values !! k) /\
    (forall k, k ∉ dict_keys configs -> embed_calls k (trace w') = embed_calls k (trace w)) /\
    heap w' = heap w.
Proof.
  unfold update_auto_embedding.
  induction configs as [| [V cfg] configs IH]; intros values w Hfn; cbn [for_fold].
  - exists values, w. split_and!; [reflexivity | auto | auto | auto | reflexivity].
  - apply Forall_cons in Hfn as [[fn Hfn] Hfns]. cbn [snd] in Hfn.
    pose proof (update_embed_step_run V cfg values w) as Hstep. rewrite Hfn in Hstep.
    destruct (values !! V) as [v |] eqn:Hv.
    { rewrite (bind_run _ _ _ _ _ Hstep).
      destruct (IH values w Hfns) as (values' & w' & -> & Hkeep & Hframe & Hcalls & Hheap).
      exists values', w'. split_and!; [reflexivity | exact Hkeep | | | exact Hheap].
      - intros k [_ Hk]%notin_keys_cons. by apply Hframe.
      - intros k [_ Hk]%notin_keys_cons. by apply Hcalls. }
    destruct (values !! cfg_source_field_name cfg) as [s |] eqn:Hs.
    2:{ rewrite (bind_run _ _ _ _ _ Hstep).
        destruct (IH values w Hfns) as (values' & w' & -> & Hkeep & Hframe & Hcalls & Hheap).
        exists values', w'. split_and!; [reflexivity | exact Hkeep | | | exact Hheap].
        - intros k [_ Hk]%notin_keys_cons. by apply Hframe.
        - intros k [_ Hk]%notin_keys_cons. by apply Hcalls. }
    rewrite (bind_run _ _ _ _ _ Hstep).
    edestruct (IH (<[V := get_source_embedding fn s]> values)) as
      (values' & w' & -> & Hkeep & Hframe & Hcalls & Hheap); [exact Hfns |].
    exists values', w'. split_and!; [reflexivity | | | | exact Hheap].
    + intros k v Hk. apply Hkeep. rewrite lookup_insert_ne; [exact Hk | congruence].
    + intros k [Hne Hk]%notin_keys_cons. rewrite Hframe by exact Hk.
      by apply lookup_insert_ne.
    + intros k [Hne Hk]%notin_keys_cons. rewrite Hcalls by exact Hk.
      cbn [trace]. rewrite embed_calls_app. cbn [embed_calls].
      rewrite bool_decide_eq_false_2 by congruence. by rewrite app_nil_r.
Qed.

(** The statement [update] executes for a payload and compiled filters. *)
Definition update_stmt (t : Table) (clauses : list Clause) (values : record) : UpdateStmt :=
  {| upd_table := schema_tablename (_table_model t);
     upd_filter := clauses;
     upd_values := values |}.

(** C7, as the code has it. [update], when every configuration has an
    embedding function, for the configuration of field [V] with source
    [S]: the embedding loop returns a payload; if the filters fail to
    compile the call raises that error, and otherwise it executes one
    update statement with the compiled filters and that payload and
    returns nothing. A payload that holds [S] and not [V] reaches the
    statement with [V] bound to the embedding of the value given for [S],
    after exactly one embedding call for [V] on that value; a payload that
    holds [V] reaches it with [V] as given and no embedding call for
    [V]. *)
Theorem update_injects_embedding (t : Table) (configs pre post : list (string * EmbeddingConfig))
    (V : string) (cfg : EmbeddingConfig) (fn : EmbedFn) (values : record)
    (filters : option Filters) (w : World) :
  _auto_embedding_configs t = Some configs ->
  configs = pre ++ (V, cfg) :: post ->
  NoDup (dict_keys configs) ->
  Forall (fun e => is_Some (cfg_embed_fn e.2)) configs ->
  cfg_embed_fn cfg = Some fn ->
  exists values' w',
    update_auto_embedding configs values w = (ok values', w') /\
    Table_update t values filters w
    = match build_filter_clauses filters (_columns t) with
      | inl e => (raise e, w')
      | inr clauses =>
          (ok ReturnsNone,
           {| heap := heap w';
              trace := trace w' ++ [EvUpdate (update_stmt t clauses values')] |})
      end /\
    (forall s, values !! V = None -> values !! cfg_source_field_name cfg = Some s ->
               values' !! V = Some (get_source_embedding fn s) /\
               embed_calls V (trace w') = embed_calls V (trace w) ++ [s]) /\
    (is_Some (values !! V) ->
     values' !! V = values !! V /\ embed_calls V (trace w') = embed_calls V (trace w)).
Proof.
  intros Hcfgs -> Hnd Hfns Hfn.
  pose proof Hfns as Hfns_all.
  apply Forall_app in Hfns as [Hfns_pre Hfns_rest].
  apply Forall_cons in Hfns_rest as [_ Hfns_post].
  unfold dict_keys in Hnd. rewrite map_app in Hnd. simpl in Hnd.
  apply NoDup_app in Hnd as (_ & Hpre_rest & Hnd).
  apply NoDup_cons in Hnd as [HV_post _].
  assert (HV_pre : V ∉ dict_keys pre) by (intros Hin; apply (Hpre_rest V Hin); left).
  destruct (update_auto_embedding_frame pre values w Hfns_pre)
    as (values1 & w1 & Hrun1 & Hkeep1 & Hframe1 & Hcalls1 & _).
  pose proof (update_embed_step_run V cfg values1 w1) as HrunV.
  rewrite Hfn, (Hframe1 V HV_pre) in HrunV.
  assert (Hsplit : forall valuesV wV,
    update_embed_step (V, cfg) values1 w1 = (ok valuesV, wV) ->
    exists values' w',
      update_auto_embedding (pre ++ (V, cfg) :: post) values w = (ok values', w') /\
      values' !! V = valuesV !! V /\
      embed_calls V (trace w') = embed_calls V (trace wV)).
  { intros valuesV wV HV.
    destruct (update_auto_embedding_frame post valuesV wV Hfns_post)
      as (values' & w' & Hrun' & _ & Hframe' & Hcalls' & _).
    exists values', w'. split; [| split; [by apply Hframe' | by apply Hcalls']].
    unfold update_auto_embedding in *. rewrite for_fold_app.
    rewrite (bind_run _ _ _ _ _ Hrun1). cbn [for_fold].
    rewrite (bind_run _ _ _ _ _ HV). exact Hrun'. }
  destruct (values !! V) as [v |] eqn:Hv.
  - destruct (Hsplit _ _ HrunV) as (values' & w' & Hrun & HV' & Hcalls').
    exists values', w'. split; [exact Hrun |]. split.
    { unfold Table_update, table_configs. rewrite Hcfgs. unfold bind at 1. unfold ret at 1.
      rewrite (bind_run _ _ _ _ _ Hrun). unfold bind, lift, session_execute, history, emit, ret.
      destruct (build_filter_clauses filters (_columns t)); reflexivity. }
    split; [intros s [=] |]. intros _.
    rewrite HV', Hcalls', (Hframe1 V HV_pre), Hv. split; [reflexivity | by apply Hcalls1].
  - destruct (values !! cfg_source_field_name cfg) as [s |] eqn:Hs.
    + rewrite (Hkeep1 _ _ Hs) in HrunV.
      destruct (Hsplit _ _ HrunV) as (values' & w' & Hrun & HV' & Hcalls').
      exists values', w'. split; [exact Hrun |]. split.
      { unfold Table_update, table_configs. rewrite Hcfgs. unfold bind at 1. unfold ret at 1.
        rewrite (bind_run _ _ _ _ _ Hrun). unfold bind, lift, session_execute, history, emit, ret.
        destruct (build_filter_clauses filters (_columns t)); reflexivity. }
      split; [| intros [? [=]]].
      intros s' _ [= <-]. rewrite HV', Hcalls'. split; [apply lookup_insert_eq |].
      cbn [trace]. rewrite embed_calls_app. cbn [embed_calls].
      rewrite bool_decide_eq_true_2 by reflexivity. by rewrite (Hcalls1 V HV_pre).
    + destruct (update_auto_embedding_frame (pre ++ (V, cfg) :: post) values w Hfns_all)
        as (values' & w' & Hrun & _).
      exists values', w'. split; [exact Hrun |]. split.
      { unfold Table_update, table_configs. rewrite Hcfgs. unfold bind at 1. unfold ret at 1.
        rewrite (bind_run _ _ _ _ _ Hrun). unfold bind, lift, session_execute, history, emit, ret.
        destruct (build_filter_clauses filters (_columns t)); reflexivity. }
      split; [intros s' _ [=] | intros [? [=]]].
Qed.


(** ** [query] *)

(** The filter clauses of a query: none without filters. *)
Definition compiled_filters (t : Table) (filters : option Filters) : result (list Clause) :=
  match filters with
  | Some f => build_filter_clauses (Some f) (_columns t)
  | None => ok []
  end.

(** An entry of an [order_by] dictionary the loop accepts: a known column
    with direction ["desc"] or ["asc"]. *)
Definition known_column (columns : list Column) (entry : string * value) : Prop :=
  is_Some (columns_get columns entry.1).

Definition valid_direction (entry : string * value) : Prop :=
  entry.2 = VStr "desc" \/ entry.2 = VStr "asc".

(** The ORDER BY element of an accepted entry. *)
Definition order_of (columns : list Column) (entry : string * value) : list order_expr :=
  match columns_get columns entry.1 with
  | Some c => if bool_decide (entry.2 = VStr "desc") then [ByColumnDesc c] else [ByColumn c]
  | None => []
  end.

(** The statement [query] executes once filters and ordering are applied. *)
Definition paginate (stmt : SelectStmt) (limit offset : option Z) : SelectStmt :=
  let stmt := match limit with Some n => stmt_limit stmt n | None => stmt end in
  match offset with Some n => stmt_offset stmt n | None => stmt end.

Lemma Table_query_run t filters order_by limit offset w :
  Table_query t filters order_by limit offset w =
  match compiled_filters t filters with
  | inl e => (raise e, w)
  | inr clauses =>
      match apply_order_by (_columns t) (stmt_filter (select t) clauses) order_by with
      | inl e => (raise e, w)
      | inr stmt =>
          (ok (eng_select engine (trace w) (paginate stmt limit offset)),
           {| heap := heap w; trace := trace w ++ [EvSelect (paginate stmt limit offset)] |})
      end
  end.
Proof.
  unfold Table_query, compiled_filters, bind, lift, ret.
  destruct filters as [f |].
  - destruct (build_filter_clauses (Some f) (_columns t)) as [e | clauses]; [reflexivity |].
    destruct (apply_order_by _ _ order_by); reflexivity.
  - unfold ok. cbv beta iota. change (stmt_filter (select t) []) with (select t).
    destruct (apply_order_by _ _ order_by); reflexivity.
Qed.

Lemma order_by_entry_valid columns stmt entry :
  known_column columns entry -> valid_direction entry ->
  order_by_entry columns stmt entry = ok (stmt_order_by stmt (order_of columns entry)).
Proof.
  destruct entry as [key value]. unfold known_column, valid_direction, order_by_entry, order_of.
  cbn [fst snd]. intros [c Hc] Hd.
  rewrite (proj2 (columns_contains_get columns key)) by eauto. cbn [negb].
  unfold columns_getitem. rewrite Hc.
  destruct Hd as [-> | ->]; reflexivity.
Qed.

Lemma order_by_entry_unknown columns stmt key value :
  columns_get columns key = None ->
  order_by_entry columns stmt (key, value)
  = raise (KeyError ("Unknown order by column: " +:+ key)).
Proof.
  intros Hc. unfold order_by_entry.
  by rewrite (proj2 (columns_contains_false columns key)).
Qed.

Lemma order_by_entry_invalid columns stmt key value :
  is_Some (columns_get columns key) -> ~ valid_direction (key, value) ->
  order_by_entry columns stmt (key, value)
  = raise (ValueError ("Invalid order direction value (allowed: 'desc', 'asc'): "
                       +:+ py_str value)).
Proof.
  intros Hc Hd. unfold order_by_entry.
  rewrite (proj2 (columns_contains_get columns key)) by exact Hc. cbn [negb].
  unfold valid_direction in Hd. cbn [snd] in Hd.
  rewrite (bool_decide_eq_false_2 (value = VStr "desc")) by (intros E; apply Hd; by left).
  rewrite (bool_decide_eq_false_2 (value = VStr "asc")) by (intros E; apply Hd; by right).
  reflexivity.
Qed.

Lemma stmt_order_by_nil stmt : stmt_order_by stmt [] = stmt.
Proof. destruct stmt. unfold stmt_order_by. simpl. by rewrite app_nil_r. Qed.

Lemma stmt_order_by_app stmt es1 es2 :
  stmt_order_by (stmt_order_by stmt es1) es2 = stmt_order_by stmt (es1 ++ es2).
Proof. unfold stmt_order_by. simpl. by rewrite app_assoc. Qed.

(** The loop over a dictionary whose entries are all accepted. *)
Lemma order_by_dict_valid columns d : forall stmt,
  Forall (fun e => known_column columns e /\ valid_direction e) d ->
  for_result d stmt (order_by_entry columns)
  = ok (stmt_order_by stmt (concat (map (order_of columns) d))).
Proof.
  induction d as [| e d IH]; intros stmt Hd; cbn [for_result map concat].
  - by rewrite stmt_order_by_nil.
  - apply Forall_cons in Hd as [[Hk Hv] Hd].
    rewrite (order_by_entry_valid _ _ _ Hk Hv). cbn [rbind ok].
    rewrite IH by exact Hd. by rewrite stmt_order_by_app.
Qed.

(** The loop stops at the first entry that is not accepted, with the
    error of that entry. *)
Lemma order_by_dict_first_rejected columns good entry rest stmt :
  Forall (fun e => known_column columns e /\ valid_direction e) good ->
  for_result (good ++ entry :: rest) stmt (order_by_entry columns)
  = match order_by_entry columns
            (stmt_order_by stmt (concat (map (order_of columns) good))) entry with
    | inl e => raise e
    | inr stmt' => for_result rest stmt' (order_by_entry columns)
    end.
Proof.
  revert stmt. induction good as [| e good IH]; intros stmt Hg; cbn [app for_result map concat].
  - rewrite stmt_order_by_nil. destruct (order_by_entry columns stmt entry); reflexivity.
  - apply Forall_cons in Hg as [[Hk Hv] Hg].
    rewrite (order_by_entry_valid _ _ _ Hk Hv). cbn [rbind ok].
    rewrite IH by exact Hg. by rewrite stmt_order_by_app.
Qed.

Lemma order_by_entry_no_key_error columns stmt entry :
  known_column columns entry ->
  forall arg, order_by_entry columns stmt entry <> raise (KeyError arg).
Proof.
  destruct entry as [key value]. unfold known_column, order_by_entry. cbn [fst].
  intros [c Hc] arg.
  rewrite (proj2 (columns_contains_get columns key)) by eauto. cbn [negb].
  unfold columns_getitem. rewrite Hc.
  repeat case_bool_decide; discriminate.
Qed.

Lemma order_by_dict_no_key_error columns d : forall stmt,
  Forall (known_column columns) d ->
  forall arg, for_result d stmt (order_by_entry columns) <> raise (KeyError arg).
Proof.
  induction d as [| e d IH]; intros stmt Hd arg; cbn [for_result]; [discriminate |].
  apply Forall_cons in Hd as [Hk Hd].
  pose proof (order_by_entry_no_key_error columns stmt e Hk arg) as He.
  destruct (order_by_entry columns stmt e) as [err | stmt']; cbn [rbind].
  - exact He.
  - by apply IH.
Qed.


Definition accepted (columns : list Column) (entry : string * value) : Prop :=
  known_column columns entry /\ valid_direction entry.

Lemma paginate_order_by stmt limit offset :
  sel_order_by (paginate stmt limit offset) = sel_order_by stmt.
Proof. unfold paginate. destruct limit, offset; reflexivity. Qed.

(** A query whose filters compile and whose [order_by] dictionary holds
    accepted entries only executes one statement, ordered by the entries in
    the order of the dictionary. *)
Lemma query_order_by_dict_accepted t filters clauses d limit offset w :
  compiled_filters t filters = ok clauses ->
  Forall (accepted (_columns t)) d ->
  exists stmt,
    Table_query t filters (OrderByDict d) limit offset w
    = (ok (eng_select engine (trace w) stmt),
       {| heap := heap w; trace := trace w ++ [EvSelect stmt] |}) /\
    sel_order_by stmt = concat (map (order_of (_columns t)) d).
Proof.
  intros Hf Hd. rewrite Table_query_run, Hf. unfold ok. cbv beta iota.
  cbn [apply_order_by]. rewrite (order_by_dict_valid _ _ _ Hd). unfold ok. cbv beta iota.
  eexists. split; [reflexivity |]. by rewrite paginate_order_by.
Qed.

Lemma query_order_by_dict_rejected t filters clauses good key value rest limit offset w :
  compiled_filters t filters = ok clauses ->
  Forall (accepted (_columns t)) good ->
  ~ accepted (_columns t) (key, value) ->
  Table_query t filters (OrderByDict (good ++ (key, value) :: rest)) limit offset w
  = (match columns_get (_columns t) key with
     | None => raise (KeyError ("Unknown order by column: " +:+ key))
     | Some _ => raise (ValueError ("Invalid order direction value (allowed: 'desc', 'asc'): "
                                    +:+ py_str value))
     end, w).
Proof.
  intros Hf Hg Hrej. rewrite Table_query_run, Hf. unfold ok. cbv beta iota.
  cbn [apply_order_by]. rewrite (order_by_dict_first_rejected _ _ _ _ _ Hg).
  destruct (columns_get (_columns t) key) as [c |] eqn:Hc.
  - rewrite order_by_entry_invalid; [reflexivity | rewrite Hc; eauto |].
    intros Hv. apply Hrej. split; [| exact Hv]. unfold known_column. cbn [fst].
    rewrite Hc. eauto.
  - rewrite order_by_entry_unknown by exact Hc. reflexivity.
Qed.

(** The first key of a dictionary that is not a column of the table. *)
Fixpoint first_unknown (columns : list Column) (d : list (string * value)) : option string :=
  match d with
  | [] => None
  | (key, _) :: d' =>
      if columns_contains columns key then first_unknown columns d' else Some key
  end.

Lemma first_unknown_split columns d key :
  first_unknown columns d = Some key ->
  exists good value rest,
    d = good ++ (key, value) :: rest /\
    Forall (known_column columns) good /\
    columns_get columns key = None.
Proof.
  induction d as [| [k v] d IH]; cbn [first_unknown]; [discriminate |].
  destruct (columns_contains columns k) eqn:Hk.
  - intros (good & value & rest & -> & Hg & Hn)%IH.
    exists ((k, v) :: good), value, rest. split; [reflexivity |]. split; [| exact Hn].
    constructor; [| exact Hg]. by apply columns_contains_get.
  - intros [= ->]. exists [], v, d. split; [reflexivity |]. split; [constructor |].
    by apply columns_contains_false.
Qed.

Lemma first_unknown_None columns d :
  first_unknown columns d = None <-> Forall (known_column columns) d.
Proof.
  induction d as [| [k v] d IH]; cbn [first_unknown]; [by split |].
  rewrite Forall_cons. unfold known_column at 1. cbn [fst].
  rewrite <- columns_contains_get.
  destruct (columns_contains columns k); [| split; [discriminate | intros [[=] _]]].
  rewrite IH. split; [by split | by intros [_ ?]].
Qed.

(** C8. [query] with filters that are absent or compile. A column name
    that is not a column of the table raises the lookup error that names
    it, with no statement executed; a name that is a column orders by that
    column. A dictionary from column names to directions that names a
    column the table does not have raises the lookup error that names the
    first such column, with no statement executed; more generally the
    error is the one of the first entry that is not accepted, the lookup
    error when that entry names an unknown column. A dictionary of known
    columns never raises a lookup error, and one of accepted entries
    executes a statement ordered by the entries in dictionary order, an
    entry with direction ["desc"] descending. *)
Theorem query_order_by_unknown_column (t : Table) (filters : option Filters)
    (clauses : list Clause) (limit offset : option Z) (w : World) :
  compiled_filters t filters = ok clauses ->
  let columns := _columns t in
  let run order_by := Table_query t filters order_by limit offset w in
  (forall name, columns_get columns name = None ->
     run (OrderByStr name) = (raise (KeyError ("Unknown order by column: " +:+ name)), w)) /\
  (forall name c, columns_get columns name = Some c ->
     exists stmt,
       run (OrderByStr name)
       = (ok (eng_select engine (trace w) stmt),
          {| heap := heap w; trace := trace w ++ [EvSelect stmt] |}) /\
       sel_order_by stmt = [ByColumn c]) /\
  (forall d key,
     Forall valid_direction d ->
     first_unknown columns d = Some key ->
     key ∈ d.*1 /\ columns_get columns key = None /\
     run (OrderByDict d) = (raise (KeyError ("Unknown order by column: " +:+ key)), w)) /\
  (forall d,
     Forall valid_direction d ->
     (exists key, key ∈ d.*1 /\ columns_get columns key = None) ->
     exists key, first_unknown columns d = Some key) /\
  (forall good key value rest,
     Forall (accepted columns) good ->
     columns_get columns key = None ->
     run (OrderByDict (good ++ (key, value) :: rest))
     = (raise (KeyError ("Unknown order by column: " +:+ key)), w)) /\
  (forall d, Forall (known_column columns) d ->
     forall arg, (run (OrderByDict d)).1 <> raise (KeyError arg)) /\
  (forall d, Forall (accepted columns) d ->
     exists stmt,
       run (OrderByDict d)
       = (ok (eng_select engine (trace w) stmt),
          {| heap := heap w; trace := trace w ++ [EvSelect stmt] |}) /\
       sel_order_by stmt = concat (map (order_of columns) d)) /\
  (forall key c, columns_get columns key = Some c ->
     order_of columns (key, VStr "desc") = [ByColumnDesc c]).
Proof.
  intros Hf columns run. subst run. cbv beta. split_and!.
  - intros name Hc. rewrite Table_query_run, Hf. unfold ok. cbv beta iota.
    cbn [apply_order_by]. fold columns.
    by rewrite (proj2 (columns_contains_false columns name)).
  - intros name c Hc. rewrite Table_query_run, Hf. unfold ok. cbv beta iota.
    cbn [apply_order_by]. fold columns.
    rewrite (proj2 (columns_contains_get columns name)) by (rewrite Hc; eauto).
    cbn [negb]. unfold columns_getitem. rewrite Hc. unfold ok. cbn [rbind].
    eexists. split; [reflexivity |]. by rewrite paginate_order_by.
  - intros d key Hdir (good & value & rest & -> & Hg & Hc)%first_unknown_split.
    split; [| split; [exact Hc |]].
    { rewrite fmap_app, fmap_cons. apply elem_of_app. right. left. }
    apply Forall_app in Hdir as [Hdir _].
    assert (Hacc : Forall (accepted columns) good).
    { apply Forall_forall. intros e He. split.
      - by apply (proj1 (Forall_forall _ _) Hg).
      - by apply (proj1 (Forall_forall _ _) Hdir). }
    rewrite (query_order_by_dict_rejected t filters clauses) by
      (try assumption; intros [[? Hk] _]; cbn [fst] in Hk; fold columns in Hk; congruence).
    fold columns. by rewrite Hc.
  - intros d _ (key & Hin & Hc).
    destruct (first_unknown columns d) as [k |] eqn:Hfu; [by exists k |].
    exfalso. apply first_unknown_None in Hfu.
    apply list_elem_of_fmap in Hin as ([k v] & -> & Hin).
    apply (proj1 (Forall_forall _ _) Hfu) in Hin as [c Hk]. cbn [fst] in Hk, Hc. congruence.
  - intros good key value rest Hg Hc.
    rewrite (query_order_by_dict_rejected t filters clauses) by
      (try assumption; intros [[? Hk] _]; cbn [fst] in Hk; fold columns in Hk; congruence).
    fold columns. by rewrite Hc.
  - intros d Hd arg. rewrite Table_query_run, Hf. unfold ok. cbv beta iota.
    cbn [apply_order_by].
    pose proof (order_by_dict_no_key_error columns d
                  (stmt_filter (select t) clauses) Hd arg) as Hn.
    fold columns.
    destruct (for_result d _ (order_by_entry columns)) as [e | stmt]; cbn [fst].
    + intros [= ->]. by apply Hn.
    + discriminate.
  - intros d Hd. by apply (query_order_by_dict_accepted t filters clauses).
  - intros key c Hc. unfold order_of. cbn [fst snd]. by rewrite Hc.
Qed.

(** C10, as the code has it. [query] with filters that are absent or
    compile, on an [order_by] dictionary. The error is the one of the first
    entry that is not accepted: when that entry names a known column and
    its direction is neither ["asc"] nor ["desc"], the call raises a value
    error whose message holds the allowed directions and the value given,
    with no statement executed. A dictionary of accepted entries executes a
    statement ordered by the entries in dictionary order, ["asc"] entries
    ascending and ["desc"] entries descending. *)
Theorem query_order_by_invalid_direction (t : Table) (filters : option Filters)
    (clauses : list Clause) (limit offset : option Z) (w : World) :
  compiled_filters t filters = ok clauses ->
  let columns := _columns t in
  let run order_by := Table_query t filters order_by limit offset w in
  (forall good key value rest,
     Forall (accepted columns) good ->
     is_Some (columns_get columns key) ->
     value <> VStr "asc" -> value <> VStr "desc" ->
     run (OrderByDict (good ++ (key, value) :: rest))
     = (raise (ValueError ("Invalid order direction value (allowed: 'desc', 'asc'): "
                           +:+ py_str value)), w)) /\
  (forall d, Forall (accepted columns) d ->
     exists stmt,
       run (OrderByDict d)
       = (ok (eng_select engine (trace w) stmt),
          {| heap := heap w; trace := trace w ++ [EvSelect stmt] |}) /\
       sel_order_by stmt = concat (map (order_of columns) d)) /\
  (forall key c, columns_get columns key = Some c ->
     order_of columns (key, VStr "asc") = [ByColumn c] /\
     order_of columns (key, VStr "desc") = [ByColumnDesc c]).
Proof.
  intros Hf columns run. subst run. cbv beta. split_and!.
  - intros good key value rest Hg [c Hc] Hasc Hdesc.
    rewrite (query_order_by_dict_rejected t filters clauses) by
      (try assumption; intros [_ [Hd | Hd]]; cbn [snd] in Hd; congruence).
    fold columns. by rewrite Hc.
  - intros d Hd. by apply (query_order_by_dict_accepted t filters clauses).
  - intros key c Hc. unfold order_of. cbn [fst snd]. rewrite Hc. split; reflexivity.
Qed.


(** ** The configurations [_setup_auto_embedding] derives *)

Lemma dict_set_keys_NoDup {V} (d : list (string * V)) k v :
  NoDup (dict_keys d) -> NoDup (dict_keys (dict_set d k v)).
Proof.
  unfold dict_keys. induction d as [| [k' v'] d IH]; cbn [dict_set map fst]; intros Hnd.
  - repeat constructor. by intros ?%elem_of_nil.
  - apply NoDup_cons in Hnd as [Hk Hnd]. case_bool_decide as He; cbn [map fst].
    + subst k'. by constructor.
    + constructor; [| by apply IH].
      intros Hin. apply Hk. clear IH Hnd Hk.
      induction d as [| [k2 v2] d IHd]; cbn [dict_set map fst] in *.
      * apply list_elem_of_singleton in Hin. congruence.
      * case_bool_decide; cbn [map fst] in *.
        -- subst k2. apply elem_of_cons in Hin as [-> | Hin]; [by left | by right].
        -- apply elem_of_cons in Hin as [-> | Hin]; [by left | right; by apply IHd].
Qed.

Lemma dict_set_Forall {V} (P : string * V -> Prop) (d : list (string * V)) k v :
  Forall P d -> P (k, v) -> Forall P (dict_set d k v).
Proof.
  intros Hd Hkv. induction Hd as [| [k' v'] d Hx Hd IH]; cbn [dict_set].
  - by constructor.
  - case_bool_decide; constructor; assumption.
Qed.

(** Every configuration has an embedding function and a source field, both
    taken from a vector field of that name, and no two configurations are
    for the same field. *)
Lemma setup_auto_embedding_configs (vector_fields : list (string * FieldInfo)) :
  let configs := _setup_auto_embedding vector_fields in
  NoDup (dict_keys configs) /\
  Forall (fun e => is_Some (cfg_embed_fn e.2) /\
                   cfg_vector_field_name e.2 = e.1 /\
                   (e.1, cfg_vector_field e.2) ∈ vector_fields /\
                   embed_fn (cfg_vector_field e.2) = cfg_embed_fn e.2 /\
                   source_field (cfg_vector_field e.2) = Some (cfg_source_field_name e.2))
         configs.
Proof.
  unfold _setup_auto_embedding.
  assert (Hgen : forall fields acc,
    NoDup (dict_keys acc) ->
    Forall (fun e => is_Some (cfg_embed_fn e.2) /\
                     cfg_vector_field_name e.2 = e.1 /\
                     (e.1, cfg_vector_field e.2) ∈ vector_fields /\
                     embed_fn (cfg_vector_field e.2) = cfg_embed_fn e.2 /\
                     source_field (cfg_vector_field e.2) = Some (cfg_source_field_name e.2))
           acc ->
    (forall e, e ∈ fields -> e ∈ vector_fields) ->
    NoDup (dict_keys (fold_left setup_step fields acc)) /\
    Forall (fun e => is_Some (cfg_embed_fn e.2) /\
                     cfg_vector_field_name e.2 = e.1 /\
                     (e.1, cfg_vector_field e.2) ∈ vector_fields /\
                     embed_fn (cfg_vector_field e.2) = cfg_embed_fn e.2 /\
                     source_field (cfg_vector_field e.2) = Some (cfg_source_field_name e.2))
           (fold_left setup_step fields acc)).
  { induction fields as [| [name field] fields IH]; intros acc Hnd Hall Hsub; cbn [fold_left].
    - by split.
    - assert (Hin : (name, field) ∈ vector_fields) by (apply Hsub; left).
      assert (Hsub' : forall e, e ∈ fields -> e ∈ vector_fields)
        by (intros e He; apply Hsub; by right).
      unfold setup_step at 2 4.
      destruct (embed_fn field) as [fn |] eqn:Hfn; [| by apply IH].
      destruct (source_field field) as [src |] eqn:Hsrc; [| by apply IH].
      apply IH; [by apply dict_set_keys_NoDup | | exact Hsub'].
      apply dict_set_Forall; [exact Hall |]. cbn [fst snd cfg_embed_fn cfg_vector_field_name
        cfg_vector_field cfg_source_field_name].
      split_and!; eauto. }
  apply Hgen; [constructor | constructor | auto].
Qed.


(** ** The dictionaries construction derives from the fields *)

Definition is_vector_field (e : string * FieldInfo) : bool :=
  bool_decide (field_type e.2 = Some "vector").

Definition is_text_field (e : string * FieldInfo) : bool :=
  bool_decide (field_type e.2 = Some "text").

(** The configuration a vector field gives rise to, if any. *)
Definition config_of (e : string * FieldInfo) : option (string * EmbeddingConfig) :=
  match embed_fn e.2, source_field e.2 with
  | Some fn, Some src =>
      Some (e.1, {| cfg_embed_fn := Some fn;
                    cfg_vector_field := e.2;
                    cfg_vector_field_name := e.1;
                    cfg_source_field_name := src |})
  | _, _ => None
  end.

Lemma dict_set_fresh {V} (d : list (string * V)) k v :
  k ∉ dict_keys d -> dict_set d k v = d ++ [(k, v)].
Proof.
  induction d as [| [k' v'] d IH]; intros Hk; cbn [dict_set app]; [reflexivity |].
  apply notin_keys_cons in Hk as [Hne Hk].
  rewrite bool_decide_eq_false_2 by congruence. by rewrite IH.
Qed.

Lemma dict_keys_app {V} (d1 d2 : list (string * V)) :
  dict_keys (d1 ++ d2) = dict_keys d1 ++ dict_keys d2.
Proof. unfold dict_keys. apply map_app. Qed.

Lemma classify_fields_from fields : forall vector_fields text_fields,
  NoDup (dict_keys fields) ->
  (forall k, k ∈ dict_keys fields ->
             (k ∉ dict_keys vector_fields) /\ (k ∉ dict_keys text_fields)) ->
  fold_left classify_step fields (vector_fields, text_fields)
  = (vector_fields ++ List.filter is_vector_field fields,
     text_fields ++ List.filter is_text_field fields).
Proof.
  induction fields as [| [name field] fields IH]; intros vfs tfs Hnd Hfresh;
    cbn [fold_left List.filter].
  - by rewrite !app_nil_r.
  - change (dict_keys ((name, field) :: fields)) with (name :: dict_keys fields) in *.
    apply NoDup_cons in Hnd as [Hname Hnd].
    destruct (Hfresh name) as [Hv Ht]; [left |].
    unfold classify_step at 2. unfold is_vector_field at 1, is_text_field at 1. cbn [snd].
    case_bool_decide as Hvec.
    + rewrite (bool_decide_eq_false_2 (field_type field = Some "text")) by congruence.
      rewrite dict_set_fresh by exact Hv. rewrite IH; [by rewrite <- app_assoc | exact Hnd |].
      intros k Hk. destruct (Hfresh k) as [Hkv Hkt]; [by right |]. split; [| exact Hkt].
      rewrite dict_keys_app. intros [? | Hin]%elem_of_app; [done |].
      apply list_elem_of_singleton in Hin. simpl in Hin. by subst.
    + case_bool_decide as Htxt.
      * rewrite dict_set_fresh by exact Ht. rewrite IH; [by rewrite <- app_assoc | exact Hnd |].
        intros k Hk. destruct (Hfresh k) as [Hkv Hkt]; [by right |]. split; [exact Hkv |].
        rewrite dict_keys_app. intros [? | Hin]%elem_of_app; [done |].
        apply list_elem_of_singleton in Hin. simpl in Hin. by subst.
      * apply IH; [exact Hnd |]. intros k Hk. apply Hfresh. by right.
Qed.

(** The two dictionaries [__init__] fills from the fields of the schema,
    whose names are distinct: the fields of type ["vector"] and the fields
    of type ["text"], each in the order of the schema. *)
Theorem classify_fields_partition (fields : list (string * FieldInfo)) :
  NoDup (dict_keys fields) ->
  classify_fields fields
  = (List.filter is_vector_field fields, List.filter is_text_field fields).
Proof.
  intros Hnd. unfold classify_fields. rewrite classify_fields_from; [reflexivity | exact Hnd |].
  intros k _. split; by intros ?%elem_of_nil.
Qed.

Lemma config_of_key e c : config_of e = Some c -> c.1 = e.1.
Proof.
  unfold config_of. destruct (embed_fn e.2), (source_field e.2); try discriminate.
  by intros [= <-].
Qed.

Lemma setup_step_config_of configs e :
  e.1 ∉ dict_keys configs ->
  setup_step configs e = configs ++ option_list (config_of e).
Proof.
  destruct e as [name field]. unfold setup_step, config_of. cbn [fst snd]. intros Hk.
  destruct (embed_fn field); [| by rewrite app_nil_r].
  destruct (source_field field); [| by rewrite app_nil_r].
  by rewrite dict_set_fresh.
Qed.

Lemma setup_from fields : forall configs,
  NoDup (dict_keys fields) ->
  (forall k, k ∈ dict_keys fields -> k ∉ dict_keys configs) ->
  fold_left setup_step fields configs = configs ++ omap config_of fields.
Proof.
  induction fields as [| e fields IH]; intros configs Hnd Hfresh; cbn [fold_left omap list_omap].
  - by rewrite app_nil_r.
  - change (dict_keys (e :: fields)) with (e.1 :: dict_keys fields) in *.
    apply NoDup_cons in Hnd as [Hname Hnd].
    rewrite setup_step_config_of by (apply Hfresh; left).
    rewrite IH; [| exact Hnd |].
    + rewrite <- app_assoc. f_equal. by destruct (config_of e).
    + intros k Hk. rewrite dict_keys_app. intros [Hin | Hin]%elem_of_app.
      * by apply (Hfresh k); [right |].
      * destruct (config_of e) as [c |] eqn:Hc; cbn [option_list dict_keys map] in Hin.
        -- apply list_elem_of_singleton in Hin. rewrite (config_of_key _ _ Hc) in Hin.
           congruence.
        -- by apply elem_of_nil in Hin.
Qed.

(** The configurations [_setup_auto_embedding] derives from vector fields
    of distinct names: one for each field that declares both an embedding
    function and a source field, in the order of the fields, and none for
    the others. *)
Theorem setup_auto_embedding_in_order (vector_fields : list (string * FieldInfo)) :
  NoDup (dict_keys vector_fields) ->
  _setup_auto_embedding vector_fields = omap config_of vector_fields.
Proof.
  intros Hnd. unfold _setup_auto_embedding.
  rewrite setup_from; [reflexivity | exact Hnd |].
  intros k _. by intros ?%elem_of_nil.
Qed.

(** After both passes every vector field without a skip-index flag has a
    vector-kind index on its distance expression and every text field
    without one a fulltext-kind index on its column, and the indexes the
    table had are all still there, first and in their order. *)
Theorem synchronised_fields_are_covered
    (vector_fields text_fields : list (string * FieldInfo)) (t : SaTable) :
  readable "vector" first_expression_text (tbl_indexes t) ->
  readable "fulltext" first_column_name (tbl_indexes t) ->
  exists t1 t2,
    _auto_create_vector_index vector_fields t = ok t1 /\
    _auto_create_fulltext_index text_fields t1 = ok t2 /\
    tbl_indexes t `prefix_of` tbl_indexes t2 /\
    tbl_name t2 = tbl_name t /\ tbl_columns t2 = tbl_columns t /\
    tbl_primary_key t2 = tbl_primary_key t /\
    (forall column field, (column, field) ∈ vector_fields ->
       default false (skip_index field) = false ->
       covered "vector" first_expression_text (tbl_indexes t2)
         (format_distance_expression column (default "COSINE" (distance_metric field)))) /\
    (forall column field, (column, field) ∈ text_fields ->
       default false (skip_index field) = false ->
       covered "fulltext" first_column_name (tbl_indexes t2) column).
Proof.
  intros Hrv Hrf.
  destruct (sync_loop "vector" first_expression_text vector_key vector_index_of
              vector_index_step vector_step_eq
              (fun e => vector_index_kind _ _ _ _) (fun e => eq_refl)
              vector_fields t Hrv)
    as (added_v & Hrun_v & _ & Hadd_v & _ & Hcov_v).
  assert (Hrf1 : readable "fulltext" first_column_name (tbl_indexes (add_indexes t added_v))).
  { simpl. apply Forall_app. split; [exact Hrf |].
    apply (readable_other_kind _ "vector"); [| done].
    eapply Forall_impl; [exact Hadd_v |]. intros i (e & _ & _ & -> & _).
    apply vector_index_kind. }
  destruct (sync_loop "fulltext" first_column_name fst fulltext_index_of
              fulltext_index_step fulltext_step_eq
              (fun e => fulltext_index_kind _ _ _) (fun e => eq_refl)
              text_fields _ Hrf1)
    as (added_f & Hrun_f & _ & _ & _ & Hcov_f).
  exists (add_indexes t added_v), (add_indexes (add_indexes t added_v) added_f).
  split; [exact Hrun_v |]. split; [exact Hrun_f |]. simpl.
  split; [rewrite <- app_assoc; by apply prefix_app_r |].
  split; [reflexivity |]. split; [reflexivity |]. split; [reflexivity |].
  split.
  - intros column field Hin Hs. apply covered_app_l.
    by apply (Hcov_v (column, field)).
  - intros column field Hin Hs. by apply (Hcov_f (column, field)).
Qed.


(** ** What the embedding loops send and leave *)


(** Whatever its outcome, the loop of [insert] adds to the trace only
    single embedding calls, for vector fields of the configurations. *)
Lemma insert_auto_embedding_events configs data : forall w,
  exists evs,
    trace (insert_auto_embedding configs data w).2 = trace w ++ evs /\
    Forall (fun ev => exists V s, ev = EvEmbed V s /\ V ∈ dict_keys configs) evs.
Proof.
  unfold insert_auto_embedding.
  induction configs as [| [V cfg] configs IH]; intros w; cbn [for_each].
  - exists []. split; [by rewrite app_nil_r | constructor].
  - assert (Hlift : forall w1 evs1,
      trace w1 = trace w ++ evs1 ->
      Forall (fun ev => exists V' s, ev = EvEmbed V' s /\ V' ∈ dict_keys ((V, cfg) :: configs)) evs1 ->
      exists evs,
        trace (for_each configs (insert_embed_step data) w1).2 = trace w ++ evs /\
        Forall (fun ev => exists V' s, ev = EvEmbed V' s /\ V' ∈ dict_keys ((V, cfg) :: configs))
               evs).
    { intros w1 evs1 Htr Hev. destruct (IH w1) as (evs & Hevs & Hall).
      exists (evs1 ++ evs). rewrite Hevs, Htr, app_assoc. split; [reflexivity |].
      apply Forall_app. split; [exact Hev |].
      eapply Forall_impl; [exact Hall |]. intros ev (V' & s & -> & Hin).
      exists V', s. split; [reflexivity | by right]. }
    unfold bind. rewrite insert_embed_step_run.
    destruct (obj (heap w) data !! V) as [v |].
    2:{ exists []. split; [by rewrite app_nil_r | constructor]. }
    destruct (negb (is_none v)).
    { apply (Hlift w []); [by rewrite app_nil_r | constructor]. }
    destruct (obj (heap w) data !! cfg_source_field_name cfg) as [s |].
    2:{ apply (Hlift w []); [by rewrite app_nil_r | constructor]. }
    destruct (cfg_embed_fn cfg) as [fn |].
    2:{ exists []. split; [by rewrite app_nil_r | constructor]. }
    apply (Hlift _ [EvEmbed V s]); [reflexivity |].
    constructor; [| constructor]. exists V, s. split; [reflexivity | left].
Qed.

Lemma embed_calls_other V evs :
  Forall (fun ev => match ev with EvEmbed V' _ => V' <> V | _ => True end) evs ->
  embed_calls V evs = [].
Proof.
  induction 1 as [| ev evs Hev _ IH]; [reflexivity |].
  destruct ev; cbn [embed_calls]; try exact IH.
  by rewrite bool_decide_eq_false_2.
Qed.

(** A record whose vector fields are all set is handed to the session as
    it is: the loop of [insert] calls no embedding function and changes
    nothing. *)
Theorem insert_populated_record_untouched (t : Table)
    (configs : list (string * EmbeddingConfig)) (data : loc) (w : World) :
  _auto_embedding_configs t = Some configs ->
  Forall (fun e => exists v, obj (heap w) data !! e.1 = Some v /\ v <> VNone) configs ->
  insert_auto_embedding configs data w = (ok tt, w) /\
  exists w',
    Table_insert t data w = (ok data, w') /\
    trace w' = trace w ++ [EvAdd [obj (heap w) data]; EvFlush; EvRefresh data].
Proof.
  intros Hcfgs Hset.
  assert (Hrun : insert_auto_embedding configs data w = (ok tt, w)).
  { unfold insert_auto_embedding. clear Hcfgs.
    induction Hset as [| [V cfg] configs (v & Hv & Hn) _ IH]; cbn [for_each]; [reflexivity |].
    cbn [fst] in Hv. unfold bind. rewrite insert_embed_step_run, Hv.
    destruct v; try contradiction; exact IH. }
  split; [exact Hrun |].
  eexists. split.
  - unfold Table_insert, table_configs. rewrite Hcfgs. unfold bind at 1. unfold ret at 1.
    rewrite (bind_run _ _ _ _ _ Hrun). apply insert_persist_run.
  - reflexivity.
Qed.

(** The embedding calls of one [insert], per configuration: exactly one
    call, on the value the source field holds when the configuration is
    reached, if the vector field is null and the source field present, and
    no call otherwise. *)
Theorem insert_embeds_at_most_once (configs pre post : list (string * EmbeddingConfig))
    (V : string) (cfg : EmbeddingConfig) (data : loc) (w : World) :
  configs = pre ++ (V, cfg) :: post ->
  NoDup (dict_keys configs) ->
  embeddable configs (obj (heap w) data) ->
  exists w1 w2,
    insert_auto_embedding pre data w = (ok tt, w1) /\
    insert_auto_embedding configs data w = (ok tt, w2) /\
    embed_calls V (trace w2)
    = embed_calls V (trace w)
      ++ match obj (heap w) data !! V, obj (heap w1) data !! cfg_source_field_name cfg with
         | Some VNone, Some s => [s]
         | _, _ => []
         end.
Proof.
  intros -> Hnd Hwf.
  apply embeddable_app in Hwf as [Hwf_pre Hwf_rest].
  apply Forall_cons in Hwf_rest as [[[fn Hfn] [v0 Hv0]] Hwf_post]. cbn [fst snd] in Hfn, Hv0.
  unfold dict_keys in Hnd. rewrite map_app in Hnd. simpl in Hnd.
  apply NoDup_app in Hnd as (_ & Hpre_rest & Hnd).
  apply NoDup_cons in Hnd as [HV_post _].
  assert (HV_pre : V ∉ dict_keys pre) by (intros Hin; apply (Hpre_rest V Hin); left).
  destruct (insert_auto_embedding_frame pre data w Hwf_pre)
    as (w1 & Hrun1 & Hdom1 & _ & Hframe1 & _).
  assert (Hcalls_of : forall cs w0,
    V ∉ dict_keys cs ->
    embed_calls V (trace (insert_auto_embedding cs data w0).2) = embed_calls V (trace w0)).
  { intros cs w0 Hn. destruct (insert_auto_embedding_events cs data w0) as (evs & -> & Hev).
    rewrite embed_calls_app, (embed_calls_other V evs), app_nil_r; [reflexivity |].
    eapply Forall_impl; [exact Hev |]. intros ev (V' & s & -> & Hin). congruence. }
  pose proof (Hcalls_of pre w HV_pre) as Hc1. rewrite Hrun1 in Hc1. cbn [snd] in Hc1.
  pose proof (insert_embed_step_run data V cfg w1) as HstepV.
  rewrite (Hframe1 V HV_pre), Hv0, Hfn in HstepV.
  assert (Hrest : forall wV,
    insert_embed_step data (V, cfg) w1 = (ok tt, wV) ->
    (forall name, is_Some (obj (heap wV) data !! name)
                  <-> is_Some (obj (heap w1) data !! name)) ->
    exists w2,
      insert_auto_embedding (pre ++ (V, cfg) :: post) data w = (ok tt, w2) /\
      embed_calls V (trace w2) = embed_calls V (trace wV)).
  { intros wV HV HdomV.
    assert (Hwf_postV : embeddable post (obj (heap wV) data)).
    { eapply embeddable_dom; [| exact Hwf_post]. intros name. by rewrite HdomV, Hdom1. }
    destruct (insert_auto_embedding_frame post data wV Hwf_postV) as (w2 & Hrun2 & _).
    exists w2. split.
    - unfold insert_auto_embedding in *. rewrite for_each_app.
      rewrite (bind_run _ _ _ _ _ Hrun1). cbn [for_each].
      rewrite (bind_run _ _ _ _ _ HV). exact Hrun2.
    - pose proof (Hcalls_of post wV HV_post) as Hc. by rewrite Hrun2 in Hc. }
  exists w1. rewrite Hv0.
  destruct (negb (is_none v0)) eqn:Hnull.
  { destruct (Hrest w1 HstepV) as (w2 & Hrun & Hc); [done |].
    exists w2. split; [exact Hrun1 |]. split; [exact Hrun |].
    rewrite Hc, Hc1. destruct v0; try discriminate; by rewrite app_nil_r. }
  destruct v0; try discriminate.
  destruct (obj (heap w1) data !! cfg_source_field_name cfg) as [s |] eqn:Hs.
  - destruct (Hrest _ HstepV) as (w2 & Hrun & Hc).
    { intros name. cbn [heap]. rewrite obj_store_attr_eq, lookup_insert_is_Some.
      split.
      - intros [<- | [_ ?]]; [rewrite (Hframe1 V HV_pre), Hv0; eauto | assumption].
      - intros ?. destruct (decide (V = name)); auto. }
    exists w2. split; [exact Hrun1 |]. split; [exact Hrun |].
    rewrite Hc. cbn [trace]. rewrite embed_calls_app, Hc1. cbn [embed_calls].
    by rewrite bool_decide_eq_true_2.
  - destruct (Hrest w1 HstepV) as (w2 & Hrun & Hc); [done |].
    exists w2. split; [exact Hrun1 |]. split; [exact Hrun |].
    by rewrite Hc, Hc1, app_nil_r.
Qed.






Definition has_embed_fn (e : string * EmbeddingConfig) : bool :=
  match cfg_embed_fn e.2 with
  | Some _ => true
  | None => false
  end.

(** [bulk_insert] of the empty list still calls the batch form of every
    embedding function once, on the empty list of sources; it then adds
    nothing to the session, flushes and returns the empty list, with the
    store as it was. *)
Theorem bulk_insert_empty_list (t : Table) (configs : list (string * EmbeddingConfig))
    (w : World) :
  _auto_embedding_configs t = Some configs ->
  Table_bulk_insert t [] w
  = (ok [],
     {| heap := heap w;
        trace := trace w
                 ++ map (fun e => EvEmbedBatch e.1 []) (List.filter has_embed_fn configs)
                 ++ [EvAdd []; EvFlush] |}).
Proof.
  intros Hcfgs.
  assert (Hrun : forall w0,
    bulk_auto_embedding configs [] w0
    = (ok tt, {| heap := heap w0;
                 trace := trace w0 ++ map (fun e => EvEmbedBatch e.1 [])
                                        (List.filter has_embed_fn configs) |})).
  { unfold bulk_auto_embedding. clear Hcfgs.
    induction configs as [| [V cfg] configs IH]; intros w0; cbn [for_each List.filter map].
    - unfold ret, ok. by rewrite app_nil_r, world_eta.
    - unfold bind. rewrite bulk_embed_step_run by constructor.
      unfold has_embed_fn at 1. cbn [snd].
      destruct (cfg_embed_fn cfg) as [fn |]; cbv zeta.
      + rewrite IH. cbn [heap trace List.filter map fst zip_with assign foldl].
        by rewrite <- app_assoc.
      + apply IH. }
  unfold Table_bulk_insert, table_configs. rewrite Hcfgs. unfold bind at 1. unfold ret at 1.
  rewrite (bind_run _ _ _ _ _ (Hrun w)).
  unfold bulk_persist, bind, session_add_all, session_flush, emit, ret. cbn.
  by rewrite <- !app_assoc.
Qed.


Lemma zip_fst_take {A B} (l : list A) (k : list B) : (zip l k).*1 = take (length k) l.
Proof.
  revert k. induction l as [| x l IH]; intros [| y k]; simpl; try reflexivity.
  by rewrite IH.
Qed.

(** When the batch form returns fewer embeddings than it was given
    sources, nothing is raised: the first records collected get the
    embeddings there are, in order, and the records left over keep their
    null vector. *)
Theorem bulk_insert_short_batch (V : string) (cfg : EmbeddingConfig) (fn : EmbedFn)
    (data : list loc) (w : World) :
  cfg_embed_fn cfg = Some fn ->
  Forall (fun item => is_Some (obj (heap w) item !! V)) data ->
  let items := List.filter (needs_embedding (heap w) V cfg) data in
  let embeddings := get_source_embeddings fn (map (source_of (heap w) cfg) items) in
  NoDup items ->
  exists w',
    bulk_auto_embedding [(V, cfg)] data w = (ok tt, w') /\
    (forall i item e, items !! i = Some item -> embeddings !! i = Some e ->
                      obj (heap w') item !! V = Some e) /\
    (forall i item, items !! i = Some item -> (length embeddings <= i)%nat ->
                    obj (heap w') item !! V = Some VNone).
Proof.
  intros Hfn Hattr items embeddings Hnd.
  unfold bulk_auto_embedding. cbn [for_each]. unfold bind.
  rewrite (bulk_embed_step_run data V cfg w Hattr), Hfn. cbv zeta.
  fold items. fold embeddings. unfold ret.
  eexists. split; [reflexivity |]. cbn [heap]. split.
  - intros i item e Hi He. apply (assign_lookup V _ _ i).
    + by apply NoDup_zip_fst.
    + rewrite lookup_zip_with, Hi. simpl. rewrite He. reflexivity.
  - intros i item Hi Hlen. rewrite obj_assign_other.
    + assert (Hin : item ∈ items) by (apply list_elem_of_lookup; eauto).
      apply elem_of_filter in Hin as [_ Hneed].
      unfold needs_embedding in Hneed. apply andb_true_iff in Hneed as [Hv _].
      by apply bool_decide_eq_true in Hv.
    + rewrite zip_fst_take. intros [j Hj]%list_elem_of_lookup.
      apply lookup_take_Some in Hj as [Hj Hlt].
      pose proof (NoDup_lookup _ _ _ _ Hnd Hi Hj). lia.
Qed.

Lemma embeddable_insert configs (r : record) V v :
  embeddable configs r -> embeddable configs (<[V := v]> r).
Proof.
  intros H. eapply Forall_impl; [exact H |]. intros e [He1 He2].
  split; [exact He1 |]. rewrite lookup_insert_is_Some. destruct (decide (V = e.1)); auto.
Qed.

(** [bulk_insert] of a single record and [insert] of that record leave the
    same store, provided each batch form, on one source, returns the one
    embedding the single form returns. *)
Theorem bulk_insert_singleton_embeds_like_insert
    (configs : list (string * EmbeddingConfig)) (data : loc) (w : World) :
  embeddable configs (obj (heap w) data) ->
  Forall (fun e => forall fn, cfg_embed_fn e.2 = Some fn ->
                   forall s, get_source_embeddings fn [s] = [get_source_embedding fn s])
         configs ->
  exists wi wb,
    insert_auto_embedding configs data w = (ok tt, wi) /\
    bulk_auto_embedding configs [data] w = (ok tt, wb) /\
    heap wi = heap wb.
Proof.
  intros Hwf Hagree.
  assert (Hgen : forall w1 w2,
    heap w1 = heap w2 ->
    embeddable configs (obj (heap w1) data) ->
    exists wi wb,
      insert_auto_embedding configs data w1 = (ok tt, wi) /\
      bulk_auto_embedding configs [data] w2 = (ok tt, wb) /\
      heap wi = heap wb).
  { clear Hwf. unfold insert_auto_embedding, bulk_auto_embedding.
    induction Hagree as [| [V cfg] configs HV _ IH]; intros w1 w2 Hh Hwf; cbn [for_each].
    - exists w1, w2. by split_and!.
    - apply Forall_cons in Hwf as [[[fn Hfn] [v Hv]] Hwf]. cbn [fst snd] in Hfn, Hv, HV.
      assert (Hattr : Forall (fun item => is_Some (obj (heap w2) item !! V)) [data]).
      { constructor; [| constructor]. rewrite <- Hh, Hv. eauto. }
      unfold bind.
      rewrite insert_embed_step_run, (bulk_embed_step_run [data] V cfg w2 Hattr), Hv, Hfn.
      cbv zeta. cbn [List.filter].
      destruct (negb (is_none v)) eqn:Hnull.
      { assert (Hneed : needs_embedding (heap w2) V cfg data = false).
        { unfold needs_embedding. rewrite <- Hh, Hv.
          rewrite bool_decide_eq_false_2; [reflexivity |].
          intros [= ->]. discriminate. }
        rewrite Hneed. cbn [map zip_with assign foldl]. unfold ok.
        apply IH; [exact Hh | exact Hwf]. }
      destruct v; try discriminate.
      destruct (obj (heap w1) data !! cfg_source_field_name cfg) as [s |] eqn:Hs.
      + assert (Hneed : needs_embedding (heap w2) V cfg data = true).
        { unfold needs_embedding. rewrite <- Hh, Hv, Hs.
          rewrite !bool_decide_eq_true_2; eauto. }
        assert (Hsrc : source_of (heap w2) cfg data = s).
        { unfold source_of. by rewrite <- Hh, Hs. }
        rewrite Hneed. cbn [map]. rewrite Hsrc, (HV fn Hfn s).
        unfold ok. cbn [zip_with assign foldl fst snd].
        apply IH; [by rewrite Hh |]. cbn [heap]. rewrite obj_store_attr_eq.
        by apply embeddable_insert.
      + assert (Hneed : needs_embedding (heap w2) V cfg data = false).
        { unfold needs_embedding. rewrite <- Hh, Hv, Hs.
          rewrite (bool_decide_eq_false_2 (is_Some None)); [apply andb_false_r |].
          intros [? ?]. discriminate. }
        rewrite Hneed. cbn [map zip_with assign foldl]. unfold ok.
        apply IH; [exact Hh | exact Hwf]. }
  by apply Hgen.
Qed.


(** ** What a successful construction guarantees *)

(** The table object construction returns, given what the steps before
    its end produced. *)
Definition table_of (schema : Schema) (sa_table : SaTable)
    (configs : option (list (string * EmbeddingConfig))) (tcol : option Column) : Table :=
  let columns := tbl_columns (schema_table schema) in
  {| _table_model := schema;
     _sa_table := sa_table;
     _columns := columns;
     _vector_columns := filter_vector_columns columns;
     _text_columns := filter_text_columns columns;
     _auto_embedding_configs := configs;
     _vector_column := only_one (filter_vector_columns columns);
     _text_column := tcol |}.

Lemma Table_init_ok_inv schema vector_column text_column exist_ok w t w' :
  Table_init schema vector_column text_column exist_ok w = (ok t, w') ->
  recognized (schema_type schema) = true /\
  vector_column = None /\
  exists sa_table configs tcol,
    t = table_of schema sa_table configs tcol /\
    w' = {| heap := heap w; trace := trace w ++ [EvCreateAll sa_table exist_ok] |} /\
    negb exist_ok && eng_has_table engine (trace w) (tbl_name sa_table) = false /\
    match pydantic_fields schema with
    | Some fields =>
        exists t1,
          _auto_create_vector_index (classify_fields fields).1 (schema_table schema) = ok t1 /\
          _auto_create_fulltext_index (classify_fields fields).2 t1 = ok sa_table /\
          configs = Some (_setup_auto_embedding (classify_fields fields).1)
    | None => sa_table = schema_table schema /\ configs = None
    end /\
    match text_column with
    | Some name =>
        exists c, check_text_column (tbl_columns (schema_table schema)) name = ok c /\
                  tcol = Some c
    | None => tcol = only_one (filter_text_columns (tbl_columns (schema_table schema)))
    end.
Proof.
  unfold Table_init. destruct (recognized (schema_type schema)); cbn [negb]; [| discriminate].
  intros H. split; [reflexivity |].
  assert (Hend : forall sa_table configs w0,
    (create_all sa_table exist_ok ;;;
     vc <-- match vector_column with
            | Some name =>
                c <-- lift (check_vector_column (tbl_columns (schema_table schema)) name) ;;
                ret (Some c)
            | None => ret (only_one (filter_vector_columns (tbl_columns (schema_table schema))))
            end ;;
     tc <-- match text_column with
            | Some name =>
                c <-- lift (check_text_column (tbl_columns (schema_table schema)) name) ;;
                ret (Some c)
            | None => ret (only_one (filter_text_columns (tbl_columns (schema_table schema))))
            end ;;
     ret {| _table_model := schema;
            _sa_table := sa_table;
            _columns := tbl_columns (schema_table schema);
            _vector_columns := filter_vector_columns (tbl_columns (schema_table schema));
            _text_columns := filter_text_columns (tbl_columns (schema_table schema));
            _auto_embedding_configs := configs;
            _vector_column := vc;
            _text_column := tc |}) w0 = (ok t, w') ->
    vector_column = None /\
    exists tcol,
      t = table_of schema sa_table configs tcol /\
      w' = {| heap := heap w0; trace := trace w0 ++ [EvCreateAll sa_table exist_ok] |} /\
      negb exist_ok && eng_has_table engine (trace w0) (tbl_name sa_table) = false /\
      match text_column with
      | Some name =>
          exists c, check_text_column (tbl_columns (schema_table schema)) name = ok c /\
                    tcol = Some c
      | None => tcol = only_one (filter_text_columns (tbl_columns (schema_table schema)))
      end).
  { intros sa_table configs w0.
    unfold create_all, bind, history, emit, lift, ret, throw. cbn [trace heap].
    destruct (negb exist_ok && eng_has_table engine (trace w0) (tbl_name sa_table)) eqn:Hex;
      [discriminate |].
    destruct vector_column as [name |].
    { destruct (check_vector_column_raises
                  (tbl_columns (schema_table schema)) name) as [msg ->]. discriminate. }
    destruct text_column as [name |].
    - destruct (check_text_column (tbl_columns (schema_table schema)) name) as [e | c];
        [discriminate |].
      intros [= <- <-]. split; [reflexivity |]. exists (Some c).
      split_and!; [reflexivity | reflexivity | reflexivity | eauto].
    - intros [= <- <-]. split; [reflexivity |]. eexists.
      split_and!; reflexivity. }
  unfold bind at 1 in H.
  destruct (pydantic_fields schema) as [fields |].
  - destruct (classify_fields fields) as [vector_fields text_fields]. cbn [fst snd].
    unfold bind, lift, ret in H.
    destruct (_auto_create_vector_index vector_fields (schema_table schema)) as [e | t1];
      [discriminate |].
    destruct (_auto_create_fulltext_index text_fields t1) as [e | t2] eqn:Hf; [discriminate |].
    apply Hend in H as (Hvc & tcol & -> & -> & Hex & Htc).
    split; [exact Hvc |]. exists t2, (Some (_setup_auto_embedding vector_fields)), tcol.
    split_and!; try done. exists t1. by split_and!.
  - unfold ret at 1 in H. apply Hend in H as (Hvc & tcol & -> & -> & Hex & Htc).
    split; [exact Hvc |]. exists (schema_table schema), None, tcol. by split_and!.
Qed.


(** A pass that returns has only appended indexes. *)
Lemma for_result_appends fields (step : SaTable -> string * FieldInfo -> result SaTable) :
  (forall t e t', step t e = ok t' -> exists added, t' = add_indexes t added) ->
  forall t t', for_result fields t step = ok t' -> exists added, t' = add_indexes t added.
Proof.
  intros Hstep. induction fields as [| e fields IH]; intros t t'; cbn [for_result].
  - intros [= <-]. exists []. by rewrite add_indexes_nil.
  - destruct (step t e) as [err | t1] eqn:H1; cbn [rbind]; [discriminate |].
    intros H. destruct (Hstep _ _ _ H1) as (a1 & ->).
    destruct (IH _ _ H) as (a2 & ->). exists (a1 ++ a2). by rewrite add_indexes_app.
Qed.

Lemma ensure_index_appends kind f key index t t' :
  ensure_index kind f key index t = ok t' -> exists added, t' = add_indexes t added.
Proof.
  unfold ensure_index. destruct (comprehend kind f (tbl_indexes t)); cbn [rbind]; [discriminate |].
  case_bool_decide; intros [= <-].
  - exists []. by rewrite add_indexes_nil.
  - by exists [index].
Qed.

Lemma auto_create_indexes_append vector_fields text_fields t t1 t2 :
  _auto_create_vector_index vector_fields t = ok t1 ->
  _auto_create_fulltext_index text_fields t1 = ok t2 ->
  exists added, t2 = add_indexes t added.
Proof.
  intros H1 H2.
  apply for_result_appends in H1 as (a1 & ->).
  2:{ intros s e s'. rewrite vector_step_eq. destruct (skipped e).
      - intros [= <-]. exists []. by rewrite add_indexes_nil.
      - apply ensure_index_appends. }
  apply for_result_appends in H2 as (a2 & ->).
  2:{ intros s e s'. rewrite fulltext_step_eq. destruct (skipped e).
      - intros [= <-]. exists []. by rewrite add_indexes_nil.
      - apply ensure_index_appends. }
  exists (a1 ++ a2). by rewrite add_indexes_app.
Qed.

(** A construction that returns a table: no default vector column was
    asked for by name; the engine was reached once, by the one create call
    for the table, with the caller's exist-ok flag, and when that flag is
    off the table did not exist; the table keeps the name, columns and
    primary key of the schema's table and all its indexes, first and in
    order; the default vector column is the only vector column, if there is
    exactly one; the default text column is the one asked for by name,
    which the text filter keeps, or else the only text column, if there is
    exactly one; and the table has embedding configurations exactly when
    the schema has field metadata. *)
Theorem successful_construction (schema : Schema) (vector_column text_column : option string)
    (exist_ok : bool) (w w' : World) (t : Table) :
  Table_init schema vector_column text_column exist_ok w = (ok t, w') ->
  vector_column = None /\
  heap w' = heap w /\
  trace w' = trace w ++ [EvCreateAll (_sa_table t) exist_ok] /\
  (exist_ok = false -> eng_has_table engine (trace w) (tbl_name (_sa_table t)) = false) /\
  tbl_name (_sa_table t) = tbl_name (schema_table schema) /\
  tbl_columns (_sa_table t) = tbl_columns (schema_table schema) /\
  tbl_primary_key (_sa_table t) = tbl_primary_key (schema_table schema) /\
  tbl_indexes (schema_table schema) `prefix_of` tbl_indexes (_sa_table t) /\
  _columns t = tbl_columns (schema_table schema) /\
  _vector_columns t = filter_vector_columns (_columns t) /\
  _text_columns t = filter_text_columns (_columns t) /\
  _vector_column t = only_one (_vector_columns t) /\
  (text_column = None -> _text_column t = only_one (_text_columns t)) /\
  (forall name, text_column = Some name ->
     exists c, _text_column t = Some c /\ columns_get (_columns t) name = Some c /\
               c ∈ _text_columns t) /\
  (is_Some (_auto_embedding_configs t) <-> is_Some (pydantic_fields schema)).
Proof.
  intros H.
  apply Table_init_ok_inv in H
    as (_ & Hvc & sa_table & configs & tcol & -> & -> & Hex & Hfields & Htc).
  assert (Happ : exists added, sa_table = add_indexes (schema_table schema) added).
  { destruct (pydantic_fields schema) as [fields |].
    - destruct Hfields as (t1 & H1 & H2 & _). by eapply auto_create_indexes_append.
    - destruct Hfields as [-> _]. exists []. by rewrite add_indexes_nil. }
  destruct Happ as (added & ->). cbn.
  split_and!; try reflexivity; try assumption.
  - intros ->. exact Hex.
  - by apply prefix_app_r.
  - intros ->. exact Htc.
  - intros name ->. destruct Htc as (c & Hc & ->).
    apply check_text_column_ok_inv in Hc as [Hget Hinst].
    exists c. split; [reflexivity |]. split; [exact Hget |].
    unfold filter_text_columns. apply elem_of_filter. split; [| exact Hinst].
    by apply (columns_get_name _ _ _ Hget).
  - destruct (pydantic_fields schema).
    + destruct Hfields as (t1 & _ & _ & ->). split; eauto.
    + destruct Hfields as [_ ->]. split; intros [? ?]; discriminate.
Qed.

(** A table bound to a schema without field metadata has no embedding
    configurations at all, not even an empty dictionary: [insert],
    [bulk_insert] and [update] on it raise an attribute error and leave the
    store and the trace untouched. *)
Theorem table_without_field_metadata_cannot_write (schema : Schema)
    (vector_column text_column : option string) (exist_ok : bool) (w w' : World) (t : Table) :
  pydantic_fields schema = None ->
  Table_init schema vector_column text_column exist_ok w = (ok t, w') ->
  _sa_table t = schema_table schema /\
  forall (w0 : World) (data : loc) (items : list loc) (values : record)
         (filters : option Filters),
    Table_insert t data w0 = (raise (AttributeError "'Table' object has no attribute '_auto_embedding_configs'"),
       w0) /\
    Table_bulk_insert t items w0 = (raise (AttributeError "'Table' object has no attribute '_auto_embedding_configs'"),
       w0) /\
    Table_update t values filters w0 = (raise (AttributeError "'Table' object has no attribute '_auto_embedding_configs'"),
       w0).
Proof.
  intros Hnone H.
  apply Table_init_ok_inv in H
    as (_ & _ & sa_table & configs & tcol & -> & _ & _ & Hfields & _).
  rewrite Hnone in Hfields. destruct Hfields as [-> ->].
  split; [reflexivity |]. intros w0 data items values filters.
  split_and!; reflexivity.
Qed.

(** ** More on [update] and [query] *)









(** ** An index without a type *)

(** The error of [get_index_type] on an index built without
    [mysql_prefix]. *)
Definition no_index_type : exn :=
  AttributeError "'NoneType' object has no attribute 'lower'".

Lemma comprehend_untyped kind f before plain after :
  readable kind f before ->
  dialect_kwargs plain !! "mysql_prefix" = None ->
  comprehend kind f (before ++ plain :: after) = raise no_index_type.
Proof.
  intros Hr Hp. induction Hr as [| i rest [Hty Hi] _ IH]; cbn [app comprehend].
  - unfold get_index_type. rewrite Hp. reflexivity.
  - destruct (get_index_type i) as [e | ty] eqn:Hti; [discriminate |]. cbn [rbind].
    case_bool_decide as Hk.
    + subst ty. specialize (Hi eq_refl). destruct (f i); [discriminate |].
      cbn [rbind]. rewrite IH. reflexivity.
    + exact IH.
Qed.

Lemma sync_untyped kind f (key : string * FieldInfo -> string) (mk : string * FieldInfo -> Index)
    (step : SaTable -> string * FieldInfo -> result SaTable) fields t before plain after :
  (forall t e, step t e = if skipped e then ok t else ensure_index kind f (key e) (mk e) t) ->
  tbl_indexes t = before ++ plain :: after ->
  readable kind f before ->
  dialect_kwargs plain !! "mysql_prefix" = None ->
  Exists (fun e => skipped e = false) fields ->
  for_result fields t step = raise no_index_type.
Proof.
  intros Hstep Ht Hr Hp. induction fields as [| e fields IH]; intros Hex.
  - by apply Exists_nil in Hex.
  - cbn [for_result]. rewrite Hstep. destruct (skipped e) eqn:Hs.
    + cbn [rbind ok]. apply IH. apply Exists_cons in Hex as [He | Hex]; [congruence | exact Hex].
    + unfold ensure_index. rewrite Ht, (comprehend_untyped _ _ _ _ _ Hr Hp). reflexivity.
Qed.

(** An ordinary index, built without [mysql_prefix], stops index
    synchronisation: on a table that has one, with readable indexes before
    it, the vector pass raises as soon as one vector field is not skipped,
    and so does the fulltext pass for a text field; the error is the
    attribute error of [None.lower()]. Construction on a schema with such a
    table and such a vector field raises it before anything reaches the
    engine. *)
Theorem untyped_index_stops_construction (schema : Schema) (fields : list (string * FieldInfo))
    (before after : list Index) (plain : Index) :
  tbl_indexes (schema_table schema) = before ++ plain :: after ->
  dialect_kwargs plain !! "mysql_prefix" = None ->
  (forall vector_fields,
     readable "vector" first_expression_text before ->
     Exists (fun e => skipped e = false) vector_fields ->
     _auto_create_vector_index vector_fields (schema_table schema) = raise no_index_type) /\
  (forall text_fields,
     readable "fulltext" first_column_name before ->
     Exists (fun e => skipped e = false) text_fields ->
     _auto_create_fulltext_index text_fields (schema_table schema) = raise no_index_type) /\
  (forall vector_column text_column exist_ok w,
     recognized (schema_type schema) = true ->
     pydantic_fields schema = Some fields ->
     readable "vector" first_expression_text before ->
     Exists (fun e => skipped e = false) (classify_fields fields).1 ->
     Table_init schema vector_column text_column exist_ok w = (raise no_index_type, w)).
Proof.
  intros Ht Hp.
  assert (Hv : forall vector_fields,
     readable "vector" first_expression_text before ->
     Exists (fun e => skipped e = false) vector_fields ->
     _auto_create_vector_index vector_fields (schema_table schema) = raise no_index_type).
  { intros vector_fields Hr Hex.
    exact (sync_untyped "vector" first_expression_text vector_key vector_index_of
             vector_index_step vector_fields _ before plain after
             vector_step_eq Ht Hr Hp Hex). }
  split; [exact Hv |]. split.
  - intros text_fields Hr Hex.
    exact (sync_untyped "fulltext" first_column_name fst fulltext_index_of
             fulltext_index_step text_fields _ before plain after
             fulltext_step_eq Ht Hr Hp Hex).
  - intros vector_column text_column exist_ok w Hrec Hfields Hr Hex.
    unfold Table_init. rewrite Hrec, Hfields. cbn [negb].
    destruct (classify_fields fields) as [vector_fields text_fields]. cbn [fst] in Hex.
    unfold bind at 1. unfold bind at 1. unfold lift at 1.
    rewrite (Hv vector_fields Hr Hex). reflexivity.
Qed.


End Collaborators.

End TableBinding.

Export TableBinding.

(** * A worked schema

    The scenario of the specification: a table of chunks with a text field
    [text], a vector field [embedding] sourced from [text], and a second
    vector field [title_vec] sourced from [title]. *)

Module Scenario.

(** An embedding function: the length of the text, as a one-component
    vector; the batch form embeds each source. *)
Definition embed_one (v : value) : value :=
  match v with
  | VStr s => VVector [Z.of_nat (String.length s)]
  | _ => VVector []
  end.

Definition E : EmbedFn :=
  {| get_source_embedding := embed_one;
     get_source_embeddings := map embed_one |}.

Definition distance_expression (column metric : string) : string :=
  "VEC_" +:+ metric +:+ "_DISTANCE(" +:+ column +:+ ")".

(** Filters are (column, value) pairs, compiled to equality clauses; a
    filter on an unknown column raises. *)
Definition compile_filter (columns : list Column) (f : string * value) : result string :=
  if columns_contains columns f.1 then ok (f.1 +:+ " = " +:+ py_str f.2)
  else raise (KeyError f.1).

Fixpoint compile_filters (columns : list Column) (fs : list (string * value))
  : result (list string) :=
  match fs with
  | [] => ok []
  | f :: fs' =>
      c <- compile_filter columns f ;;;
      cs <- compile_filters columns fs' ;;;
      ok (c :: cs)
  end.

Definition build_filter_clauses (filters : option (list (string * value)))
    (columns : list Column) : result (list string) :=
  match filters with
  | None => ok []
  | Some fs => compile_filters columns fs
  end.

(** An engine with no table yet, which numbers a record on refresh, finds
    no rows and updates three. *)
Definition engine : Engine (Clause := string) :=
  {| eng_has_table := fun _ _ => false;
     eng_refresh := fun _ r => <["id" := VInt 1]> r;
     eng_select := fun _ _ => [];
     eng_update := fun _ _ => 3 |}.

Definition column (name : string) (id : nat) (c : sa_class) (pk : bool) : Column :=
  {| col_name := name;
     col_type := {| ty_id := id; ty_class := c; ty_dim := None |};
     col_table := Some "chunks";
     col_primary_key := pk |}.

Definition id_column : Column := column "id" 1 Integer true.
Definition title_column : Column := column "title" 2 String_ false.
Definition text_column : Column := column "text" 3 Text false.
Definition title_vec_column : Column := column "title_vec" 4 VectorType false.
Definition embedding_column : Column := column "embedding" 5 VectorType false.

Definition chunks : SaTable :=
  {| tbl_name := "chunks";
     tbl_columns := [id_column; title_column; text_column; title_vec_column; embedding_column];
     tbl_indexes := [];
     tbl_primary_key := [id_column] |}.

Definition plain_field : FieldInfo :=
  {| field_type := None; embed_fn := None; source_field := None; skip_index := None;
     distance_metric := None; algorithm := None; fts_parser := None |}.

Definition text_field : FieldInfo :=
  {| field_type := Some "text"; embed_fn := None; source_field := None; skip_index := None;
     distance_metric := None; algorithm := None; fts_parser := None |}.

Definition vector_field (source : string) (metric : option string) : FieldInfo :=
  {| field_type := Some "vector"; embed_fn := Some E; source_field := Some source;
     skip_index := None; distance_metric := metric; algorithm := None; fts_parser := None |}.

Definition Chunk : Schema :=
  {| schema_type := TableModelMeta;
     schema_table := chunks;
     schema_tablename := "chunks";
     pydantic_fields :=
       Some [ ("id", plain_field); ("title", plain_field); ("text", text_field);
              ("title_vec", vector_field "title" (Some "L2"));
              ("embedding", vector_field "text" None) ] |}.

Definition title_vec_config : EmbeddingConfig :=
  {| cfg_embed_fn := Some E;
     cfg_vector_field := vector_field "title" (Some "L2");
     cfg_vector_field_name := "title_vec";
     cfg_source_field_name := "title" |}.

Definition embedding_config : EmbeddingConfig :=
  {| cfg_embed_fn := Some E;
     cfg_vector_field := vector_field "text" None;
     cfg_vector_field_name := "embedding";
     cfg_source_field_name := "text" |}.

Definition configs : list (string * EmbeddingConfig) :=
  [("title_vec", title_vec_config); ("embedding", embedding_config)].

(** The table after synchronisation: one L2 vector index, one COSINE
    vector index, one full-text index. *)
Definition chunks_indexed : SaTable :=
  add_indexes chunks
    [ VectorIndex distance_expression "vec_idx_title_vec_l2" "title_vec" "L2" "HNSW";
      VectorIndex distance_expression "vec_idx_embedding_cosine" "embedding" "COSINE" "HNSW";
      FullTextIndex "fts_idx_text" "text" "MULTILINGUAL" ].

Definition table : Table :=
  {| _table_model := Chunk;
     _sa_table := chunks_indexed;
     _columns := tbl_columns chunks;
     _vector_columns := [title_vec_column; embedding_column];
     _text_columns := [title_column; text_column];
     _auto_embedding_configs := Some configs;
     _vector_column := None;
     _text_column := None |}.

Definition empty_world : World (Clause := string) := {| heap := ∅; trace := [] |}.

(** Construction of the table from the schema. *)
Example Table_init_Chunk :
  Table_init distance_expression engine Chunk None None true empty_world
  = (ok table, {| heap := ∅; trace := [EvCreateAll chunks_indexed true] |}).
Proof. vm_compute. reflexivity. Qed.

(** Asking for [embedding] as the default vector column makes construction
    fail, although the column is vector-typed. *)
Example Table_init_Chunk_vector_column :
  (Table_init distance_expression engine Chunk (Some "embedding") None true empty_world).1
  = raise (ValueError "Invalid vector column: chunks.embedding").
Proof. vm_compute. reflexivity. Qed.

(** A record to insert: texts given, vectors missing. *)
Definition hello : record :=
  list_to_map [ ("id", VNone); ("title", VStr "Hi"); ("text", VStr "hello");
                ("title_vec", VNone); ("embedding", VNone) ].

(** A record whose [embedding] the caller supplied. *)
Definition supplied : record :=
  list_to_map [ ("id", VNone); ("title", VStr "Yo"); ("text", VStr "hey");
                ("title_vec", VNone); ("embedding", VVector [9; 9]) ].

Definition world_of (records : list record) : World (Clause := string) :=
  {| heap := list_to_map (imap (fun i r => (i, r)) records); trace := [] |}.

Lemma insert_fills_missing_vector_witness :
  embeddable configs (obj (heap (world_of [hello])) 0%nat) /\
  exists w2 w3,
    insert_auto_embedding configs 0%nat (world_of [hello]) = (ok tt, w2) /\
    Table_insert engine table 0%nat (world_of [hello]) = (ok 0%nat, w3) /\
    obj (heap w2) 0%nat !! "embedding" = Some (VVector [5]).
Proof.
  assert (Hwf : embeddable configs (obj (heap (world_of [hello])) 0%nat)).
  { repeat constructor; eexists; vm_compute; reflexivity. }
  assert (Hnd : NoDup (dict_keys configs)).
  { apply (bool_decide_unpack _). vm_compute. exact I. }
  split; [exact Hwf |].
  destruct (insert_fills_missing_vector engine table configs
              [("title_vec", title_vec_config)] [] "embedding" embedding_config E
              0%nat (world_of [hello]) eq_refl eq_refl Hnd eq_refl Hwf)
    as (w1 & w2 & w3 & _ & Hrun & Hins & _ & _ & Hset & _).
  exists w2, w3. split; [exact Hrun |]. split; [exact Hins |].
  destruct Hset as (s & _ & Hs & Hv).
  - vm_compute. reflexivity.
  - eexists. vm_compute. reflexivity.
  - rewrite Hv. assert (Hs' : Some (VStr "hello") = Some s).
    { rewrite <- Hs; [vm_compute; reflexivity |].
      intros Hin. apply list_elem_of_singleton in Hin. discriminate. }
    injection Hs' as <-. reflexivity.
Defined.


(** When the source of a configuration is the vector field of an earlier
    one, the later embedding is computed from the vector the earlier round
    stored, not from the null the caller gave. *)
Example insert_chained_sources :
  let chained :=
    [ ("embedding", embedding_config);
      ("summary_vec",
       {| cfg_embed_fn := Some E;
          cfg_vector_field := vector_field "embedding" None;
          cfg_vector_field_name := "summary_vec";
          cfg_source_field_name := "embedding" |}) ] in
  let r : record :=
    list_to_map [("text", VStr "hello"); ("embedding", VNone); ("summary_vec", VNone)] in
  let w' := (insert_auto_embedding chained 0%nat (world_of [r])).2 in
  obj (heap w') 0%nat !! "embedding" = Some (VVector [5]) /\
  obj (heap w') 0%nat !! "summary_vec" = Some (embed_one (VVector [5])) /\
  trace w' = [EvEmbed "embedding" (VStr "hello"); EvEmbed "summary_vec" (VVector [5])].
Proof. vm_compute. repeat split. Qed.


(** Three records for [bulk_insert]; the second has its [embedding]. *)
Definition hi : record :=
  list_to_map [ ("id", VNone); ("title", VStr "Ho"); ("text", VStr "hi");
                ("title_vec", VNone); ("embedding", VNone) ].

Definition batch : list record := [hello; supplied; hi].

Lemma bulk_insert_batches_once_witness :
  bulk_embeddable configs (heap (world_of batch)) [0; 1; 2]%nat /\
  exists w3 w4,
    bulk_auto_embedding configs [0; 1; 2]%nat (world_of batch) = (ok tt, w3) /\
    Table_bulk_insert engine table [0; 1; 2]%nat (world_of batch) = (ok [0; 1; 2]%nat, w4) /\
    batch_calls "embedding" (trace w4) = [[VStr "hello"; VStr "hi"]] /\
    obj (heap w3) 0%nat !! "embedding" = Some (VVector [5]) /\
    obj (heap w3) 2%nat !! "embedding" = Some (VVector [2]).
Proof.
  assert (Hwf : bulk_embeddable configs (heap (world_of batch)) [0; 1; 2]%nat).
  { repeat constructor; eexists; vm_compute; reflexivity. }
  assert (Hnd : NoDup (dict_keys configs)).
  { apply (bool_decide_unpack _). vm_compute. exact I. }
  split; [exact Hwf |].
  destruct (bulk_insert_batches_once engine table configs
              [("title_vec", title_vec_config)] [] "embedding" embedding_config E
              [0; 1; 2]%nat (world_of batch) eq_refl eq_refl Hnd eq_refl Hwf)
    as (w1 & w2 & w3 & w4 & Hpre & _ & Hrun & Hins & _ & _ & Hcalls & _ & _ & Hpos).
  vm_compute in Hpre. injection Hpre as <-.
  exists w3, w4. split; [exact Hrun |]. split; [exact Hins |].
  split; [rewrite Hcalls; vm_compute; reflexivity |].
  assert (Hitems : NoDup [0; 2]%nat).
  { apply (bool_decide_unpack _). vm_compute. exact I. }
  split.
  - apply (Hpos Hitems 0%nat); vm_compute; reflexivity.
  - apply (Hpos Hitems 1%nat); vm_compute; reflexivity.
Defined.

(** When the list holds the same object twice, it is collected twice and
    assigned twice; the second assignment is the one that stays. *)
Example bulk_insert_aliased_records :
  let numbering : EmbedFn :=
    {| get_source_embedding := embed_one;
       get_source_embeddings := imap (fun i _ => VVector [Z.of_nat i]) |} in
  let cfg :=
    {| cfg_embed_fn := Some numbering;
       cfg_vector_field := vector_field "text" None;
       cfg_vector_field_name := "embedding";
       cfg_source_field_name := "text" |} in
  let w' := (bulk_auto_embedding [("embedding", cfg)] [0; 0]%nat (world_of [hello])).2 in
  trace w' = [EvEmbedBatch "embedding" [VStr "hello"; VStr "hello"]] /\
  obj (heap w') 0%nat !! "embedding" = Some (VVector [1]).
Proof. vm_compute. repeat split. Qed.


(** The table of chunks with the L2 index on [title_vec] declared by hand. *)
Definition chunks_l2 : SaTable :=
  add_indexes chunks
    [ VectorIndex distance_expression "vec_idx_title_vec_l2" "title_vec" "L2" "HNSW" ].

Lemma chunks_l2_readable (kind : string) (f : Index -> result string) :
  is_ok (f (VectorIndex distance_expression "vec_idx_title_vec_l2" "title_vec" "L2" "HNSW"))
  = true ->
  readable kind f (tbl_indexes chunks_l2).
Proof.
  intros Hf. constructor; [| constructor].
  split; [reflexivity | intros _; exact Hf].
Qed.

Lemma index_synchronisation_idempotent_witness :
  readable "vector" first_expression_text (tbl_indexes chunks_l2) /\
  readable "fulltext" first_column_name (tbl_indexes chunks_l2) /\
  exists added_v added_f,
    _auto_create_vector_index distance_expression
      [("title_vec", vector_field "title" (Some "L2")); ("embedding", vector_field "text" None)]
      chunks_l2 = ok (add_indexes chunks_l2 added_v) /\
    _auto_create_fulltext_index [("text", text_field)] (add_indexes chunks_l2 added_v)
    = ok (add_indexes (add_indexes chunks_l2 added_v) added_f) /\
    _auto_create_vector_index distance_expression
      [("title_vec", vector_field "title" (Some "L2")); ("embedding", vector_field "text" None)]
      (add_indexes (add_indexes chunks_l2 added_v) added_f)
    = ok (add_indexes (add_indexes chunks_l2 added_v) added_f) /\
    _auto_create_fulltext_index [("text", text_field)]
      (add_indexes (add_indexes chunks_l2 added_v) added_f)
    = ok (add_indexes (add_indexes chunks_l2 added_v) added_f).
Proof.
  assert (Hv : readable "vector" first_expression_text (tbl_indexes chunks_l2))
    by (apply chunks_l2_readable; reflexivity).
  assert (Hf : readable "fulltext" first_column_name (tbl_indexes chunks_l2)).
  { constructor; [| constructor]. split; [reflexivity | intros [=]]. }
  split; [exact Hv |]. split; [exact Hf |].
  destruct (index_synchronisation_idempotent distance_expression
              [("title_vec", vector_field "title" (Some "L2"));
               ("embedding", vector_field "text" None)]
              [("text", text_field)] chunks_l2 Hv Hf)
    as (added_v & added_f & H1 & H2 & _ & _ & _ & _ & H3 & H4).
  exists added_v, added_f. split; [exact H1 |]. split; [exact H2 |].
  split; [exact H3 | exact H4].
Defined.

(** Run on the scenario, synchronisation appends the three indexes, and
    run again it appends none; run on the table that has the L2 index
    already, it appends the other two. *)
Example synchronisation_of_chunks :
  (t1 <- _auto_create_vector_index distance_expression
           [("title_vec", vector_field "title" (Some "L2"));
            ("embedding", vector_field "text" None)] chunks_l2 ;;;
   _auto_create_fulltext_index [("text", text_field)] t1) = ok chunks_indexed /\
  (t1 <- _auto_create_vector_index distance_expression
           [("title_vec", vector_field "title" (Some "L2"));
            ("embedding", vector_field "text" None)] chunks ;;;
   _auto_create_fulltext_index [("text", text_field)] t1) = ok chunks_indexed /\
  (t1 <- _auto_create_vector_index distance_expression
           [("title_vec", vector_field "title" (Some "L2"));
            ("embedding", vector_field "text" None)] chunks_indexed ;;;
   _auto_create_fulltext_index [("text", text_field)] t1) = ok chunks_indexed.
Proof. split_and!; vm_compute; reflexivity. Qed.

Lemma update_injects_embedding_witness :
  Forall (fun e => is_Some (cfg_embed_fn e.2)) configs /\
  exists values' w',
    update_auto_embedding configs {[ "text" := VStr "hello" ]} empty_world = (ok values', w') /\
    Table_update build_filter_clauses engine table {[ "text" := VStr "hello" ]}
      (Some [("id", VInt 5)]) empty_world
    = (ok ReturnsNone,
       {| heap := heap w';
          trace := trace w' ++ [EvUpdate (update_stmt table ["id = 5"] values')] |}) /\
    values' !! "embedding" = Some (VVector [5]) /\
    embed_calls "embedding" (trace w') = [VStr "hello"].
Proof.
  assert (Hfns : Forall (fun e => is_Some (cfg_embed_fn e.2)) configs).
  { repeat constructor; eexists; reflexivity. }
  assert (Hnd : NoDup (dict_keys configs)).
  { apply (bool_decide_unpack _). vm_compute. exact I. }
  split; [exact Hfns |].
  destruct (update_injects_embedding build_filter_clauses engine table configs
              [("title_vec", title_vec_config)] [] "embedding" embedding_config E
              {[ "text" := VStr "hello" ]} (Some [("id", VInt 5)]) empty_world
              eq_refl eq_refl Hnd Hfns eq_refl)
    as (values' & w' & Hrun & Hupd & Hset & _).
  exists values', w'. split; [exact Hrun |]. split; [exact Hupd |].
  destruct (Hset (VStr "hello")) as [Hv Hc]; [vm_compute; reflexivity .. |].
  split; [exact Hv | exact Hc].
Defined.

(** C7, a counterexample to the sentence of the specification: the engine reports an outcome, three
    rows, and [update] hands back nothing. *)
Lemma update_returns_outcome_counterexample :
  let r := Table_update build_filter_clauses engine table {[ "text" := VStr "hello" ]}
             (Some [("id", VInt 5)]) empty_world in
  (exists stmt, last (trace r.2) = Some (EvUpdate stmt) /\
                eng_update engine (removelast (trace r.2)) stmt = 3) /\
  r.1 = ok ReturnsNone /\
  r.1 <> ok (ReturnsOutcome 3).
Proof.
  cbv zeta. split; [| split].
  - eexists. split; vm_compute; reflexivity.
  - vm_compute. reflexivity.
  - vm_compute. discriminate.
Qed.

Lemma query_order_by_unknown_column_witness :
  compiled_filters build_filter_clauses table (Some [("id", VInt 5)]) = ok ["id = 5"] /\
  Table_query build_filter_clauses engine table (Some [("id", VInt 5)])
    (OrderByStr "unknown_col") None None empty_world
  = (raise (KeyError "Unknown order by column: unknown_col"), empty_world) /\
  Table_query build_filter_clauses engine table (Some [("id", VInt 5)])
    (OrderByDict [("id", VStr "desc"); ("unknown_col", VStr "asc")]) None None empty_world
  = (raise (KeyError "Unknown order by column: unknown_col"), empty_world).
Proof.
  assert (Hf : compiled_filters build_filter_clauses table (Some [("id", VInt 5)])
               = ok ["id = 5"]) by (vm_compute; reflexivity).
  split; [exact Hf |].
  destruct (query_order_by_unknown_column build_filter_clauses engine
              table (Some [("id", VInt 5)]) ["id = 5"] None None empty_world Hf)
    as (Hstr & _ & Hdict & _).
  split.
  - apply Hstr. vm_compute. reflexivity.
  - apply (Hdict [("id", VStr "desc"); ("unknown_col", VStr "asc")] "unknown_col").
    + constructor; [left; reflexivity |]. constructor; [right; reflexivity | constructor].
    + vm_compute. reflexivity.
Defined.

(** The entries of a dictionary are checked in order: a value that is no
    direction, on a known column, is reported before an unknown column
    that comes after it. *)
Example query_checks_entries_in_order :
  Table_query build_filter_clauses engine table None
    (OrderByDict [("id", VStr "sideways"); ("unknown_col", VStr "asc")])
    None None empty_world
  = (raise (ValueError "Invalid order direction value (allowed: 'desc', 'asc'): sideways"),
     empty_world).
Proof. vm_compute. reflexivity. Qed.

Lemma query_order_by_invalid_direction_witness :
  compiled_filters build_filter_clauses table None = ok [] /\
  Table_query build_filter_clauses engine table None
    (OrderByDict [("id", VStr "desc"); ("text", VStr "sideways"); ("unknown_col", VStr "asc")])
    None None empty_world
  = (raise (ValueError "Invalid order direction value (allowed: 'desc', 'asc'): sideways"),
     empty_world).
Proof.
  assert (Hf : compiled_filters build_filter_clauses table None = ok [])
    by (vm_compute; reflexivity).
  split; [exact Hf |].
  destruct (query_order_by_invalid_direction build_filter_clauses engine
              table None [] None None empty_world Hf)
    as (Hbad & _).
  apply (Hbad [("id", VStr "desc")] "text" (VStr "sideways")).
  - constructor; [| constructor].
    split; [eexists; vm_compute; reflexivity | left; reflexivity].
  - eexists. vm_compute. reflexivity.
  - discriminate.
  - discriminate.
Defined.

(** C10, a counterexample to the sentence of the specification: the direction of the entry is neither
    ["asc"] nor ["desc"], yet the call fails with the lookup error of its
    unknown column. *)
Lemma query_invalid_direction_counterexample :
  let r := Table_query build_filter_clauses engine table None
             (OrderByDict [("unknown_col", VStr "sideways")]) None None empty_world in
  VStr "sideways" <> VStr "asc" /\ VStr "sideways" <> VStr "desc" /\
  r = (raise (KeyError "Unknown order by column: unknown_col"), empty_world) /\
  (forall msg, r.1 <> raise (ValueError msg)).
Proof.
  cbv zeta. split_and!.
  - discriminate.
  - discriminate.
  - vm_compute. reflexivity.
  - intros msg. vm_compute. discriminate.
Qed.

(** A query the loop accepts: ordered by [id] descending, then [text]. *)
Example query_order_by_desc :
  (Table_query build_filter_clauses engine table None
     (OrderByDict [("id", VStr "desc"); ("text", VStr "asc")]) (Some 10) None empty_world).2
  = {| heap := ∅;
       trace := [EvSelect {| sel_table := "chunks"; sel_filter := [];
                             sel_order_by := [ByColumnDesc id_column; ByColumn text_column];
                             sel_limit := Some 10; sel_offset := None |}] |}.
Proof. vm_compute. reflexivity. Qed.


(** ** The further properties on the scenario *)

Definition Chunk_fields : list (string * FieldInfo) :=
  [ ("id", plain_field); ("title", plain_field); ("text", text_field);
    ("title_vec", vector_field "title" (Some "L2"));
    ("embedding", vector_field "text" None) ].

Definition Chunk_vector_fields : list (string * FieldInfo) :=
  [ ("title_vec", vector_field "title" (Some "L2")); ("embedding", vector_field "text" None) ].

Lemma classify_fields_partition_witness :
  NoDup (dict_keys Chunk_fields) /\
  classify_fields Chunk_fields = (Chunk_vector_fields, [("text", text_field)]).
Proof.
  assert (Hnd : NoDup (dict_keys Chunk_fields)).
  { apply (bool_decide_unpack _). vm_compute. exact I. }
  split; [exact Hnd |].
  rewrite (classify_fields_partition Chunk_fields Hnd). reflexivity.
Defined.

Lemma setup_auto_embedding_in_order_witness :
  NoDup (dict_keys Chunk_vector_fields) /\
  _setup_auto_embedding Chunk_vector_fields = configs.
Proof.
  assert (Hnd : NoDup (dict_keys Chunk_vector_fields)).
  { apply (bool_decide_unpack _). vm_compute. exact I. }
  split; [exact Hnd |].
  rewrite (setup_auto_embedding_in_order Chunk_vector_fields Hnd). reflexivity.
Defined.

Lemma synchronised_fields_are_covered_witness :
  readable "vector" first_expression_text (tbl_indexes chunks_l2) /\
  readable "fulltext" first_column_name (tbl_indexes chunks_l2) /\
  exists t2,
    covered "vector" first_expression_text (tbl_indexes t2)
      (distance_expression "embedding" "COSINE") /\
    covered "fulltext" first_column_name (tbl_indexes t2) "text".
Proof.
  assert (Hv : readable "vector" first_expression_text (tbl_indexes chunks_l2))
    by (apply chunks_l2_readable; reflexivity).
  assert (Hf : readable "fulltext" first_column_name (tbl_indexes chunks_l2)).
  { constructor; [| constructor]. split; [reflexivity | intros [=]]. }
  split; [exact Hv |]. split; [exact Hf |].
  destruct (synchronised_fields_are_covered distance_expression Chunk_vector_fields
              [("text", text_field)] chunks_l2 Hv Hf)
    as (t1 & t2 & _ & _ & _ & _ & _ & _ & Hcv & Hcf).
  exists t2. split.
  - apply (Hcv "embedding" (vector_field "text" None)); [| reflexivity].
    right. left.
  - apply (Hcf "text" text_field); [left | reflexivity].
Defined.

(** A record whose vectors the caller supplied, both of them. *)
Definition complete : record :=
  list_to_map [ ("id", VNone); ("title", VStr "Yo"); ("text", VStr "hey");
                ("title_vec", VVector [1]); ("embedding", VVector [9; 9]) ].

Lemma insert_populated_record_untouched_witness :
  Forall (fun e => exists v, obj (heap (world_of [complete])) 0%nat !! e.1 = Some v /\ v <> VNone)
         configs /\
  insert_auto_embedding configs 0%nat (world_of [complete]) = (ok tt, world_of [complete]).
Proof.
  assert (Hall : Forall (fun e => exists v, obj (heap (world_of [complete])) 0%nat !! e.1 = Some v
                                            /\ v <> VNone) configs).
  { constructor; [| constructor; [| constructor]];
      (eexists; split; [vm_compute; reflexivity | discriminate]). }
  split; [exact Hall |].
  exact (proj1 (insert_populated_record_untouched engine table configs 0%nat
                  (world_of [complete]) eq_refl Hall)).
Defined.

Lemma insert_embeds_at_most_once_witness :
  embeddable configs (obj (heap (world_of [hello])) 0%nat) /\
  exists w2,
    insert_auto_embedding configs 0%nat (world_of [hello]) = (ok tt, w2) /\
    embed_calls "embedding" (trace w2) = [VStr "hello"].
Proof.
  assert (Hwf : embeddable configs (obj (heap (world_of [hello])) 0%nat)).
  { repeat constructor; eexists; vm_compute; reflexivity. }
  assert (Hnd : NoDup (dict_keys configs)).
  { apply (bool_decide_unpack _). vm_compute. exact I. }
  split; [exact Hwf |].
  destruct (insert_embeds_at_most_once configs [("title_vec", title_vec_config)] []
              "embedding" embedding_config 0%nat (world_of [hello]) eq_refl Hnd Hwf)
    as (w1 & w2 & Hpre & Hrun & Hcalls).
  vm_compute in Hpre. injection Hpre as <-.
  exists w2. split; [exact Hrun |]. rewrite Hcalls. vm_compute. reflexivity.
Defined.

Lemma bulk_insert_empty_list_witness :
  _auto_embedding_configs table = Some configs /\
  Table_bulk_insert engine table [] empty_world
  = (ok [],
     {| heap := ∅;
        trace := [EvEmbedBatch "title_vec" []; EvEmbedBatch "embedding" [];
                  EvAdd []; EvFlush] |}).
Proof.
  split; [reflexivity |].
  exact (bulk_insert_empty_list engine table configs empty_world eq_refl).
Defined.

(** An embedding function whose batch form answers for the first source
    only. *)
Definition first_only : EmbedFn :=
  {| get_source_embedding := embed_one;
     get_source_embeddings := fun sources => take 1 (map embed_one sources) |}.

Definition first_only_config : EmbeddingConfig :=
  {| cfg_embed_fn := Some first_only;
     cfg_vector_field := vector_field "text" None;
     cfg_vector_field_name := "embedding";
     cfg_source_field_name := "text" |}.

Lemma bulk_insert_short_batch_witness :
  Forall (fun item => is_Some (obj (heap (world_of batch)) item !! "embedding")) [0; 1; 2]%nat /\
  exists w',
    bulk_auto_embedding [("embedding", first_only_config)] [0; 1; 2]%nat (world_of batch)
    = (ok tt, w') /\
    obj (heap w') 0%nat !! "embedding" = Some (VVector [5]) /\
    obj (heap w') 2%nat !! "embedding" = Some VNone.
Proof.
  assert (Hattr : Forall (fun item => is_Some (obj (heap (world_of batch)) item !! "embedding"))
                         [0; 1; 2]%nat).
  { repeat constructor; eexists; vm_compute; reflexivity. }
  assert (Hnd : NoDup (List.filter (needs_embedding (heap (world_of batch)) "embedding"
                                      first_only_config) [0; 1; 2]%nat)).
  { apply (bool_decide_unpack _). vm_compute. exact I. }
  split; [exact Hattr |].
  destruct (bulk_insert_short_batch "embedding" first_only_config first_only
              [0; 1; 2]%nat (world_of batch) eq_refl Hattr Hnd)
    as (w' & Hrun & Hset & Hnull).
  exists w'. split; [exact Hrun |]. split.
  - apply (Hset 0%nat); vm_compute; reflexivity.
  - apply (Hnull 1%nat); [vm_compute; reflexivity | vm_compute; lia].
Defined.

Lemma bulk_insert_singleton_embeds_like_insert_witness :
  embeddable configs (obj (heap (world_of [hello])) 0%nat) /\
  exists wi wb,
    insert_auto_embedding configs 0%nat (world_of [hello]) = (ok tt, wi) /\
    bulk_auto_embedding configs [0%nat] (world_of [hello]) = (ok tt, wb) /\
    heap wi = heap wb.
Proof.
  assert (Hwf : embeddable configs (obj (heap (world_of [hello])) 0%nat)).
  { repeat constructor; eexists; vm_compute; reflexivity. }
  split; [exact Hwf |].
  apply (bulk_insert_singleton_embeds_like_insert configs 0%nat (world_of [hello]) Hwf).
  constructor; [| constructor; [| constructor]]; intros fn [= <-] s; reflexivity.
Defined.

Lemma successful_construction_witness :
  Table_init distance_expression engine Chunk None None true empty_world
  = (ok table, {| heap := ∅; trace := [EvCreateAll chunks_indexed true] |}) /\
  tbl_indexes chunks `prefix_of` tbl_indexes (_sa_table table) /\
  _vector_column table = only_one (_vector_columns table).
Proof.
  assert (H : Table_init distance_expression engine Chunk None None true empty_world
              = (ok table, {| heap := ∅; trace := [EvCreateAll chunks_indexed true] |}))
    by (vm_compute; reflexivity).
  split; [exact H |].
  destruct (successful_construction distance_expression engine Chunk None None true
              empty_world _ table H)
    as (_ & _ & _ & _ & _ & _ & _ & Hpre & _ & _ & _ & Hvc & _).
  split; [exact Hpre | exact Hvc].
Defined.

(** A schema declared with SQLAlchemy alone: no field metadata. *)
Definition PlainChunk : Schema :=
  {| schema_type := DeclarativeMeta;
     schema_table := chunks;
     schema_tablename := "chunks";
     pydantic_fields := None |}.

Definition plain_table : Table :=
  {| _table_model := PlainChunk;
     _sa_table := chunks;
     _columns := tbl_columns chunks;
     _vector_columns := [title_vec_column; embedding_column];
     _text_columns := [title_column; text_column];
     _auto_embedding_configs := None;
     _vector_column := None;
     _text_column := None |}.

Lemma table_without_field_metadata_cannot_write_witness :
  pydantic_fields PlainChunk = None /\
  Table_init distance_expression engine PlainChunk None None true empty_world
  = (ok plain_table, {| heap := ∅; trace := [EvCreateAll chunks true] |}) /\
  Table_insert engine plain_table 0%nat (world_of [hello])
  = (raise (AttributeError "'Table' object has no attribute '_auto_embedding_configs'"),
     world_of [hello]).
Proof.
  assert (H : Table_init distance_expression engine PlainChunk None None true empty_world
              = (ok plain_table, {| heap := ∅; trace := [EvCreateAll chunks true] |}))
    by (vm_compute; reflexivity).
  split; [reflexivity |]. split; [exact H |].
  destruct (table_without_field_metadata_cannot_write build_filter_clauses
              distance_expression engine PlainChunk None None true empty_world _ plain_table
              eq_refl H) as [_ Hw].
  exact (proj1 (Hw (world_of [hello]) 0%nat [] ∅ None)).
Defined.


(** An ordinary index on [title], declared without [mysql_prefix], and the
    schema of chunks with it. *)
Definition title_index : Index :=
  {| idx_name := "ix_chunks_title";
     idx_expressions := [ExprColumn "title"];
     idx_columns := ["title"];
     dialect_kwargs := ∅ |}.

Definition IndexedChunk : Schema :=
  {| schema_type := TableModelMeta;
     schema_table := add_indexes chunks [title_index];
     schema_tablename := "chunks";
     pydantic_fields := Some Chunk_fields |}.

Lemma untyped_index_stops_construction_witness :
  tbl_indexes (schema_table IndexedChunk) = [] ++ title_index :: [] /\
  dialect_kwargs title_index !! "mysql_prefix" = None /\
  Table_init distance_expression engine IndexedChunk None None true empty_world
  = (raise (AttributeError "'NoneType' object has no attribute 'lower'"), empty_world).
Proof.
  assert (Ht : tbl_indexes (schema_table IndexedChunk) = [] ++ title_index :: [])
    by reflexivity.
  assert (Hp : dialect_kwargs title_index !! "mysql_prefix" = None) by reflexivity.
  split; [exact Ht |]. split; [exact Hp |].
  destruct (untyped_index_stops_construction distance_expression engine IndexedChunk
              Chunk_fields [] [] title_index Ht Hp) as (_ & _ & Hinit).
  apply Hinit; [reflexivity | reflexivity | constructor |].
  assert (Hcl : (classify_fields Chunk_fields).1 = Chunk_vector_fields)
    by (vm_compute; reflexivity).
  rewrite Hcl. left. reflexivity.
Defined.


End Scenario.
